(** * vivludo: cellular automata by convolution and table lookup

    A shallow embedding of [vivludo/automata.py], [vivludo/utils.py] and
    the pure functions of [vivludo/render.py].

    Python objects that the code shares and mutates (numpy arrays) live in
    an explicit store; numpy's integer arrays are a buffer of integers in
    row-major order together with a shape, and an array object is a view
    of a buffer.  Methods are computations in a state-and-exception monad
    over the store; the automaton object [self] is passed explicitly.

    Integers are unbounded ([Z]) where numpy computes in [int64]: the
    two agree as long as no product, power or sum leaves [int64], which
    holds on every table that can be held in memory (see
    [nb_kernel_bounded]); theorems about other kernels and grids bound
    their numbers.  Arrays are integer arrays: a list without elements,
    which numpy makes an array of floats that cannot index a table, is
    read as an integer array without elements, so theorems about a step
    take a state with at least one cell.  Text is 8-bit ([string]), so
    [\d] and [str.lower] are the ASCII ones.  scipy's [convolve2d] is
    modelled from its documentation. *)

From Stdlib Require Import ZArith List String Ascii Bool Lia.
From stdpp Require Import base list.
Import ListNotations.
Local Open Scope Z_scope.

(** ** Python exceptions *)

Inductive exn : Type :=
| ValueError (msg : string)
| TypeError (msg : string)
| IndexError (msg : string)
| KeyError (msg : string)
| Dangling. (* a reference to no store cell; Python has none *)

(** ** The store: buffers, array objects, the monad *)

Abbreviation loc := nat.
Abbreviation heap := (list (list Z)).

(** A numpy array by value: shape and row-major data. *)
Record ndval : Type := NdVal { shape : list Z; data : list Z }.

(** A numpy array object.  [Arr b s r] views buffer [b] with shape [s],
    back to front when [r] holds (what [np.flip] returns).  [ArrNone s] is
    an object array of shape [s] holding [None]s ([np.copy(None)]). *)
Inductive ndarray : Type :=
| Arr (buf : loc) (ashape : list Z) (reversed : bool)
| ArrNone (ashape : list Z).

Definition M (A : Type) : Type := heap -> (exn + A) * heap.

Definition ret {A} (a : A) : M A := fun h => (inr a, h).
Definition raise {A} (e : exn) : M A := fun h => (inl e, h).
Definition bind {A B} (m : M A) (k : A -> M B) : M B :=
  fun h => match m h with
           | (inl e, h') => (inl e, h')
           | (inr a, h') => k a h'
           end.
Definition lift {A} (r : exn + A) : M A := fun h => (r, h).

Notation "'let*' x ':=' m 'in' k" := (bind m (fun x => k))
  (at level 10, x name, m at level 100, k at level 200, only parsing).
Notation "'let*' ' pat ':=' m 'in' k" :=
  (bind m (fun x => match x with pat => k end))
  (at level 10, pat pattern, m at level 100, k at level 200, only parsing).

Definition alloc (d : list Z) : M loc :=
  fun h => (inr (length h), h ++ [d]).
Definition read_buf (l : loc) : M (list Z) :=
  fun h => match h !! l with
           | Some d => (inr d, h)
           | None => (inl Dangling, h)
           end.
Definition write_buf (l : loc) (d : list Z) : M unit :=
  fun h => match h !! l with
           | Some _ => (inr tt, <[l := d]> h)
           | None => (inl Dangling, h)
           end.

(** The contents of an integer array object, as the view shows them. *)
Definition view (r : bool) (d : list Z) : list Z := if r then rev d else d.

Definition load (b : loc) (s : list Z) (r : bool) : M ndval :=
  let* d := read_buf b in ret (NdVal s (view r d)).

(** A fresh array object owning a fresh buffer. *)
Definition new_array (v : ndval) : M ndarray :=
  let* b := alloc (data v) in ret (Arr b (shape v) false).

(** What an array object holds in a store, without running anything. *)
Definition contents (h : heap) (a : ndarray) : option ndval :=
  match a with
  | Arr b s r => d ← h !! b; Some (NdVal s (view r d))
  | ArrNone _ => None
  end.

(** ** Helpers on integers and lists *)

Definition range (n : Z) : list Z := map Z.of_nat (seq 0 (Z.to_nat n)).
Definition zsum (l : list Z) : Z := fold_right Z.add 0 l.
Definition zprod (l : list Z) : Z := fold_right Z.mul 1 l.
Definition zlen {A} (l : list A) : Z := Z.of_nat (length l).

(** numpy index normalisation along an axis of size [n]: negative indices
    count from the end, anything outside [-n, n) is an [IndexError]. *)
Definition norm_index (n i : Z) : option Z :=
  if (0 <=? i) && (i <? n) then Some i
  else if (- n <=? i) && (i <? 0) then Some (i + n)
  else None.

(** ** numpy operations used by the source *)

(** Things numpy converts to an integer array. *)
Inductive arraylike : Type :=
| AList1 (l : list Z)
| AList2 (m : list (list Z))
| AArr (a : ndarray).

Definition rectangular (m : list (list Z)) : bool :=
  match m with
  | [] => true
  | r :: m' => forallb (fun r' => Nat.eqb (length r') (length r)) m'
  end.

Definition shape2 (m : list (list Z)) : list Z :=
  match m with
  | [] => [0]
  | r :: _ => [zlen m; zlen r]
  end.

(** [np.asarray] by value; ragged nested lists are rejected.  A list
    without elements is read as an integer array without elements (numpy
    makes it [float64]). *)
Definition as_value (x : arraylike) : M (option ndval) :=
  match x with
  | AList1 l => ret (Some (NdVal [zlen l] l))
  | AList2 m =>
      if rectangular m then ret (Some (NdVal (shape2 m) (concat m)))
      else raise (ValueError "inhomogeneous shape")
  | AArr (Arr b s r) => let* v := load b s r in ret (Some v)
  | AArr (ArrNone _) => ret None
  end.

Definition obj_shape (x : arraylike) : list Z :=
  match x with AArr (ArrNone s) => s | _ => [] end.

(** [np.copy(x)]: always a new array with a buffer of its own. *)
Definition np_copy (x : arraylike) : M ndarray :=
  let* v := as_value x in
  match v with
  | Some v => new_array v
  | None => ret (ArrNone (obj_shape x))
  end.

(** [np.copy([x])]: one more leading axis of size 1. *)
Definition np_copy_wrapped (x : arraylike) : M ndarray :=
  let* v := as_value x in
  match v with
  | Some v => new_array (NdVal (1 :: shape v) (data v))
  | None => ret (ArrNone (1 :: obj_shape x))
  end.

(** [np.flip(x)] (all axes): a view of [x] when [x] is an array, a view of
    a new array when [x] is a nested list. *)
Definition np_flip (x : arraylike) : M ndarray :=
  match x with
  | AArr (Arr b s r) => ret (Arr b s (negb r))
  | AArr (ArrNone s) => ret (ArrNone s)
  | _ =>
      let* v := as_value x in
      match v with
      | Some v => let* b := alloc (data v) in ret (Arr b (shape v) true)
      | None => ret (ArrNone [])
      end
  end.

(** [a[i, j] = x] on an array object. *)
Definition setitem2 (a : ndarray) (i j x : Z) : M unit :=
  match a with
  | Arr b [H; W] r =>
      match norm_index H i, norm_index W j with
      | Some i', Some j' =>
          let* d := read_buf b in
          let k := Z.to_nat (i' * W + j') in
          let k' := if r then (length d - 1 - k)%nat else k in
          write_buf b (<[k' := x]> d)
      | _, _ => raise (IndexError "index is out of bounds")
      end
  | Arr _ _ _ => raise (IndexError "too many indices for array")
  | ArrNone [H; W] =>
      match norm_index H i, norm_index W j with
      | Some _, Some _ => ret tt
      | _, _ => raise (IndexError "index is out of bounds")
      end
  | ArrNone _ => raise (IndexError "too many indices for array")
  end.

(** [a.sum()]. *)
Definition np_sum (a : ndarray) : M Z :=
  match a with
  | Arr b s r => let* v := load b s r in ret (zsum (data v))
  | ArrNone _ => raise (TypeError "unsupported operand type(s) for +")
  end.

(** *** [scipy.signal.convolve2d(in1, in2, mode="same")]

    Output cell [(i, j)] is the sum over kernel positions [(p, q)] of
    [in2[p, q] * in1[i + (kh-1)//2 - p, j + (kw-1)//2 - q]]; indices that
    leave [in1] wrap around (boundary "wrap") or read [fillvalue]
    (boundary "fill").  The sums are exact; scipy computes them in
    [int64]. *)

Inductive boundary : Type := BWrap | BFill.

Definition at2 (d : list Z) (W i j : Z) : Z :=
  nth (Z.to_nat (i * W + j)) d 0.

Definition padded (bd : boundary) (fillvalue : Z)
    (d : list Z) (H W i j : Z) : Z :=
  match bd with
  | BWrap => at2 d W (i mod H) (j mod W)
  | BFill =>
      if (0 <=? i) && (i <? H) && (0 <=? j) && (j <? W)
      then at2 d W i j else fillvalue
  end.

(** The pairs (kernel weight, input cell) that meet at output cell
    [(i, j)], and their sum of products. *)
Definition conv_terms (bd : boundary) (fillvalue : Z)
    (d : list Z) (H W : Z) (k : list Z) (kh kw : Z) (i j : Z)
    : list (Z * Z) :=
  flat_map (fun p =>
      map (fun q =>
             (at2 k kw p q,
              padded bd fillvalue d H W
                (i + (kh - 1) / 2 - p) (j + (kw - 1) / 2 - q)))
          (range kw))
    (range kh).

Definition conv_cell (bd : boundary) (fillvalue : Z)
    (d : list Z) (H W : Z) (k : list Z) (kh kw : Z) (i j : Z) : Z :=
  zsum (map (fun t => fst t * snd t)
            (conv_terms bd fillvalue d H W k kh kw i j)).

Definition convolve2d (in1 in2 : option ndval)
    (bd : boundary) (fillvalue : Z) : exn + ndval :=
  match in1, in2 with
  | Some (NdVal [H; W] d), Some (NdVal [kh; kw] k) =>
      inr (NdVal [H; W]
             (flat_map (fun i =>
                map (fun j => conv_cell bd fillvalue d H W k kh kw i j)
                    (range W))
              (range H)))
  | _, _ => inl (ValueError "convolve2d inputs must both be 2-D arrays")
  end.

(** *** [table[idx]] with an integer index array [idx]

    The result has shape [idx.shape + table.shape[1:]]; every index is
    normalised along the first axis of [table]. *)

Fixpoint mapM_opt {A B} (f : A -> option B) (l : list A) : option (list B) :=
  match l with
  | [] => Some []
  | x :: l' =>
      match f x, mapM_opt f l' with
      | Some y, Some ys => Some (y :: ys)
      | _, _ => None
      end
  end.

Definition take_rows (t : ndval) (idx : ndval) : exn + ndval :=
  match shape t with
  | [] => inl (IndexError "too many indices for array")
  | n :: s' =>
      let w := Z.to_nat (zprod s') in
      match mapM_opt (fun v =>
                        i ← norm_index n v;
                        Some (firstn w (skipn (Z.to_nat i * w) (data t))))
                     (data idx) with
      | Some rows => inr (NdVal (shape idx ++ s') (concat rows))
      | None => inl (IndexError "index is out of bounds")
      end
  end.

(** ** Python values passed where the code does no type checking *)

Inductive pyval : Type :=
| PyNone
| PyBool (b : bool)
| PyInt (z : Z)
| PyStr (s : string)
| PyList (l : list Z)
| PyArr (a : ndarray).

(** [obj[idx]] for an index array [idx] with two axes. *)
Definition getitem (obj : pyval) (idx : ndval) : M ndarray :=
  match obj with
  | PyArr (Arr b s r) =>
      let* t := load b s r in
      let* v := lift (take_rows t idx) in
      new_array v
  | PyArr (ArrNone []) => raise (IndexError "too many indices for array")
  | PyArr (ArrNone (n :: s')) =>
      match mapM_opt (norm_index n) (data idx) with
      | Some _ => ret (ArrNone (shape idx ++ s'))
      | None => raise (IndexError "index is out of bounds")
      end
  | PyList _ =>
      raise (TypeError "only integer scalar arrays can be converted to a scalar index")
  | PyStr _ => raise (TypeError "string indices must be integers")
  | _ => raise (TypeError "object is not subscriptable")
  end.

(** ** class ConvCA and its subclasses

    [ECA] overrides [set_state] and [copy_state]; [n_generations] calls
    [self.copy_state()], so the object carries its class. *)

Inductive klass : Type := KConvCA | KLifeLike | KECA | KNonTotalistic.

Record automaton : Type := Automaton {
  cls : klass;
  update_array : pyval;
  kernel : ndarray;
  edges : string;
  convolve_boundary : boundary;
  edge_fill : Z;
  cell_array : option ndarray
}.

Definition with_cells (self : automaton) (c : ndarray) : automaton :=
  Automaton (cls self) (update_array self) (kernel self) (edges self)
            (convolve_boundary self) (edge_fill self) (Some c).

Module ConvCA.

Definition init (c : klass) (update_array : pyval) (kernel : ndarray)
    (edges : string) (edge_fill : Z) : M automaton :=
  if String.eqb edges "wrap" then
    ret (Automaton c update_array kernel edges BWrap edge_fill None)
  else if String.eqb edges "fixed" then
    ret (Automaton c update_array kernel edges BFill edge_fill None)
  else raise (ValueError "Invalid edge mode: %s").

Definition load_opt (a : option ndarray) : M (option ndval) :=
  match a with
  | Some a => as_value (AArr a)
  | None => ret None
  end.

Definition step (self : automaton) : M automaton :=
  let* cells := load_opt (cell_array self) in
  let* k := as_value (AArr (kernel self)) in
  let* conv :=
    lift (convolve2d cells k (convolve_boundary self) (edge_fill self)) in
  let* new := getitem (update_array self) conv in
  ret (with_cells self new).

Definition set_state (self : automaton) (cell_array : arraylike)
    : M automaton :=
  let* c := np_copy cell_array in ret (with_cells self c).

Definition copy_state (self : automaton) : M ndarray :=
  match cell_array self with
  | Some a => np_copy (AArr a)
  | None => ret (ArrNone [])
  end.

End ConvCA.

(** ** class ECA *)

Module ECA.

Fixpoint pos_bits (p : positive) : string :=
  match p with
  | xH => "1"
  | xO p' => pos_bits p' ++ "0"
  | xI p' => pos_bits p' ++ "1"
  end.

Definition zero_fill (w : nat) (s : string) : string :=
  string_of_list_ascii (repeat "0"%char (w - String.length s)) ++ s.

(** [format(n, "08b")] *)
Definition format_08b (n : Z) : string :=
  match n with
  | Z0 => zero_fill 8 "0"
  | Zpos p => zero_fill 8 (pos_bits p)
  | Zneg p => "-" ++ zero_fill 7 (pos_bits p)
  end.

(** [int(c)] for a one-character string. *)
Definition int_of_char (c : ascii) : option Z :=
  let n := nat_of_ascii c in
  if (48 <=? n)%nat && (n <=? 57)%nat then Some (Z.of_nat n - 48) else None.

(** [[int(c) for c in cs]] *)
Definition ints_of_chars (cs : list ascii) : exn + list Z :=
  match mapM_opt int_of_char cs with
  | Some l => inr l
  | None => inl (ValueError "invalid literal for int() with base 10")
  end.

Definition init (n : pyval) (edges : string) (edge_fill : Z) : M automaton :=
  match n with
  | PyInt n =>
      if (n >? 255) || (n <? 0) then raise (ValueError "Not a valid rule: %s")
      else
        let* digits :=
          lift (ints_of_chars (rev (list_ascii_of_string (format_08b n)))) in
        let* update_array := np_copy (AList1 digits) in
        let* kernel := np_copy (AList2 [[1; 2; 4]]) in
        let* update_array := np_copy (AArr update_array) in
        ConvCA.init KECA (PyArr update_array) kernel edges edge_fill
  | _ => raise (TypeError "Not a valid rule: %s")
  end.

Definition set_state (self : automaton) (cell_array : arraylike)
    : M automaton :=
  let* c := np_copy_wrapped cell_array in ret (with_cells self c).

(** [np.copy(self.cell_array[0])] *)
Definition copy_state (self : automaton) : M ndarray :=
  match cell_array self with
  | None => raise (TypeError "'NoneType' object is not subscriptable")
  | Some (Arr b s r) =>
      match s with
      | [] => raise (IndexError "too many indices for array")
      | n :: s' =>
          if 0 <? n then
            let* v := load b s r in
            new_array (NdVal s' (firstn (Z.to_nat (zprod s')) (data v)))
          else raise (IndexError "index 0 is out of bounds")
      end
  | Some (ArrNone s) =>
      match s with
      | [] => raise (IndexError "too many indices for array")
      | n :: s' =>
          if 0 <? n then ret (ArrNone s')
          else raise (IndexError "index 0 is out of bounds")
      end
  end.

End ECA.

(** ** Method dispatch and the generator [n_generations] *)

(** What one [step()] does to the grid and what [copy_state()] shows of
    it, by value; [step_run] and [copy_state_run] below relate them to
    the methods. *)
Definition next_cells (table kern : ndval) (bd : boundary) (fillvalue : Z)
    (cells : ndval) : exn + ndval :=
  match convolve2d (Some cells) (Some kern) bd fillvalue with
  | inl e => inl e
  | inr conv => take_rows table conv
  end.

Definition snapshot_of (c : klass) (cells : ndval) : option ndval :=
  match c with
  | KECA =>
      match shape cells with
      | n :: s' =>
          if 0 <? n
          then Some (NdVal s' (firstn (Z.to_nat (zprod s')) (data cells)))
          else None
      | [] => None
      end
  | _ => Some cells
  end.

Definition step := ConvCA.step.

Definition set_state (self : automaton) (x : arraylike) : M automaton :=
  match cls self with
  | KECA => ECA.set_state self x
  | _ => ConvCA.set_state self x
  end.

Definition copy_state (self : automaton) : M ndarray :=
  match cls self with
  | KECA => ECA.copy_state self
  | _ => ConvCA.copy_state self
  end.

(** The frame of a suspended [n_generations]: its locals [n] and [count].
    It shares [self] with the caller. *)
Record generator : Type := Generator { gen_n : Z; gen_count : Z }.

Definition n_generations (n : Z) : generator := Generator n 0.

(** One [next()]: run the loop body up to its [yield], or stop. *)
Definition next (self : automaton) (g : generator)
    : M (option ndarray * generator * automaton) :=
  let n := gen_n g in
  let count := gen_count g in
  if (count <? n) || (n <? 0) then
    let* self := (if count >? 0 then step self else ret self) in
    let count := if n >=? 0 then count + 1 else count in
    let* snap := copy_state self in
    ret (Some snap, Generator n count, self)
  else ret (None, g, self).

(** [list(gen)], as far as [fuel] calls of [next] go: [Some] of the
    snapshots once the generator has stopped, [None] if it has not. *)
Fixpoint drain (fuel : nat) (self : automaton) (g : generator)
    : M (option (list ndarray) * automaton) :=
  match fuel with
  | O => ret (None, self)
  | S fuel' =>
      let* '(y, g', self') := next self g in
      match y with
      | None => ret (Some [], self')
      | Some snap =>
          let* '(rest, self'') := drain fuel' self' g' in
          ret (option_map (cons snap) rest, self'')
      end
  end.

(** The first [k] items of the generator (fewer if it stops). *)
Fixpoint take_gen (k : nat) (self : automaton) (g : generator)
    : M (list ndarray * generator * automaton) :=
  match k with
  | O => ret ([], g, self)
  | S k' =>
      let* '(y, g', self') := next self g in
      match y with
      | None => ret ([], g', self')
      | Some snap =>
          let* '(rest, g'', self'') := take_gen k' self' g' in
          ret (snap :: rest, g'', self'')
      end
  end.

(** ** class LifeLike *)

Module LifeLike.

(** The [rule_string] argument: text, or a list of two lists of counts. *)
Inductive rule_spec : Type :=
| RuleStr (s : string)
| RulePair (live survive : list Z).

(** [not weights], for [weights] that is [None], a nested list or an
    array.  numpy gives the truth value of an array of one element only:
    it refuses an array with more than one element and an array without
    elements. *)
Definition py_not (weights : option arraylike) : M bool :=
  match weights with
  | None => ret true
  | Some (AList1 l) => ret (Nat.eqb (length l) 0)
  | Some (AList2 m) => ret (Nat.eqb (length m) 0)
  | Some (AArr (Arr b s r)) =>
      let* v := load b s r in
      match data v with
      | [] => raise (ValueError
                "The truth value of an empty array is ambiguous")
      | [x] => ret (x =? 0)
      | _ => raise (ValueError
               "The truth value of an array with more than one element is ambiguous")
      end
  | Some (AArr (ArrNone s)) =>
      if zprod s =? 1 then ret true
      else if zprod s =? 0 then
        raise (ValueError "The truth value of an empty array is ambiguous")
      else raise (ValueError
             "The truth value of an array with more than one element is ambiguous")
  end.

(** [np.ones(n, dtype=int)] *)
Definition np_ones (n : Z) : M ndarray :=
  if n <? 0 then raise (ValueError "negative dimensions are not allowed")
  else new_array (NdVal [n] (repeat 1 (Z.to_nat n))).

(** [a.reshape(size, size)]: a view of the same buffer. *)
Definition reshape2 (a : ndarray) (size : Z) : M ndarray :=
  match a with
  | Arr b s r =>
      if (size <? 0) || negb (zprod s =? size * size)
      then raise (ValueError "cannot reshape array")
      else ret (Arr b [size; size] r)
  | ArrNone s =>
      if (size <? 0) || negb (zprod s =? size * size)
      then raise (ValueError "cannot reshape array")
      else ret (ArrNone [size; size])
  end.

(** The regular expression of [parse], by hand: from the start of the
    text an optional b or B, a run of digits (group 1), a slash, an
    optional s or S, a run of digits (group 2), then the end.  Each part
    is greedy and no shorter choice can match, so there is one way to
    read a text.  A digit is one of the ten ASCII digits. *)
Definition is_digit (c : ascii) : bool :=
  let n := nat_of_ascii c in (48 <=? n)%nat && (n <=? 57)%nat.

Definition skip_opt (a b : ascii) (s : string) : string :=
  match s with
  | String c s' => if Ascii.eqb c a || Ascii.eqb c b then s' else s
  | EmptyString => s
  end.

Fixpoint span_digits (s : string) : string * string :=
  match s with
  | String c s' =>
      if is_digit c
      then let '(d, rest) := span_digits s' in (String c d, rest)
      else (EmptyString, s)
  | EmptyString => (EmptyString, EmptyString)
  end.

(** [$] matches at the end and before a final newline. *)
Definition at_end (s : string) : bool :=
  match s with
  | EmptyString => true
  | String c EmptyString => Ascii.eqb c "010"
  | _ => false
  end.

Definition re_search (s : string) : option (string * string) :=
  let s1 := skip_opt "b" "B" s in
  let '(g1, s2) := span_digits s1 in
  match s2 with
  | String "/" s3 =>
      let s4 := skip_opt "s" "S" s3 in
      let '(g2, s5) := span_digits s4 in
      if at_end s5 then Some (g1, g2) else None
  | _ => None
  end.

(** The born and survive counts a rule stands for. *)
Definition counts (rule_string : rule_spec) : exn + list Z * list Z :=
  match rule_string with
  | RulePair live survive => inr (live, survive)
  | RuleStr s =>
      match re_search s with
      | None => inl (ValueError "Invalid rule: %s")
      | Some (g1, g2) =>
          match ECA.ints_of_chars (list_ascii_of_string g1) with
          | inl e => inl e
          | inr live =>
              match ECA.ints_of_chars (list_ascii_of_string g2) with
              | inl e => inl e
              | inr survive => inr (live, survive)
              end
          end
      end
  end.

Definition parse (rule_string : rule_spec) (r : Z)
    (weights : option arraylike) : M (ndarray * ndarray) :=
  let* no_weights := py_not weights in
  let* kernel :=
    (match no_weights, weights with
     | false, Some w =>
         let* kernel := np_flip w in
         let* _ := setitem2 kernel r r 0 in
         ret kernel
     | _, _ =>
         let size := 2 * r + 1 in
         let* ones := np_ones (size * size) in
         let* kernel := reshape2 ones size in
         let* _ := setitem2 kernel r r 0 in
         ret kernel
     end) in
  let* weight_sum := np_sum kernel in
  let* _ := setitem2 kernel r r (weight_sum + 1) in
  let* '(live, survive) := lift (counts rule_string) in
  let living := live ++ map (fun i => weight_sum + 1 + i) survive in
  let* update_array :=
    np_copy (AList1 (map (fun i => if existsb (Z.eqb i) living then 1 else 0)
                         (range (2 * (weight_sum + 1))))) in
  ret (update_array, kernel).

Definition init (rule_string : rule_spec) (edges : string) (edge_fill : Z)
    (r : Z) (weights : option arraylike) : M automaton :=
  let* '(update_array, kernel) := parse rule_string r weights in
  ConvCA.init KLifeLike (PyArr update_array) kernel edges edge_fill.

End LifeLike.

(** ** utils.py: the neighbourhood catalogue *)

Module utils.

(** [np.array] of a nested list literal, by value. *)
Definition array2 (m : list (list Z)) : ndval := NdVal (shape2 m) (concat m).
Definition flip (v : ndval) : ndval := NdVal (shape v) (rev (data v)).

Definition nb_sizes (nb : string) : option Z :=
  if String.eqb nb "moore" then Some 9
  else if String.eqb nb "von neumann" then Some 5
  else if String.eqb nb "extended" then Some 9
  else None.

Definition nb_patterns (nb : string) : option ndval :=
  if String.eqb nb "moore" then
    Some (array2 [[1;1;1];
                  [1;1;1];
                  [1;1;1]])
  else if String.eqb nb "von neumann" then
    Some (array2 [[0;1;0];
                  [1;1;1];
                  [0;1;0]])
  else if String.eqb nb "extended" then
    Some (array2 [[0;0;1;0;0];
                  [0;0;1;0;0];
                  [1;1;1;1;1];
                  [0;0;1;0;0];
                  [0;0;1;0;0]])
  else None.

Definition nb_exponents (nb : string) : option ndval :=
  if String.eqb nb "moore" then
    Some (flip (array2 [[0;1;2];
                        [3;4;5];
                        [6;7;8]]))
  else if String.eqb nb "von neumann" then
    Some (flip (array2 [[0;0;0];
                        [1;2;3];
                        [0;4;0]]))
  else if String.eqb nb "extended" then
    Some (flip (array2 [[0;0;0;0;0];
                        [0;0;1;0;0];
                        [2;3;4;5;6];
                        [0;0;7;0;0];
                        [0;0;8;0;0]]))
  else None.

(** [str.lower], on 8-bit text. *)
Definition lower_char (c : ascii) : ascii :=
  let n := nat_of_ascii c in
  if (65 <=? n)%nat && (n <=? 90)%nat then ascii_of_nat (n + 32) else c.

Fixpoint lower (s : string) : string :=
  match s with
  | EmptyString => EmptyString
  | String c s' => String (lower_char c) (lower s')
  end.

(** [itertools.product(pool, repeat=n)]: tuples in lexicographic order,
    the last position moving fastest. *)
Fixpoint product (pool : list Z) (n : nat) : list (list Z) :=
  match n with
  | O => [[]]
  | S n' => flat_map (fun x => map (fun y => x ++ [y]) pool) (product pool n')
  end.

Definition func_to_update_array (func : ndval -> Z) (base : Z) (nb : string)
    : M ndarray :=
  let nb := lower nb in
  match nb_sizes nb with
  | None => raise (KeyError "nb")
  | Some size =>
      let possibilities := product (range base) (Z.to_nat size) in
      let result :=
        map (fun poss =>
               let poss := flip (NdVal [zlen poss] poss) in
               let poss :=
                 if String.eqb nb "moore" then NdVal [3; 3] (data poss)
                 else poss in
               func poss)
            possibilities in
      np_copy (AList1 result)
  end.

End utils.

(** ** class NonTotalistic *)

Module NonTotalistic.

(** The [rule] argument: a function of the neighbourhood array, or
    anything else. *)
Inductive rule_arg : Type :=
| Callable (func : ndval -> Z)
| NotCallable (v : pyval).

Fixpoint zip_with (f : Z -> Z -> Z) (xs ys : list Z) : list Z :=
  match xs, ys with
  | x :: xs', y :: ys' => f x y :: zip_with f xs' ys'
  | _, _ => []
  end.

Definition parse_kernel (base : Z) (nb : string) : M ndarray :=
  let nb := utils.lower nb in
  match utils.nb_patterns nb, utils.nb_exponents nb with
  | Some pattern, Some exponents =>
      let exponentiated :=
        zip_with Z.pow (map (Z.mul base) (data pattern)) (data exponents) in
      new_array (NdVal (shape pattern)
                       (zip_with Z.mul (data pattern) exponentiated))
  | None, _ => raise (ValueError "Invalid neighbourhood type: %s")
  | Some _, None => raise (KeyError "nb")
  end.

Definition parse_rule (rule : rule_arg) (base : Z) (nb : string) : M pyval :=
  match rule with
  | Callable func =>
      let* a := utils.func_to_update_array func base nb in ret (PyArr a)
  | NotCallable v => ret v
  end.

Definition init (rule : rule_arg) (base : Z) (nb : string)
    (edges : string) (edge_fill : Z) : M automaton :=
  let* kernel := parse_kernel base nb in
  let* update_array := parse_rule rule base nb in
  ConvCA.init KNonTotalistic update_array kernel edges edge_fill.

End NonTotalistic.


(** ** Observing a store *)

(** The integer array an array-like argument stands for. *)
Definition value_in (h : heap) (x : arraylike) : option ndval :=
  match x with
  | AList1 l => Some (NdVal [zlen l] l)
  | AList2 m => if rectangular m then Some (NdVal (shape2 m) (concat m)) else None
  | AArr a => contents h a
  end.

(** The grid, the update table and the kernel an automaton holds. *)
Definition grid_at (h : heap) (self : automaton) : option ndval :=
  c ← cell_array self; contents h c.

Definition table_at (h : heap) (self : automaton) : option ndval :=
  match update_array self with
  | PyArr t => contents h t
  | _ => None
  end.

Definition kernel_at (h : heap) (self : automaton) : option ndval :=
  contents h (kernel self).

(** The boundary an edge mode selects, if [ConvCA.__init__] accepts it. *)
Definition edge_boundary (edges : string) : option boundary :=
  if String.eqb edges "wrap" then Some BWrap
  else if String.eqb edges "fixed" then Some BFill
  else None.

(** Wolfram's rule [n] as a table: bit [i] of [n] at index [i]. *)
Definition wolfram (n : Z) : list Z :=
  map (fun i => Z.b2z (Z.testbit n i)) (range 8).

(** The digits [ECA.__init__] reads off [format(n, "08b")]. *)
Definition eca_digits (n : Z) : exn + list Z :=
  ECA.ints_of_chars (rev (list_ascii_of_string (ECA.format_08b n))).

(** The [TypeError] and [ValueError] with which [ECA] rejects a rule. *)
Definition invalid_rule_number (e : exn) : Prop :=
  e = TypeError "Not a valid rule: %s" \/ e = ValueError "Not a valid rule: %s".

(** [ECA(n, edges="wrap")], one [set_state], one [step()], one
    [copy_state()]. *)
Definition eca_scenario (n : Z) (edge_fill : Z) (state : arraylike)
    : M ndarray :=
  let* ca := ECA.init (PyInt n) "wrap" edge_fill in
  let* ca := set_state ca state in
  let* ca := step ca in
  copy_state ca.

(** A cell of a two-state automaton. *)
Definition bit (x : Z) : Prop := x = 0 \/ x = 1.

(** What [n_generations(n)] is meant to show: the grid as it is, then the
    grid after each further step, [n] snapshots in all; [None] when a
    step or a snapshot raises. *)
Fixpoint later (f : ndval -> exn + ndval) (c : klass) (k : nat) (g : ndval)
    : option (list ndval) :=
  match k with
  | O => Some []
  | S k' =>
      match f g with
      | inr g' =>
          s ← snapshot_of c g'; rest ← later f c k' g'; Some (s :: rest)
      | inl _ => None
      end
  end.

Definition generations (f : ndval -> exn + ndval) (c : klass) (n : nat)
    (g : ndval) : option (list ndval) :=
  match n with
  | O => Some []
  | S k => s ← snapshot_of c g; rest ← later f c k g; Some (s :: rest)
  end.

(** The grid after [i] steps. *)
Fixpoint after_steps (f : ndval -> exn + ndval) (i : nat) (g : ndval)
    : option ndval :=
  match i with
  | O => Some g
  | S i' => match f g with inr g' => after_steps f i' g' | inl _ => None end
  end.

(** An automaton of class [c] whose table and kernel are in the store. *)
Definition ready (tv kv : ndval) (c : klass) (bd : boundary) (fill : Z)
    (h : heap) (self : automaton) : Prop :=
  table_at h self = Some tv /\ kernel_at h self = Some kv /\
  cls self = c /\ convolve_boundary self = bd /\ edge_fill self = fill.

(** An array object whose buffer is not in the store [h]. *)
Definition fresh_in (h : heap) (a : ndarray) : Prop :=
  match a with
  | Arr b _ _ => h !! b = None
  | ArrNone _ => True
  end.

(** Rule 110 on three cells, the last alive. *)
Definition rule110 : M automaton :=
  let* ca := ECA.init (PyInt 110) "wrap" 0 in
  set_state ca (AList1 [0; 0; 1]).

(** The automaton and the store [rule110] ends in. *)
Definition rule110_self : automaton :=
  Automaton KECA (PyArr (Arr 2 [8] false)) (Arr 1 [1; 3] false)
            "wrap" BWrap 0 (Some (Arr 3 [1; 3] false)).

Definition rule110_store : heap :=
  [[0; 1; 1; 1; 0; 1; 1; 0]; [1; 2; 4]; [0; 1; 1; 1; 0; 1; 1; 0]; [0; 0; 1]].

(** [LifeLike.parse] in two parts: the kernel before its centre gets its
    weight, and the rest ([parse_split] below). *)
Definition parse_kernel_part (r : Z) (weights : option arraylike)
    (no_weights : bool) : M ndarray :=
  match no_weights, weights with
  | false, Some w =>
      let* kernel := np_flip w in
      let* _ := setitem2 kernel r r 0 in
      ret kernel
  | _, _ =>
      let size := 2 * r + 1 in
      let* ones := LifeLike.np_ones (size * size) in
      let* kernel := LifeLike.reshape2 ones size in
      let* _ := setitem2 kernel r r 0 in
      ret kernel
  end.

(** The update table of [LifeLike.parse] for a weight sum and counts. *)
Definition life_table (weight_sum : Z) (live survive : list Z) : list Z :=
  let living := live ++ map (fun i => weight_sum + 1 + i) survive in
  map (fun i => if existsb (Z.eqb i) living then 1 else 0)
      (range (2 * (weight_sum + 1))).

Definition parse_rest (rule_string : LifeLike.rule_spec) (r : Z)
    (kernel : ndarray) : M (ndarray * ndarray) :=
  let* weight_sum := np_sum kernel in
  let* _ := setitem2 kernel r r (weight_sum + 1) in
  let* '(live, survive) := lift (LifeLike.counts rule_string) in
  let* update_array := np_copy (AList1 (life_table weight_sum live survive)) in
  ret (update_array, kernel).

(** The buffer position of flat index [k] under a view. *)
Definition buf_pos (reversed : bool) (d : list Z) (k : Z) : nat :=
  if reversed then (length d - 1 - Z.to_nat k)%nat else Z.to_nat k.

(** The kernel of [LifeLike.parse] for radius [r] and no weights. *)
Definition life_kernel (r : Z) : list Z :=
  let size := 2 * r + 1 in
  <[Z.to_nat (r * size + r) := size * size]>
    (repeat 1 (Z.to_nat (size * size))).

(** ** Conway's Game of Life on a 3 x 3 torus *)

Definition lonely : list (list Z) := [[0; 0; 0]; [0; 1; 0]; [0; 0; 0]].

Definition life_scenario : M ndarray :=
  let* gol := LifeLike.init (LifeLike.RuleStr "B3/S23") "wrap" 0 1 None in
  let* gol := set_state gol (AList2 lonely) in
  let* gol := step gol in
  copy_state gol.

(** An L of three live cells in the corner of a 3 x 3 grid, stepped once
    under an edge mode. *)
Definition corner_scenario (edges : string) : M ndarray :=
  let* gol := LifeLike.init (LifeLike.RuleStr "B3/S23") edges 0 1 None in
  let* gol := set_state gol (AList2 [[1; 1; 0]; [1; 0; 0]; [0; 0; 0]]) in
  let* gol := step gol in
  copy_state gol.

(** The message of numpy's refusal to take the truth value of an array. *)
Definition ambiguous_truth : exn :=
  ValueError
    "The truth value of an array with more than one element is ambiguous".

(** ** Reading the non-totalistic encoding *)

(** The kernel [NonTotalistic.parse_kernel] computes from a mask and its
    exponents. *)
Definition nb_kernel (base : Z) (pattern exponents : ndval) : list Z :=
  NonTotalistic.zip_with Z.mul (data pattern)
    (NonTotalistic.zip_with Z.pow (map (Z.mul base) (data pattern))
       (data exponents)).

(** The value [convolve2d] gives the cell at the centre of a window as
    large as the kernel. *)
Definition encode (kern : ndval) (window : list Z) : Z :=
  match shape kern with
  | [kh; kw] =>
      conv_cell BFill 0 window kh kw (data kern) kh kw
                ((kh - 1) / 2) ((kw - 1) / 2)
  | _ => 0
  end.

(** The cells of a window that the mask keeps, row by row, and the array
    the rule function is called with: 3 x 3 for "moore", flat otherwise. *)
Fixpoint neighbours (mask window : list Z) : list Z :=
  match mask, window with
  | m :: mask', x :: window' =>
      if m =? 1 then x :: neighbours mask' window'
      else neighbours mask' window'
  | _, _ => []
  end.

Definition func_arg (nb : string) (cells : list Z) : ndval :=
  if String.eqb nb "moore" then NdVal [3; 3] cells
  else NdVal [zlen cells] cells.

(** A numeral read from digits, least significant first and most
    significant first. *)
Definition horner (b : Z) (p : list Z) : Z :=
  fold_right (fun d acc => d + b * acc) 0 p.

Definition numeral (b : Z) (t : list Z) : Z :=
  fold_left (fun acc d => acc * b + d) t 0.

(** The [(2r+1) x (2r+1)] cells around cell [(i, j)] of a grid, row by
    row, as the boundary mode fills them in. *)
Definition window_at (bd : boundary) (fillvalue : Z) (d : list Z) (H W : Z)
    (r i j : Z) : list Z :=
  flat_map (fun a =>
      map (fun b => padded bd fillvalue d H W (i - r + a) (j - r + b))
          (range (2 * r + 1)))
    (range (2 * r + 1)).

(** The update table [utils.func_to_update_array] computes. *)
Definition func_table (func : ndval -> Z) (base : Z) (nb : string)
    (size : Z) : list Z :=
  map (fun poss =>
         let poss := utils.flip (NdVal [zlen poss] poss) in
         let poss :=
           if String.eqb nb "moore" then NdVal [3; 3] (data poss)
           else poss in
         func poss)
      (utils.product (range base) (Z.to_nat size)).

(** A rule function for the witness of the table theorem: the parity of
    the live cells of the neighbourhood. *)
Definition parity_rule (a : ndval) : Z := zsum (data a) mod 2.

(** ** utils.py: integer codes of update arrays

    [padded_base_b] loops while [x] is not zero; the loop is given fuel
    and [None] stands for a run that has not ended when the fuel is
    spent.  [update_array_to_int] is modelled on the integers of Python,
    as for a list [padded_base_b] returns; on an [int64] array it is the
    code's result as long as the code is below [2 ^ 63]. *)

Inductive pyerr : Type :=
| Exn (e : exn)
| RuntimeError (msg : string)
| ZeroDivisionError (msg : string).

Fixpoint base_b_loop (fuel : nat) (x b : Z) (digits : list Z)
    : option (pyerr + list Z) :=
  match fuel with
  | O => None
  | S fuel' =>
      if x =? 0 then Some (inr digits)
      else if b =? 0
      then Some (inl (ZeroDivisionError "integer division or modulo by zero"))
      else base_b_loop fuel' (x / b) b (digits ++ [x mod b])
  end.

Definition padded_base_b (fuel : nat) (x b len : Z)
    : option (pyerr + list Z) :=
  if x =? 0 then Some (inr (repeat 0 (Z.to_nat len)))
  else if x <? 0 then Some (inl (RuntimeError "x should not be negative"))
  else
    match base_b_loop fuel x b [] with
    | Some (inr digits) =>
        Some (inr (if zlen digits <? len
                   then digits ++ repeat 0 (Z.to_nat (len - zlen digits))
                   else digits))
    | r => r
    end.

Definition int_to_update_array (fuel : nat) (i base : Z) (nb : string)
    : option (pyerr + list Z) :=
  match utils.nb_sizes nb with
  | None => Some (inl (Exn (KeyError "nb")))
  | Some size => padded_base_b fuel i base (base ^ size)
  end.

Definition update_array_to_int (arr : list Z) (base : Z) : Z :=
  fst (fold_left
         (fun '(total, coefficient) x =>
            (total + coefficient * x, coefficient * base))
         arr (0, 1)).

(** A digit of base [b]. *)
Definition digit (b d : Z) : Prop := 0 <= d < b.

(** ** What a step computes *)

(** The weighted sums [convolve2d] computes for a grid, row by row. *)
Definition conv_data (bd : boundary) (fillvalue : Z) (d : list Z) (H W : Z)
    (k : list Z) (kh kw : Z) : list Z :=
  flat_map (fun i =>
      map (fun j => conv_cell bd fillvalue d H W k kh kw i j) (range W))
    (range H).

(** A grid computed cell by cell, row by row. *)
Definition tabulate (H W : Z) (f : Z -> Z -> Z) : list Z :=
  flat_map (fun i => map (fun j => f i j) (range W)) (range H).

(** Build an automaton, set its state, step once. *)
Definition stepped (make : M automaton) (state : arraylike) : M automaton :=
  let* ca := make in
  let* ca := set_state ca state in
  step ca.

(** [ECA(n, edges, edge_fill)], one [set_state], one [step()], one
    [copy_state()]. *)
Definition eca_run (n : Z) (edges : string) (edge_fill : Z)
    (state : arraylike) : M ndarray :=
  let* ca := ECA.init (PyInt n) edges edge_fill in
  let* ca := set_state ca state in
  let* ca := step ca in
  copy_state ca.

(** Cell [j] of a row as a step sees it: beyond the ends, the cell from
    the other end ("wrap") or the fill value ("fixed"). *)
Definition row_cell (bd : boundary) (fill : Z) (l : list Z) (j : Z) : Z :=
  match bd with
  | BWrap => nth (Z.to_nat (j mod zlen l)) l 0
  | BFill => if (0 <=? j) && (j <? zlen l) then nth (Z.to_nat j) l 0 else fill
  end.

(** Wolfram's rule [n] at a cell [c] with neighbours [l] and [r]. *)
Definition eca_rule (n l c r : Z) : Z :=
  Z.b2z (Z.testbit n (4 * l + 2 * c + r)).

(** The centre of a window of [(2r+1) x (2r+1)] cells, the number of live
    cells around it, and the life-like rule born/survive at the window. *)
Definition centre (r : Z) (window : list Z) : Z :=
  nth (Z.to_nat (r * (2 * r + 1) + r)) window 0.

Definition live_neighbours (r : Z) (window : list Z) : Z :=
  zsum window - centre r window.

Definition life_rule (born survive : list Z) (r : Z) (window : list Z) : Z :=
  let count := live_neighbours r window in
  if centre r window =? 0
  then (if existsb (Z.eqb count) born then 1 else 0)
  else (if existsb (Z.eqb count) survive then 1 else 0).

(** The radius of a neighbourhood pattern of [(2r+1) x (2r+1)] cells. *)
Definition nb_radius (pat : ndval) : Z :=
  match shape pat with
  | kh :: _ => (kh - 1) / 2
  | [] => 0
  end.

(** ** Rule text *)

(** The decimal digit [d] as a character, a run of digits as text, and a
    rule written as born counts, a slash and survive counts, with the
    optional letters before each part and an optional final newline. *)
Definition digit_char (d : Z) : ascii := ascii_of_nat (48 + Z.to_nat d).

Definition digits_text (ds : list Z) : string :=
  string_of_list_ascii (map digit_char ds).

Definition rule_text (p : string) (born : list Z) (q : string)
    (survive : list Z) (newline : bool) : string :=
  String.append p
    (String.append (digits_text born)
       (String "/"
          (String.append q
             (String.append (digits_text survive)
                (if newline then String "010" EmptyString
                 else EmptyString))))).

(** ** render.py: palettes and scaling *)

Module render.

Definition default_palette : list (list Z) :=
  [[0; 0; 0]; [0; 255; 0]; [0; 255; 255]; [0; 0; 255];
   [255; 0; 255]; [255; 0; 0]; [255; 255; 0]; [255; 255; 255]].

(** [l[:k]] for a list: a negative [k] counts from the end. *)
Definition slice_to {A} (l : list A) (k : Z) : list A :=
  firstn (Z.to_nat (if k <? 0 then zlen l + k else k)) l.

Definition get_palette (num_colors : Z) : list (list Z) :=
  if num_colors <? zlen default_palette
  then slice_to default_palette num_colors
  else
    let deficit := num_colors - zlen default_palette in
    default_palette ++ repeat [255; 255; 255] (Z.to_nat deficit).

(** *** [a.repeat(n, axis)]

    Along axis 0 or 1 every entry of that axis, a block of consecutive
    numbers of the row-major data, is written [n] times in a row; the
    result is a new array.  An array without axes counts as one entry
    along axis 0; a missing axis is numpy's [AxisError], a [ValueError]. *)
Definition chunk (size k : nat) (d : list Z) : list Z :=
  firstn size (skipn (k * size) d).

Definition repeat_chunks (n count size : nat) (d : list Z) : list Z :=
  flat_map (fun k => concat (repeat (chunk size k d) n)) (seq 0 count).

Inductive axis : Type := Axis0 | Axis1.

Definition np_repeat (a : ndval) (n : Z) (ax : axis) : exn + ndval :=
  let repeated (count : Z) (block s : list Z) :=
    if n <? 0
    then inl (ValueError "repeats may not contain negative values.")
    else inr (NdVal s
                (repeat_chunks (Z.to_nat n) (Z.to_nat count)
                   (Z.to_nat (zprod block)) (data a))) in
  match ax, shape a with
  | Axis0, [] => repeated 1 [] [n]
  | Axis0, H :: rest => repeated H rest (n * H :: rest)
  | Axis1, H :: W :: rest => repeated (H * W) rest (H :: n * W :: rest)
  | Axis1, _ => inl (ValueError "axis 1 is out of bounds for array")
  end.

Definition scale_image (ar : ndval) (n : Z) : exn + ndval :=
  match np_repeat ar n Axis0 with
  | inl e => inl e
  | inr a => np_repeat a n Axis1
  end.

End render.

(** Entry [(i, j, k)] of row-major data with [W] columns of [c] numbers. *)
Definition at3 (d : list Z) (W c i j k : Z) : Z :=
  nth (Z.to_nat ((i * W + j) * c + k)) d 0.

(** ** What a step sees *)

(** A rule that stands for the born counts [live] and the survive counts
    [survive]: the pair of the two lists, or their digits as rule text. *)
Definition rule_of (live survive : list Z) (rule : LifeLike.rule_spec)
    : Prop :=
  rule = LifeLike.RulePair live survive \/
  exists p q newline,
    In p [""; "b"; "B"]%string /\ In q [""; "s"; "S"]%string /\
    Forall (digit 10) live /\ Forall (digit 10) survive /\
    rule = LifeLike.RuleStr (rule_text p live q survive newline).

(** The cell a step sees at row [i] and column [j] of a grid of [H] rows
    and [W] columns: the cell itself inside the grid; beyond an edge the
    cell of the opposite side ("wrap") or the fill value ("fixed"). *)
Definition seen (bd : boundary) (fill : Z) (d : list Z) (H W i j : Z) : Z :=
  if (0 <=? i) && (i <? H) && (0 <=? j) && (j <? W)
  then nth (Z.to_nat (i * W + j)) d 0
  else
    match bd with
    | BWrap => nth (Z.to_nat ((i mod H) * W + j mod W)) d 0
    | BFill => fill
    end.

(** The [(2r+1) x (2r+1)] cells a step sees around cell [(i, j)], row by
    row. *)
Definition neighbourhood (bd : boundary) (fill : Z) (d : list Z) (H W : Z)
    (r i j : Z) : list Z :=
  tabulate (2 * r + 1) (2 * r + 1)
    (fun a b => seen bd fill d H W (i - r + a) (j - r + b)).

(** The sum of the weights of a [kh x kw] kernel, each times the cell it
    meets at [(i, j)]: weight [(p, q)] meets the cell [(kh - 1) / 2 - p]
    rows down and [(kw - 1) / 2 - q] columns to the right. *)
Definition weighted_sum (bd : boundary) (fill : Z) (d : list Z) (H W : Z)
    (k : list Z) (kh kw i j : Z) : Z :=
  zsum (tabulate kh kw
          (fun p q =>
             nth (Z.to_nat (p * kw + q)) k 0 *
             seen bd fill d H W (i + (kh - 1) / 2 - p)
                  (j + (kw - 1) / 2 - q))).

(** The numbers an [int64] holds. *)
Definition int64 (z : Z) : Prop := - 2 ^ 63 <= z < 2 ^ 63.

(** * Properties *)

(** ** The monad *)

Section Monad.
Context {A B : Type} (m : M A) (k : A -> M B) (h h' : heap).

Lemma bind_ok (a : A) : m h = (inr a, h') -> bind m k h = k a h'.
Proof. unfold bind. by intros ->. Qed.

Lemma bind_err (e : exn) : m h = (inl e, h') -> bind m k h = (inl e, h').
Proof. unfold bind. by intros ->. Qed.

Lemma bind_ret (a : A) : bind (ret a) k h = k a h.
Proof. reflexivity. Qed.

Lemma bind_assoc {C} (k' : B -> M C) :
  bind (bind m k) k' h = bind m (fun a => bind (k a) k') h.
Proof. unfold bind. destruct (m h) as [[e|a] h1]; reflexivity. Qed.
End Monad.

(** ** The store only grows: locations of a store extended at its end *)

Section Store.
Context (h : heap).

Lemma lookup_ext (l : heap) (k : nat) :
  (h ++ l) !! (length h + k)%nat = l !! k.
Proof. by rewrite lookup_app_r, Nat.add_comm, Nat.add_sub by lia. Qed.

Lemma lookup_ext0 (l : heap) : (h ++ l) !! length h = l !! 0%nat.
Proof. pose proof (lookup_ext l 0) as E. by rewrite Nat.add_0_r in E. Qed.

Lemma lookup_old (l : heap) (b : loc) (d : list Z) :
  h !! b = Some d -> (h ++ l) !! b = Some d.
Proof. intros Hb. by apply lookup_app_l_Some. Qed.

Lemma insert_ext (l : heap) (k : nat) (d : list Z) :
  <[(length h + k)%nat := d]> (h ++ l) = h ++ <[k := d]> l.
Proof. apply insert_app_r. Qed.

Lemma insert_ext0 (l : heap) (d : list Z) :
  <[length h := d]> (h ++ l) = h ++ <[0%nat := d]> l.
Proof. pose proof (insert_ext l 0 d) as E. by rewrite Nat.add_0_r in E. Qed.

Lemma contents_ext (l : heap) (a : ndarray) (v : ndval) :
  contents h a = Some v -> contents (h ++ l) a = Some v.
Proof.
  destruct a as [b s r|s]; unfold contents; [|done].
  destruct (h !! b) as [d|] eqn:Hb; [|done].
  intros [= <-]. by rewrite (lookup_old l b d Hb).
Qed.

Lemma contents_new (l : heap) (d : list Z) (s : list Z) :
  contents (h ++ d :: l) (Arr (length h) s false) = Some (NdVal s d).
Proof. unfold contents. by rewrite lookup_ext0. Qed.

Lemma contents_buf (a : ndarray) (v : ndval) :
  contents h a = Some v ->
  exists b r d, a = Arr b (shape v) r /\ h !! b = Some d /\ data v = view r d.
Proof.
  destruct a as [b s r|s]; unfold contents; [|done].
  destruct (h !! b) as [d|] eqn:Hb; [|done].
  intros [= <-]. by exists b, r, d.
Qed.
End Store.

Ltac store_norm :=
  repeat first
    [ rewrite <- app_assoc
    | rewrite length_app
    | rewrite lookup_ext
    | rewrite lookup_ext0
    | rewrite insert_ext
    | rewrite insert_ext0 ];
  cbn [app length lookup list_lookup insert list_insert].

(** ** numpy operations on a store *)

Lemma new_array_run (v : ndval) (h : heap) :
  new_array v h = (inr (Arr (length h) (shape v) false), h ++ [data v]).
Proof. reflexivity. Qed.

Lemma as_value_run (h : heap) (a : ndarray) (v : ndval) :
  contents h a = Some v -> as_value (AArr a) h = (inr (Some v), h).
Proof.
  intros Ha. destruct (contents_buf h a v Ha) as (b & r & d & -> & Hb & Hd).
  destruct v as [s dv]; cbn in *. subst dv.
  unfold load, read_buf, bind, ret. by rewrite Hb.
Qed.

Lemma np_copy_run (h : heap) (a : ndarray) (v : ndval) :
  contents h a = Some v ->
  np_copy (AArr a) h = (inr (Arr (length h) (shape v) false), h ++ [data v]).
Proof.
  intros Ha. unfold np_copy.
  by rewrite (bind_ok _ _ _ _ _ (as_value_run h a v Ha)).
Qed.

(** ** Methods on a store *)

Lemma grid_at_ext (h l : heap) (self : automaton) (g : ndval) :
  grid_at h self = Some g -> grid_at (h ++ l) self = Some g.
Proof.
  unfold grid_at. destruct (cell_array self) as [c|]; [|done].
  cbn. apply contents_ext.
Qed.

Lemma table_at_ext (h l : heap) (self : automaton) (t : ndval) :
  table_at h self = Some t -> table_at (h ++ l) self = Some t.
Proof.
  unfold table_at. destruct (update_array self); try done.
  apply contents_ext.
Qed.

Lemma step_run (h : heap) (self : automaton) (g tv kv g' : ndval) :
  grid_at h self = Some g ->
  table_at h self = Some tv ->
  kernel_at h self = Some kv ->
  next_cells tv kv (convolve_boundary self) (edge_fill self) g = inr g' ->
  step self h =
    (inr (with_cells self (Arr (length h) (shape g') false)), h ++ [data g']).
Proof.
  unfold grid_at, table_at, kernel_at, next_cells, step, ConvCA.step.
  destruct (cell_array self) as [c|]; [|done].
  destruct (update_array self) as [| | | | |t]; try done.
  cbn [mbind option_bind ConvCA.load_opt]. intros Hc Ht Hk Hn.
  rewrite (bind_ok _ _ _ _ _ (as_value_run h c g Hc)).
  rewrite (bind_ok _ _ _ _ _ (as_value_run h _ kv Hk)).
  destruct (convolve2d _ _ _ _) as [e|conv]; [done|].
  unfold lift at 1, bind at 1.
  destruct (contents_buf h t tv Ht) as (b & r & d & -> & Hb & Hd).
  unfold getitem, load, read_buf, bind, ret, lift. rewrite Hb.
  destruct tv as [s dv]. cbn [shape data] in *. subst dv. by rewrite Hn.
Qed.

Lemma copy_state_run (h : heap) (self : automaton) (g v : ndval) :
  grid_at h self = Some g ->
  snapshot_of (cls self) g = Some v ->
  copy_state self h =
    (inr (Arr (length h) (shape v) false), h ++ [data v]).
Proof.
  unfold grid_at, copy_state, snapshot_of.
  destruct (cell_array self) as [c|] eqn:Hcell; [|done].
  cbn [mbind option_bind]. intros Hc Hs.
  assert (cls self <> KECA -> ConvCA.copy_state self h =
    (inr (Arr (length h) (shape v) false), h ++ [data v])) as Hbase.
  { intros Hne. unfold ConvCA.copy_state. rewrite Hcell.
    destruct (cls self); try done; injection Hs as <-;
      by apply np_copy_run. }
  destruct (cls self); try (by apply Hbase).
  unfold ECA.copy_state. rewrite Hcell.
  destruct (contents_buf h c g Hc) as (b & r & d & -> & Hb & Hd).
  destruct g as [s dg]. cbn [shape data] in *. subst dg.
  destruct s as [|n s']; [done|].
  destruct (0 <? n); [|done]. injection Hs as <-.
  unfold load, read_buf, bind, ret. by rewrite Hb.
Qed.

Lemma np_copy_value (h : heap) (x : arraylike) (v : ndval) :
  value_in h x = Some v ->
  np_copy x h = (inr (Arr (length h) (shape v) false), h ++ [data v]).
Proof.
  destruct x as [l|m|a]; cbn [value_in].
  - by intros [= <-].
  - unfold np_copy, as_value. destruct (rectangular m); [|done].
    by intros [= <-].
  - apply np_copy_run.
Qed.

(** ** set_state and copy_state *)

(** C4: [copy_state()] right after [set_state(g)] returns an array with
    the shape and values of [g]; the automaton's grid is a buffer of its
    own, so writing to [g]'s buffer after [set_state], or to the buffer of
    the array [copy_state] returned, leaves the grid as it was. *)
Theorem set_state_copy_state_roundtrip
    (h : heap) (self : automaton) (g : arraylike) (v : ndval) :
  value_in h g = Some v ->
  exists self1 h1 snap h2,
    ConvCA.set_state self g h = (inr self1, h1) /\
    ConvCA.copy_state self1 h1 = (inr snap, h2) /\
    contents h2 snap = Some v /\
    grid_at h2 self1 = Some v /\
    (forall b s r d, g = AArr (Arr b s r) ->
       grid_at (<[b := d]> h1) self1 = Some v) /\
    (forall b s r d, snap = Arr b s r ->
       grid_at (<[b := d]> h2) self1 = Some v).
Proof.
  intros Hg.
  pose (c := Arr (length h) (shape v) false).
  assert (contents (h ++ [data v]) c = Some v) as Hc.
  { subst c. rewrite contents_new. by destruct v. }
  exists (with_cells self c), (h ++ [data v]),
    (Arr (length (h ++ [data v])) (shape v) false),
    ((h ++ [data v]) ++ [data v]).
  split; [|split; [|split; [|split; [|split]]]].
  - unfold ConvCA.set_state.
    by rewrite (bind_ok _ _ _ _ _ (np_copy_value h g v Hg)).
  - unfold ConvCA.copy_state. cbn [cell_array with_cells].
    by apply np_copy_run.
  - rewrite contents_new. by destruct v.
  - unfold grid_at. cbn [cell_array with_cells mbind option_bind].
    by apply contents_ext.
  - intros b s r d ->. cbn [value_in] in Hg.
    destruct (contents_buf h _ v Hg) as (b' & r' & d' & [= -> _ ->] & Hb & _).
    pose proof (lookup_lt_Some _ _ _ Hb) as Hlt.
    unfold grid_at, c, contents.
    cbn [cell_array with_cells mbind option_bind].
    rewrite list_lookup_insert_ne by lia.
    rewrite lookup_ext0. by destruct v.
  - intros b s r d [= <- _ _].
    unfold grid_at, c, contents.
    cbn [cell_array with_cells mbind option_bind].
    rewrite list_lookup_insert_ne by (rewrite length_app; cbn; lia).
    rewrite <- app_assoc, lookup_ext0. by destruct v.
Qed.

Lemma set_state_copy_state_roundtrip_witness :
  exists self1 h1 snap h2,
    ConvCA.set_state
      (Automaton KConvCA PyNone (ArrNone []) "wrap" BWrap 0 None)
      (AArr (Arr 0 [2; 2] false)) [[1; 0; 0; 1]] = (inr self1, h1) /\
    ConvCA.copy_state self1 h1 = (inr snap, h2) /\
    contents h2 snap = Some (NdVal [2; 2] [1; 0; 0; 1]) /\
    grid_at h2 self1 = Some (NdVal [2; 2] [1; 0; 0; 1]) /\
    (forall b s r d, AArr (Arr 0 [2; 2] false) = AArr (Arr b s r) ->
       grid_at (<[b := d]> h1) self1 = Some (NdVal [2; 2] [1; 0; 0; 1])) /\
    (forall b s r d, snap = Arr b s r ->
       grid_at (<[b := d]> h2) self1 = Some (NdVal [2; 2] [1; 0; 0; 1])).
Proof.
  apply (set_state_copy_state_roundtrip [[1; 0; 0; 1]] _
           (AArr (Arr 0 [2; 2] false)) (NdVal [2; 2] [1; 0; 0; 1])).
  reflexivity.
Defined.

(** ** Construction of the base class *)

Lemma convca_init_run (c : klass) (ua : pyval) (k : ndarray)
    (edges : string) (bd : boundary) (fill : Z) (h : heap) :
  edge_boundary edges = Some bd ->
  ConvCA.init c ua k edges fill h =
    (inr (Automaton c ua k edges bd fill None), h).
Proof.
  unfold edge_boundary, ConvCA.init.
  destruct (String.eqb edges "wrap"); [by intros [= <-]|].
  destruct (String.eqb edges "fixed"); [by intros [= <-]|done].
Qed.

Lemma convca_init_err (c : klass) (ua : pyval) (k : ndarray)
    (edges : string) (fill : Z) (h : heap) :
  edge_boundary edges = None ->
  ConvCA.init c ua k edges fill h =
    (inl (ValueError "Invalid edge mode: %s"), h).
Proof.
  unfold edge_boundary, ConvCA.init.
  destruct (String.eqb edges "wrap"); [done|].
  by destruct (String.eqb edges "fixed").
Qed.

(** ** Elementary automata *)

Lemma in_range (n z : Z) : In z (range n) <-> 0 <= z < n.
Proof.
  unfold range. rewrite in_map_iff. split.
  - intros (k & <- & Hk). apply in_seq in Hk. lia.
  - intros Hz. exists (Z.to_nat z). split; [lia|]. apply in_seq. lia.
Qed.

Lemma length_range (n : Z) : length (range n) = Z.to_nat n.
Proof. unfold range. by rewrite length_map, length_seq. Qed.

Lemma eca_digits_wolfram (n : Z) :
  0 <= n <= 255 -> eca_digits n = inr (wolfram n).
Proof.
  intros Hn.
  assert (forallb (fun z =>
            match eca_digits z with
            | inr l => bool_decide (l = wolfram z)
            | inl _ => false
            end) (range 256) = true) as Hall by (vm_compute; reflexivity).
  rewrite forallb_forall in Hall.
  specialize (Hall n). rewrite in_range in Hall.
  specialize (Hall ltac:(lia)).
  destruct (eca_digits n) as [e|l]; [done|].
  by apply bool_decide_eq_true in Hall as ->.
Qed.

Lemma eca_init_unfold (n : Z) (edges : string) (fill : Z) (h : heap) :
  0 <= n <= 255 ->
  ECA.init (PyInt n) edges fill h =
    ConvCA.init KECA (PyArr (Arr (length h + 2) [8] false))
      (Arr (length h + 1) [1; 3] false) edges fill
      (h ++ [wolfram n; [1; 2; 4]; wolfram n]).
Proof.
  intros Hn. unfold ECA.init.
  replace ((n >? 255) || (n <? 0)) with false by lia.
  fold (eca_digits n). rewrite (eca_digits_wolfram n Hn).
  unfold lift at 1, bind at 1.
  unfold np_copy at 1, as_value at 1, ret at 1, bind at 1 2.
  rewrite new_array_run. cbn [shape data].
  unfold np_copy at 1, as_value at 1, ret at 1, bind at 1 2.
  cbn [rectangular forallb shape2 concat app].
  rewrite new_array_run. cbn [shape data].
  erewrite bind_ok; cycle 1.
  { apply np_copy_run. store_norm. apply (contents_new h). }
  cbn [shape data]. by store_norm.
Qed.

Lemma eca_init_run (n : Z) (edges : string) (bd : boundary) (fill : Z)
    (h : heap) :
  0 <= n <= 255 ->
  edge_boundary edges = Some bd ->
  ECA.init (PyInt n) edges fill h =
    (inr (Automaton KECA (PyArr (Arr (length h + 2) [8] false))
            (Arr (length h + 1) [1; 3] false) edges bd fill None),
     h ++ [wolfram n; [1; 2; 4]; wolfram n]).
Proof.
  intros Hn He. rewrite (eca_init_unfold n edges fill h Hn).
  by apply convca_init_run.
Qed.

(** C9: [ECA(n)] fails with the rule-number error (the [TypeError] or
    [ValueError] "Not a valid rule") exactly when [n] is not an [int] or
    lies outside 0..255; for an [int] in 0..255 and an edge mode the base
    class accepts, construction succeeds. *)
Theorem eca_init_rule_number
    (n : pyval) (edges : string) (fill : Z) (h : heap) :
  ((exists e h', ECA.init n edges fill h = (inl e, h') /\
                 invalid_rule_number e)
   <-> ~ (exists z, n = PyInt z /\ 0 <= z <= 255)) /\
  (forall z bd, n = PyInt z -> 0 <= z <= 255 ->
     edge_boundary edges = Some bd ->
     exists ca h', ECA.init n edges fill h = (inr ca, h')).
Proof.
  split; [split|].
  - intros (e & h' & Hrun & He) (z & -> & Hz).
    rewrite (eca_init_unfold z edges fill h Hz) in Hrun.
    destruct (edge_boundary edges) as [bd|] eqn:Hbd.
    + by rewrite (convca_init_run _ _ _ _ _ _ _ Hbd) in Hrun.
    + rewrite (convca_init_err _ _ _ _ _ _ Hbd) in Hrun.
      injection Hrun as <- _. by destruct He.
  - intros Hno.
    destruct n as [|b|z|s|l|a];
      try (eexists _, h; split; [reflexivity|by left]).
    eexists _, h. split; [|by right].
    unfold ECA.init.
    destruct ((z >? 255) || (z <? 0)) eqn:Hz; [done|].
    exfalso. apply Hno. exists z. split; [done|lia].
  - intros z bd -> Hz Hbd. eexists _, _.
    by apply eca_init_run.
Qed.

Lemma eca_init_rule_number_witness :
  exists ca h', ECA.init (PyInt 110) "wrap" 0 [] = (inr ca, h').
Proof.
  apply (proj2 (eca_init_rule_number (PyInt 110) "wrap" 0 []) 110 BWrap);
    [reflexivity|lia|reflexivity].
Defined.

(** *** Table lookup along one axis *)

Lemma mapM_opt_map {A B} (f : A -> option B) (g : A -> B) (l : list A) :
  Forall (fun x => f x = Some (g x)) l -> mapM_opt f l = Some (map g l).
Proof.
  induction 1 as [|x l Hx _ IH]; [done|].
  cbn [mapM_opt map]. by rewrite Hx, IH.
Qed.

Lemma firstn_1_skipn (t : list Z) (k : nat) :
  (k < length t)%nat -> firstn 1 (skipn k t) = [nth k t 0].
Proof.
  revert k. induction t as [|x t IH]; intros k Hk; cbn in Hk; [lia|].
  destruct k as [|k]; [done|]. cbn [skipn nth]. apply IH. lia.
Qed.

Lemma concat_singletons {A} (g : A -> Z) (l : list A) :
  concat (map (fun v => [g v]) l) = map g l.
Proof. induction l as [|x l IH]; [done|]. cbn. by rewrite IH. Qed.

Lemma norm_index_in (n v : Z) : 0 <= v < n -> norm_index n v = Some v.
Proof.
  intros Hv. unfold norm_index.
  by replace ((0 <=? v) && (v <? n)) with true by lia.
Qed.

Lemma take_rows_1d (n : Z) (t : list Z) (idx : ndval) :
  length t = Z.to_nat n ->
  Forall (fun v => 0 <= v < n) (data idx) ->
  take_rows (NdVal [n] t) idx =
    inr (NdVal (shape idx) (map (fun v => nth (Z.to_nat v) t 0) (data idx))).
Proof.
  intros Ht Hidx. unfold take_rows. cbn [shape data].
  change (Z.to_nat (zprod [])) with 1%nat.
  rewrite (mapM_opt_map _ (fun v => [nth (Z.to_nat v) t 0])).
  - by rewrite concat_singletons, app_nil_r.
  - eapply Forall_impl; [exact Hidx|]. intros v Hv. cbn beta in Hv |- *.
    rewrite (norm_index_in n v Hv). cbn [mbind option_bind].
    rewrite Nat.mul_1_r, firstn_1_skipn; [done|lia].
Qed.

(** *** Rules 0 and 255 *)

Lemma nth_bit (l : list Z) (k : nat) : Forall bit l -> bit (nth k l 0).
Proof.
  intros Hl. destruct (nth_in_or_default k l 0) as [Hin| ->]; [|by left].
  rewrite Forall_forall in Hl. apply Hl. by apply list_elem_of_In.
Qed.

Lemma eca_conv_cell (fill : Z) (l : list Z) (W j : Z) :
  conv_cell BWrap fill l 1 W [1; 2; 4] 1 3 0 j =
    1 * at2 l W 0 ((j + 1 - 0) mod W) +
    (2 * at2 l W 0 ((j + 1 - 1) mod W) +
     (4 * at2 l W 0 ((j + 1 - 2) mod W) + 0)).
Proof. reflexivity. Qed.

Lemma eca_conv_cell_bound (fill : Z) (l : list Z) (W j : Z) :
  Forall bit l -> 0 <= conv_cell BWrap fill l 1 W [1; 2; 4] 1 3 0 j < 8.
Proof.
  intros Hl. rewrite eca_conv_cell. unfold at2.
  destruct (nth_bit l (Z.to_nat (0 * W + (j + 1 - 0) mod W)) Hl) as [-> | ->];
  destruct (nth_bit l (Z.to_nat (0 * W + (j + 1 - 1) mod W)) Hl) as [-> | ->];
  destruct (nth_bit l (Z.to_nat (0 * W + (j + 1 - 2) mod W)) Hl) as [-> | ->];
  lia.
Qed.

Lemma map_const {A} (f : A -> Z) (c : Z) (l : list A) :
  (forall x, f x = c) -> map f l = repeat c (length l).
Proof.
  intros Hf. induction l as [|x l IH]; [done|].
  cbn [map length repeat]. by rewrite Hf, IH.
Qed.

Lemma eca_next_cells_const (c fill : Z) (l : list Z) :
  Forall bit l ->
  next_cells (NdVal [8] (repeat c 8)) (NdVal [1; 3] [1; 2; 4]) BWrap fill
             (NdVal [1; zlen l] l) =
    inr (NdVal [1; zlen l] (repeat c (length l))).
Proof.
  intros Hl. unfold next_cells, convolve2d.
  change (range 1) with [0]. cbn [flat_map]. rewrite app_nil_r.
  rewrite take_rows_1d; cbn [shape data].
  - do 2 f_equal. rewrite map_map.
    replace (length l) with (length (range (zlen l)))
      by (rewrite length_range; unfold zlen; lia).
    apply map_const. intros j.
    pose proof (eca_conv_cell_bound fill l (zlen l) j Hl) as Hb.
    set (v := conv_cell _ _ _ _ _ _ _ _ _ _) in *.
    assert (exists k, Z.to_nat v = k /\ (k < 8)%nat) as (k & -> & Hk)
      by (eexists; split; [done|lia]).
    do 8 (destruct k as [|k]; [done|]). lia.
  - done.
  - rewrite Forall_forall. intros v Hv%list_elem_of_In%in_map_iff.
    destruct Hv as (j & <- & _). by apply eca_conv_cell_bound.
Qed.

Lemma value_in_ext (h l : heap) (x : arraylike) (v : ndval) :
  value_in h x = Some v -> value_in (h ++ l) x = Some v.
Proof. destruct x; cbn [value_in]; [done|done|apply contents_ext]. Qed.

Lemma np_copy_wrapped_value (h : heap) (x : arraylike) (v : ndval) :
  value_in h x = Some v ->
  np_copy_wrapped x h =
    (inr (Arr (length h) (1 :: shape v) false), h ++ [data v]).
Proof.
  unfold np_copy_wrapped. destruct x as [l|m|a]; cbn [value_in].
  - by intros [= <-].
  - unfold as_value. destruct (rectangular m); [|done]. by intros [= <-].
  - intros Ha. by rewrite (bind_ok _ _ _ _ _ (as_value_run h a v Ha)).
Qed.

Lemma eca_scenario_const (n c fill : Z) (h : heap) (x : arraylike)
    (state : list Z) :
  0 <= n <= 255 ->
  wolfram n = repeat c 8 ->
  value_in h x = Some (NdVal [zlen state] state) ->
  Forall bit state ->
  exists snap h',
    eca_scenario n fill x h = (inr snap, h') /\
    contents h' snap = Some (NdVal [zlen state] (repeat c (length state))).
Proof.
  intros Hn Hw Hx Hstate. unfold eca_scenario.
  rewrite (bind_ok _ _ _ _ _ (eca_init_run n "wrap" BWrap fill h Hn eq_refl)).
  rewrite Hw. cbn beta.
  set (h0 := h ++ _).
  unfold set_state, ECA.set_state. cbn [cls]. rewrite bind_assoc.
  rewrite (bind_ok _ _ _ _ _
             (np_copy_wrapped_value h0 x _ (value_in_ext h _ x _ Hx))).
  rewrite bind_ret. cbn [shape data].
  set (self := with_cells _ _). set (h1 := h0 ++ _).
  assert (grid_at h1 self = Some (NdVal [1; zlen state] state)) as Hgrid.
  { subst self h1. unfold grid_at.
    cbn [cell_array with_cells mbind option_bind]. apply contents_new. }
  assert (table_at h1 self = Some (NdVal [8] (repeat c 8))) as Htable.
  { subst self h1 h0. unfold table_at, contents.
    cbn [update_array with_cells]. by store_norm. }
  assert (kernel_at h1 self = Some (NdVal [1; 3] [1; 2; 4])) as Hkernel.
  { subst self h1 h0. unfold kernel_at, contents.
    cbn [kernel with_cells]. by store_norm. }
  rewrite (bind_ok _ _ _ _ _
             (step_run h1 self _ _ _ _ Hgrid Htable Hkernel
                (eca_next_cells_const c fill state Hstate))).
  cbn beta. cbn [shape data].
  set (self' := with_cells _ _). set (h2 := h1 ++ _).
  assert (grid_at h2 self' =
            Some (NdVal [1; zlen state] (repeat c (length state)))) as Hgrid'.
  { subst self' h2. unfold grid_at.
    cbn [cell_array with_cells mbind option_bind]. apply contents_new. }
  eexists _, _. split.
  - apply (copy_state_run h2 self' _
             (NdVal [zlen state] (repeat c (length state))) Hgrid').
    unfold snapshot_of. subst self' self. cbn [cls with_cells shape data].
    change (0 <? 1) with true. do 2 f_equal.
    apply firstn_all2. rewrite repeat_length. unfold zprod, zlen.
    cbn [fold_right]. lia.
  - cbn [shape data]. apply contents_new.
Qed.

(** C5: with [edges="wrap"], one [step()] of [ECA(0)] takes every state of
    0/1 cells, one cell at least, to the all-zero state, and one [step()]
    of [ECA(255)] takes it to the all-one state. *)
Theorem eca_rule_0_and_rule_255
    (h : heap) (fill : Z) (x : arraylike) (state : list Z) :
  value_in h x = Some (NdVal [zlen state] state) ->
  state <> [] ->
  Forall bit state ->
  (exists snap h',
     eca_scenario 0 fill x h = (inr snap, h') /\
     contents h' snap = Some (NdVal [zlen state] (repeat 0 (length state))))
  /\
  (exists snap h',
     eca_scenario 255 fill x h = (inr snap, h') /\
     contents h' snap = Some (NdVal [zlen state] (repeat 1 (length state)))).
Proof.
  intros Hx _ Hstate. split.
  - by apply eca_scenario_const.
  - by apply eca_scenario_const.
Qed.

Lemma eca_rule_0_and_rule_255_witness :
  (exists snap h',
     eca_scenario 0 0 (AList1 [0; 1; 1; 0; 1]) [] = (inr snap, h') /\
     contents h' snap = Some (NdVal [5] [0; 0; 0; 0; 0]))
  /\
  (exists snap h',
     eca_scenario 255 0 (AList1 [0; 1; 1; 0; 1]) [] = (inr snap, h') /\
     contents h' snap = Some (NdVal [5] [1; 1; 1; 1; 1])).
Proof.
  apply (eca_rule_0_and_rule_255 [] 0 (AList1 [0; 1; 1; 0; 1])
           [0; 1; 1; 0; 1]).
  - reflexivity.
  - discriminate.
  - repeat constructor; (by left) || (by right).
Defined.

(** ** The generator *)

Section Generator.
Context (tv kv : ndval) (c : klass) (bd : boundary) (fill : Z).

Lemma ready_ext (h l : heap) (self : automaton) :
  ready tv kv c bd fill h self -> ready tv kv c bd fill (h ++ l) self.
Proof.
  intros (Ht & Hk & Hc). split; [|split]; [| |done].
  - by apply (table_at_ext h l self tv).
  - by apply (contents_ext h l (kernel self) kv).
Qed.

Lemma ready_with_cells (h : heap) (self : automaton) (a : ndarray) :
  ready tv kv c bd fill h self ->
  ready tv kv c bd fill h (with_cells self a).
Proof. done. Qed.

Lemma fresh_later (h l : heap) (a : ndarray) :
  fresh_in (h ++ l) a -> fresh_in h a.
Proof.
  destruct a as [b s r|s]; cbn [fresh_in]; [|done].
  rewrite !lookup_ge_None, length_app. lia.
Qed.

Lemma drain_later (k : nat) :
  forall (h : heap) (self : automaton) (g : ndval) (count : Z)
         (vals : list ndval),
    ready tv kv c bd fill h self ->
    grid_at h self = Some g ->
    1 <= count ->
    later (next_cells tv kv bd fill) c k g = Some vals ->
    exists snaps self' l,
      drain (S k) self (Generator (count + Z.of_nat k) count) h =
        (inr (Some snaps, self'), h ++ l) /\
      map (contents (h ++ l)) snaps = map Some vals /\
      Forall (fresh_in h) snaps.
Proof.
  induction k as [|k IH]; intros h self g count vals Hr Hg Hcount Hvals.
  - injection Hvals as <-. exists [], self, [].
    rewrite app_nil_r. split; [|done].
    cbn [drain]. unfold next. cbn [gen_n gen_count].
    rewrite Nat2Z.inj_0.
    replace ((count <? count + 0) || (count + 0 <? 0)) with false by lia.
    reflexivity.
  - cbn [later] in Hvals.
    destruct (next_cells tv kv bd fill g) as [e|g'] eqn:Hnext; [done|].
    destruct (snapshot_of c g') as [s|] eqn:Hs; [|done].
    destruct (later _ c k g') as [rest|] eqn:Hrest; [|done].
    cbn [mbind option_bind] in Hvals. injection Hvals as <-.
    destruct Hr as (Ht & Hk & Hc & Hbd & Hfill).
    pose proof (step_run h self g tv kv g' Hg Ht Hk) as Hstep.
    rewrite Hbd, Hfill in Hstep. specialize (Hstep Hnext).
    set (self1 := with_cells self (Arr (length h) (shape g') false)) in *.
    set (h1 := h ++ [data g']) in *.
    assert (grid_at h1 self1 = Some g') as Hg1.
    { unfold grid_at, self1, h1.
      cbn [cell_array with_cells mbind option_bind].
      rewrite contents_new. by destruct g'. }
    assert (cls self1 = c) as Hc1 by done.
    pose proof (copy_state_run h1 self1 g' s Hg1) as Hcopy.
    rewrite Hc1 in Hcopy. specialize (Hcopy Hs).
    set (h2 := h1 ++ [data s]) in *.
    assert (ready tv kv c bd fill h2 self1) as Hr2.
    { unfold h2, h1. rewrite <- app_assoc.
      by apply ready_ext, ready_with_cells. }
    assert (grid_at h2 self1 = Some g') as Hg2
      by (by apply grid_at_ext).
    destruct (IH h2 self1 g' (count + 1) rest Hr2 Hg2 ltac:(lia) Hrest)
      as (snaps & self' & l & Hdrain & Hmap & Hfresh).
    replace (count + 1 + Z.of_nat k) with (count + Z.of_nat (S k))
      in Hdrain by (rewrite Nat2Z.inj_succ; lia).
    exists (Arr (length h1) (shape s) false :: snaps), self',
      ([data g'; data s] ++ l).
    replace (h ++ [data g'; data s] ++ l) with (h2 ++ l)
      by (unfold h2, h1; by rewrite <- !app_assoc).
    split; [|split].
    + change (drain (S (S k))) with
        (fun self0 g0 =>
           let* '(y, g1, self2) := next self0 g0 in
           match y with
           | None => ret (Some [], self2)
           | Some snap =>
               let* '(rest, self3) := drain (S k) self2 g1 in
               ret (option_map (cons snap) rest, self3)
           end).
      cbn beta. unfold next at 1. cbn [gen_n gen_count].
      pose proof (Nat2Z.is_nonneg (S k)) as Hk0.
      pose proof (Nat2Z.inj_succ k) as Hk1.
      set (m := Z.of_nat (S k)) in *.
      replace ((count <? count + m) || (count + m <? 0)) with true by lia.
      replace (count >? 0) with true by lia.
      replace (count + m >=? 0) with true by lia.
      rewrite bind_assoc, (bind_ok _ _ _ _ _ Hstep).
      rewrite bind_assoc, (bind_ok _ _ _ _ _ Hcopy).
      rewrite bind_ret. cbn beta iota.
      by rewrite (bind_ok _ _ _ _ _ Hdrain).
    + cbn [map]. rewrite Hmap. f_equal.
      apply contents_ext. unfold h2.
      rewrite contents_new. by destruct s.
    + constructor.
      * cbn [fresh_in]. apply lookup_ge_None.
        unfold h1. rewrite length_app. lia.
      * eapply Forall_impl; [exact Hfresh|].
        intros a Ha. apply (fresh_later h ([data g'] ++ [data s])).
        unfold h2, h1 in Ha. by rewrite <- app_assoc in Ha.
Qed.

Lemma drain_generations (n : nat) (h : heap) (self : automaton)
    (g : ndval) (vals : list ndval) :
  ready tv kv c bd fill h self ->
  grid_at h self = Some g ->
  generations (next_cells tv kv bd fill) c n g = Some vals ->
  exists snaps self' l,
    drain (S n) self (n_generations (Z.of_nat n)) h =
      (inr (Some snaps, self'), h ++ l) /\
    map (contents (h ++ l)) snaps = map Some vals /\
    Forall (fresh_in h) snaps.
Proof.
  intros Hr Hg Hvals. destruct n as [|k].
  - injection Hvals as <-. exists [], self, [].
    rewrite app_nil_r. by split.
  - cbn [generations] in Hvals.
    destruct (snapshot_of c g) as [s|] eqn:Hs; [|done].
    destruct (later _ c k g) as [rest|] eqn:Hrest; [|done].
    cbn [mbind option_bind] in Hvals. injection Hvals as <-.
    pose proof (copy_state_run h self g s Hg) as Hcopy.
    destruct Hr as (Ht & Hk & Hc & Hbd & Hfill).
    rewrite Hc in Hcopy. specialize (Hcopy Hs).
    set (h1 := h ++ [data s]) in *.
    assert (ready tv kv c bd fill h1 self) as Hr1 by (by apply ready_ext).
    assert (grid_at h1 self = Some g) as Hg1 by (by apply grid_at_ext).
    destruct (drain_later k h1 self g 1 rest Hr1 Hg1 ltac:(lia) Hrest)
      as (snaps & self' & l & Hdrain & Hmap & Hfresh).
    exists (Arr (length h) (shape s) false :: snaps), self',
      ([data s] ++ l).
    replace (h ++ [data s] ++ l) with (h1 ++ l)
      by (unfold h1; by rewrite <- app_assoc).
    split; [|split].
    + change (drain (S (S k))) with
        (fun self0 g0 =>
           let* '(y, g1, self2) := next self0 g0 in
           match y with
           | None => ret (Some [], self2)
           | Some snap =>
               let* '(rest, self3) := drain (S k) self2 g1 in
               ret (option_map (cons snap) rest, self3)
           end).
      cbn beta. unfold n_generations, next at 1. cbn [gen_n gen_count].
      pose proof (Nat2Z.is_nonneg (S k)) as Hk0.
      pose proof (Nat2Z.inj_succ k) as Hk1.
      set (m := Z.of_nat (S k)) in *.
      replace ((0 <? m) || (m <? 0)) with true by lia.
      change (0 >? 0) with false.
      replace (m >=? 0) with true by lia.
      rewrite bind_assoc, bind_ret.
      rewrite bind_assoc, (bind_ok _ _ _ _ _ Hcopy).
      rewrite bind_ret. cbn beta iota.
      replace m with (1 + Z.of_nat k) by lia.
      by rewrite (bind_ok _ _ _ _ _ Hdrain).
    + cbn [map]. rewrite Hmap. f_equal.
      apply contents_ext. unfold h1.
      rewrite contents_new. by destruct s.
    + constructor.
      * cbn [fresh_in]. by apply lookup_ge_None.
      * eapply Forall_impl; [exact Hfresh|].
        intros a Ha. by apply (fresh_later h [data s]).
Qed.

Lemma later_after_steps (k : nat) :
  forall (g : ndval) (vals : list ndval),
    later (next_cells tv kv bd fill) c k g = Some vals ->
    length vals = k /\
    forall i, (i < k)%nat ->
      exists gi, after_steps (next_cells tv kv bd fill) (S i) g = Some gi /\
                 vals !! i = snapshot_of c gi.
Proof.
  induction k as [|k IH]; intros g vals Hvals.
  - injection Hvals as <-. split; [done|]. lia.
  - cbn [later] in Hvals. cbn [after_steps].
    destruct (next_cells tv kv bd fill g) as [e|g'] eqn:Hnext; [done|].
    destruct (snapshot_of c g') as [s|] eqn:Hs; [|done].
    destruct (later _ c k g') as [rest|] eqn:Hrest; [|done].
    cbn [mbind option_bind] in Hvals. injection Hvals as <-.
    destruct (IH g' rest Hrest) as (Hlen & Hnth).
    split; [cbn; by rewrite Hlen|].
    intros [|i] Hi.
    + exists g'. by rewrite Hs.
    + destruct (Hnth i ltac:(lia)) as (gi & Hgi & Hi').
      exists gi. by split.
Qed.

Lemma generations_after_steps (n : nat) (g : ndval) (vals : list ndval) :
  generations (next_cells tv kv bd fill) c n g = Some vals ->
  length vals = n /\
  forall i, (i < n)%nat ->
    exists gi, after_steps (next_cells tv kv bd fill) i g = Some gi /\
               vals !! i = snapshot_of c gi.
Proof.
  destruct n as [|k]; cbn [generations].
  - intros [= <-]. split; [done|]. lia.
  - destruct (snapshot_of c g) as [s|] eqn:Hs; [|done].
    destruct (later _ c k g) as [rest|] eqn:Hrest; [|done].
    cbn [mbind option_bind]. intros [= <-].
    destruct (later_after_steps k g rest Hrest) as (Hlen & Hnth).
    split; [cbn; by rewrite Hlen|].
    intros [|i] Hi.
    + exists g. by rewrite Hs.
    + apply Hnth. lia.
Qed.

(** With a negative [n] the counter stays at 0, so the generator never
    stops, and never steps either. *)
Lemma take_gen_negative (n : Z) (k : nat) :
  forall (h : heap) (self : automaton) (g s : ndval),
    n < 0 ->
    cls self = c ->
    grid_at h self = Some g ->
    snapshot_of c g = Some s ->
    exists snaps l,
      take_gen k self (n_generations n) h =
        (inr (snaps, n_generations n, self), h ++ l) /\
      length snaps = k /\
      Forall (fun a => contents (h ++ l) a = Some s) snaps.
Proof.
  induction k as [|k IH]; intros h self g s Hn Hc Hg Hs.
  - exists [], []. by rewrite app_nil_r.
  - pose proof (copy_state_run h self g s Hg) as Hcopy.
    rewrite Hc in Hcopy. specialize (Hcopy Hs).
    set (h1 := h ++ [data s]) in *.
    destruct (IH h1 self g s Hn Hc (grid_at_ext h _ self g Hg) Hs)
      as (snaps & l & Htake & Hlen & Hall).
    exists (Arr (length h) (shape s) false :: snaps), ([data s] ++ l).
    replace (h ++ [data s] ++ l) with (h1 ++ l)
      by (unfold h1; by rewrite <- app_assoc).
    split; [|split].
    + cbn [take_gen]. unfold n_generations at 1, next at 1.
      cbn [gen_n gen_count].
      replace ((0 <? n) || (n <? 0)) with true by lia.
      change (0 >? 0) with false.
      replace (n >=? 0) with false by lia.
      rewrite bind_assoc, bind_ret.
      rewrite bind_assoc, (bind_ok _ _ _ _ _ Hcopy).
      rewrite bind_ret. cbn beta iota.
      fold (n_generations n).
      by rewrite (bind_ok _ _ _ _ _ Htake).
    + cbn. by rewrite Hlen.
    + constructor; [|done].
      apply contents_ext. unfold h1.
      rewrite contents_new. by destruct s.
Qed.
End Generator.

(** C1, as the code has it: for every [n >= 0], [n_generations(n)] yields
    exactly [n] snapshots when no step raises; each is a new array; the
    snapshot at position [i] shows the grid after exactly [i] steps, so
    the first shows the grid at call time with no step before it; for
    every [n < 0] it yields snapshots for as long as it is asked. *)
Theorem n_generations_yields_n
    (h : heap) (self : automaton) (tv kv g : ndval) :
  table_at h self = Some tv ->
  kernel_at h self = Some kv ->
  grid_at h self = Some g ->
  (forall (n : nat) (vals : list ndval),
     generations
       (next_cells tv kv (convolve_boundary self) (edge_fill self))
       (cls self) n g = Some vals ->
     exists snaps self' h',
       drain (S n) self (n_generations (Z.of_nat n)) h =
         (inr (Some snaps, self'), h') /\
       length snaps = n /\
       Forall (fresh_in h) snaps /\
       forall i, (i < n)%nat ->
         exists a gi,
           snaps !! i = Some a /\
           after_steps
             (next_cells tv kv (convolve_boundary self) (edge_fill self))
             i g = Some gi /\
           contents h' a = snapshot_of (cls self) gi)
  /\
  (forall (n : Z) (k : nat) (s : ndval),
     n < 0 ->
     snapshot_of (cls self) g = Some s ->
     exists snaps gen' self' h',
       take_gen k self (n_generations n) h =
         (inr (snaps, gen', self'), h') /\
       length snaps = k).
Proof.
  intros Ht Hk Hg. split.
  - intros n vals Hvals.
    assert (ready tv kv (cls self) (convolve_boundary self) (edge_fill self)
              h self) as Hr by done.
    destruct (drain_generations tv kv _ _ _ n h self g vals Hr Hg Hvals)
      as (snaps & self' & l & Hdrain & Hmap & Hfresh).
    destruct (generations_after_steps tv kv _ _ _ n g vals Hvals)
      as (Hlen & Hnth).
    assert (length snaps = n) as Hlen'.
    { rewrite <- Hlen, <- (length_map (contents (h ++ l)) snaps), Hmap.
      by rewrite length_map. }
    exists snaps, self', (h ++ l). repeat split; try done.
    intros i Hi. destruct (Hnth i Hi) as (gi & Hgi & Hvi).
    destruct (lookup_lt_is_Some_2 snaps i ltac:(lia)) as [a Ha].
    exists a, gi. repeat split; try done.
    rewrite <- Hvi.
    assert (map (contents (h ++ l)) snaps !! i = map Some vals !! i) as E
      by (by rewrite Hmap).
    rewrite !list_lookup_fmap, Ha in E. cbn in E.
    destruct (vals !! i) as [v|] eqn:Hv; cbn in E; [by injection E|done].
  - intros n k s Hn Hs.
    destruct (take_gen_negative (cls self) n k h self g s Hn eq_refl Hg Hs)
      as (snaps & l & Htake & Hlen & _).
    by exists snaps, (n_generations n), self, (h ++ l).
Qed.

Lemma n_generations_yields_n_witness :
  exists snaps self' h',
    drain 4 rule110_self (n_generations 3) rule110_store =
      (inr (Some snaps, self'), h') /\
    length snaps = 3%nat /\
    Forall (fresh_in rule110_store) snaps /\
    forall i, (i < 3)%nat ->
      exists a gi,
        snaps !! i = Some a /\
        after_steps
          (next_cells (NdVal [8] (wolfram 110)) (NdVal [1; 3] [1; 2; 4])
             BWrap 0)
          i (NdVal [1; 3] [0; 0; 1]) = Some gi /\
        contents h' a = snapshot_of KECA gi.
Proof.
  apply (proj1 (n_generations_yields_n rule110_store rule110_self
                  (NdVal [8] (wolfram 110)) (NdVal [1; 3] [1; 2; 4])
                  (NdVal [1; 3] [0; 0; 1]) eq_refl eq_refl eq_refl)
           3%nat
           [NdVal [3] [0; 0; 1]; NdVal [3] [0; 1; 1]; NdVal [3] [1; 1; 1]]).
  vm_compute. reflexivity.
Defined.

(** C1 as stated fails: [n_generations(2)] on rule 110 yields two
    snapshots and stops, not three. *)
Lemma n_generations_2_yields_2 :
  exists snaps self' h',
    (let* ca := rule110 in drain 3 ca (n_generations 2)) [] =
      (inr (Some snaps, self'), h') /\
    length snaps = 2%nat /\ length snaps <> (2 + 1)%nat.
Proof. eexists _, _, _. split; [vm_compute; reflexivity|]. by cbn. Qed.

(** [rule110] does end in [rule110_self] and [rule110_store]. *)
Lemma rule110_run : rule110 [] = (inr rule110_self, rule110_store).
Proof. vm_compute. reflexivity. Qed.

(** ** Life-like automata *)

Lemma parse_split (rule : LifeLike.rule_spec) (r : Z)
    (weights : option arraylike) :
  LifeLike.parse rule r weights =
    (let* no_weights := LifeLike.py_not weights in
     let* kernel := parse_kernel_part r weights no_weights in
     parse_rest rule r kernel).
Proof. reflexivity. Qed.

Lemma setitem2_run (h : heap) (b : loc) (H W : Z) (rv : bool)
    (r i j x : Z) (d : list Z) :
  h !! b = Some d ->
  norm_index H r = Some i ->
  norm_index W r = Some j ->
  setitem2 (Arr b [H; W] rv) r r x h =
    (inr tt, <[b := <[buf_pos rv d (i * W + j) := x]> d]> h).
Proof.
  intros Hb Hi Hj. unfold setitem2, read_buf, write_buf, bind, buf_pos.
  rewrite Hi, Hj, Hb. cbn iota beta. by rewrite Hb.
Qed.

Lemma setitem2_err (h : heap) (b : loc) (H W : Z) (rv : bool) (r x : Z) :
  norm_index H r = None \/ norm_index W r = None ->
  setitem2 (Arr b [H; W] rv) r r x h =
    (inl (IndexError "index is out of bounds"), h).
Proof.
  unfold setitem2. intros [Hi|Hj].
  - by rewrite Hi.
  - rewrite Hj. by destruct (norm_index H r).
Qed.

Lemma np_sum_run (h : heap) (b : loc) (s : list Z) (rv : bool) (d : list Z) :
  h !! b = Some d -> np_sum (Arr b s rv) h = (inr (zsum (view rv d)), h).
Proof. intros Hb. unfold np_sum, load, read_buf, bind, ret. by rewrite Hb. Qed.

Lemma parse_rest_run (rule : LifeLike.rule_spec) (r : Z) (h : heap)
    (b : loc) (H W : Z) (rv : bool) (d : list Z) (i j : Z)
    (live survive : list Z) :
  h !! b = Some d ->
  norm_index H r = Some i ->
  norm_index W r = Some j ->
  LifeLike.counts rule = inr (live, survive) ->
  let ws := zsum (view rv d) in
  let table := life_table ws live survive in
  parse_rest rule r (Arr b [H; W] rv) h =
    (inr (Arr (length h) [zlen table] false, Arr b [H; W] rv),
     <[b := <[buf_pos rv d (i * W + j) := ws + 1]> d]> h ++ [table]).
Proof.
  intros Hb Hi Hj Hc ws table. unfold parse_rest.
  rewrite (bind_ok _ _ _ _ _ (np_sum_run h b _ rv d Hb)).
  rewrite (bind_ok _ _ _ _ _ (setitem2_run h b H W rv r i j _ d Hb Hi Hj)).
  rewrite Hc. unfold lift at 1, bind at 1.
  rewrite (bind_ok _ _ _ _ _
             (np_copy_value _ (AList1 (life_table ws live survive)) _ eq_refl)).
  unfold ret. cbn [shape data]. by rewrite length_insert.
Qed.

Lemma zsum_repeat (c : Z) (n : nat) : zsum (repeat c n) = c * Z.of_nat n.
Proof.
  induction n as [|n IH]; cbn [repeat zsum fold_right].
  - change (Z.of_nat 0) with 0. lia.
  - fold (zsum (repeat c n)). rewrite Nat2Z.inj_succ, Z.mul_succ_r, IH. lia.
Qed.

Lemma zsum_insert (l : list Z) (k : nat) (x : Z) :
  (k < length l)%nat -> zsum (<[k := x]> l) = zsum l - nth k l 0 + x.
Proof.
  revert k. induction l as [|y l IH]; intros k Hk; cbn in Hk; [lia|].
  destruct k as [|k]; cbn [insert list_insert zsum fold_right nth].
  - fold (zsum l). lia.
  - fold (zsum l) (zsum (<[k := x]> l)). rewrite IH by lia. lia.
Qed.

Lemma nth_repeat_in (c : Z) (n k : nat) : (k < n)%nat -> nth k (repeat c n) 0 = c.
Proof.
  revert k. induction n as [|n IH]; intros k Hk; [lia|].
  destruct k as [|k]; [done|]. cbn. apply IH. lia.
Qed.

Lemma nth_insert_eq (l : list Z) (k : nat) (x : Z) :
  (k < length l)%nat -> nth k (<[k := x]> l) 0 = x.
Proof. intros Hk. apply nth_lookup_Some. by apply list_lookup_insert_eq. Qed.

Lemma nth_insert_ne (l : list Z) (k k' : nat) (x : Z) :
  k <> k' -> nth k' (<[k := x]> l) 0 = nth k' l 0.
Proof. intros Hk. by rewrite !nth_lookup, list_lookup_insert_ne. Qed.

Lemma nth_map_range (f : Z -> Z) (n v : Z) :
  0 <= v < n -> nth (Z.to_nat v) (map f (range n)) 0 = f v.
Proof.
  intros Hv. apply nth_lookup_Some. unfold range.
  rewrite !list_lookup_fmap, lookup_seq_lt by lia.
  cbn. by rewrite Z2Nat.id by lia.
Qed.

Lemma centre_lt (r : Z) :
  0 <= r -> r * (2 * r + 1) + r < (2 * r + 1) * (2 * r + 1).
Proof. nia. Qed.

Lemma kernel_part_no_weights (r : Z) (nw : bool) (h : heap) :
  0 <= r ->
  parse_kernel_part r None nw h =
    (inr (Arr (length h) [2 * r + 1; 2 * r + 1] false),
     h ++ [<[Z.to_nat (r * (2 * r + 1) + r) := 0]>
             (repeat 1 (Z.to_nat ((2 * r + 1) * (2 * r + 1))))]).
Proof.
  intros Hr.
  assert (parse_kernel_part r None nw =
          parse_kernel_part r None true) as -> by (by destruct nw).
  unfold parse_kernel_part. cbn zeta.
  set (size := 2 * r + 1).
  unfold LifeLike.np_ones.
  replace (size * size <? 0) with false by nia.
  rewrite (bind_ok _ _ _ _ _ (new_array_run _ h)). cbn [shape data].
  unfold LifeLike.reshape2, zprod. cbn [fold_right].
  replace ((size <? 0) || negb (size * size * 1 =? size * size))
    with false by lia.
  rewrite bind_ret.
  erewrite bind_ok; cycle 1.
  { apply (setitem2_run _ _ size size false r r r 0
             (repeat 1 (Z.to_nat (size * size)))).
    - by rewrite lookup_ext0.
    - apply norm_index_in. lia.
    - apply norm_index_in. lia. }
  unfold ret, buf_pos. by store_norm.
Qed.

Lemma parse_no_weights_run (rule : LifeLike.rule_spec) (r : Z) (h : heap)
    (live survive : list Z) :
  0 <= r ->
  LifeLike.counts rule = inr (live, survive) ->
  let size := 2 * r + 1 in
  let table := life_table (size * size - 1) live survive in
  LifeLike.parse rule r None h =
    (inr (Arr (length h + 1) [zlen table] false,
          Arr (length h) [size; size] false),
     h ++ [life_kernel r; table]).
Proof.
  intros Hr Hc size table. rewrite parse_split.
  unfold LifeLike.py_not at 1. rewrite bind_ret.
  rewrite (bind_ok _ _ _ _ _ (kernel_part_no_weights r true h Hr)).
  fold size.
  set (k := Z.to_nat (r * size + r)).
  set (ones := repeat 1 (Z.to_nat (size * size))).
  pose proof (centre_lt r Hr) as Hlt. fold size in Hlt.
  assert (k < length ones)%nat as Hk
    by (unfold ones, k; rewrite repeat_length; lia).
  assert (zsum (view false (<[k := 0]> ones)) = size * size - 1) as Hsum.
  { cbn [view]. rewrite zsum_insert by done.
    unfold ones at 2. rewrite nth_repeat_in by (unfold ones in Hk; by rewrite repeat_length in Hk).
    unfold ones. rewrite zsum_repeat. nia. }
  erewrite (parse_rest_run rule r _ (length h) size size false
              (<[k := 0]> ones) r r live survive); cycle 1.
  - by rewrite lookup_ext0.
  - apply norm_index_in. lia.
  - apply norm_index_in. lia.
  - exact Hc.
  - cbn zeta. rewrite Hsum. fold table. unfold buf_pos. fold k.
    rewrite list_insert_insert_eq. store_norm.
    unfold life_kernel. fold size k ones.
    by replace (size * size - 1 + 1) with (size * size) by lia.
Qed.

Lemma existsb_eqb_In (v : Z) (l : list Z) :
  existsb (Z.eqb v) l = true <-> In v l.
Proof.
  rewrite existsb_exists. split.
  - intros (x & Hx & ->%Z.eqb_eq). done.
  - intros Hv. exists v. split; [done|apply Z.eqb_refl].
Qed.


(** C6: Conway's Game of Life ("B3/S23", radius 1, edges "wrap") on the
    3 x 3 grid whose only live cell is the centre is all dead after one
    [step()], in whatever store the program starts. *)
Theorem life_lonely_cell_dies (h : heap) :
  exists snap h',
    life_scenario h = (inr snap, h') /\
    contents h' snap = Some (NdVal [3; 3] (repeat 0 9%nat)).
Proof.
  unfold life_scenario, LifeLike.init. rewrite bind_assoc.
  rewrite (bind_ok _ _ _ _ _
             (parse_no_weights_run (LifeLike.RuleStr "B3/S23") 1 h
                [3] [2; 3] ltac:(lia) eq_refl)).
  cbn beta iota zeta.
  set (kern := life_kernel 1).
  set (table := life_table _ _ _).
  rewrite (bind_ok _ _ _ _ _
             (convca_init_run KLifeLike _ _ "wrap" BWrap 0 _ eq_refl)).
  cbn beta.
  set (h0 := h ++ _).
  unfold set_state, ConvCA.set_state. cbn [cls]. rewrite bind_assoc.
  rewrite (bind_ok _ _ _ _ _
             (np_copy_value h0 (AList2 lonely) _ eq_refl)).
  rewrite bind_ret. cbn [shape data].
  set (self := with_cells _ _). set (h1 := h0 ++ _).
  assert (grid_at h1 self = Some (NdVal [3; 3] (concat lonely))) as Hgrid.
  { subst self h1. unfold grid_at.
    cbn [cell_array with_cells mbind option_bind]. apply contents_new. }
  assert (table_at h1 self = Some (NdVal [18] table)) as Htable.
  { subst self h1 h0. unfold table_at, contents.
    cbn [update_array with_cells]. by store_norm. }
  assert (kernel_at h1 self = Some (NdVal [3; 3] kern)) as Hkernel.
  { subst self h1 h0. unfold kernel_at, contents.
    cbn [kernel with_cells]. by store_norm. }
  assert (next_cells (NdVal [18] table) (NdVal [3; 3] kern) BWrap 0
            (NdVal [3; 3] (concat lonely)) =
          inr (NdVal [3; 3] (repeat 0 9%nat))) as Hnext
    by (vm_compute; reflexivity).
  rewrite (bind_ok _ _ _ _ _
             (step_run h1 self _ _ _ _ Hgrid Htable Hkernel Hnext)).
  cbn beta. cbn [shape data].
  set (self' := with_cells _ _). set (h2 := h1 ++ _).
  assert (grid_at h2 self' = Some (NdVal [3; 3] (repeat 0 9%nat))) as Hgrid'.
  { subst self' h2. unfold grid_at.
    cbn [cell_array with_cells mbind option_bind]. apply contents_new. }
  eexists _, _. split.
  - by apply (copy_state_run h2 self' _ (NdVal [3; 3] (repeat 0 9%nat))
                Hgrid').
  - cbn [shape data]. apply contents_new.
Qed.

(** *** Custom weights *)

Lemma kernel_part_nested_list (r : Z) (h : heap) (row : list Z)
    (rows : list (list Z)) (i j : Z) :
  rectangular (row :: rows) = true ->
  norm_index (zlen (row :: rows)) r = Some i ->
  norm_index (zlen row) r = Some j ->
  let d := concat (row :: rows) in
  parse_kernel_part r (Some (AList2 (row :: rows))) false h =
    (inr (Arr (length h) [zlen (row :: rows); zlen row] true),
     h ++ [<[buf_pos true d (i * zlen row + j) := 0]> d]).
Proof.
  intros Hrect Hi Hj d. unfold parse_kernel_part, np_flip, as_value.
  rewrite Hrect. rewrite bind_assoc, bind_ret. cbn [shape data shape2].
  unfold alloc at 1, bind at 1 2. unfold ret at 1.
  erewrite bind_ok; cycle 1.
  { apply (setitem2_run _ _ _ _ true r i j 0 d); [|done|done].
    by rewrite lookup_ext0. }
  unfold ret. by store_norm.
Qed.

Lemma init_nested_list (rule : LifeLike.rule_spec) (edges : string)
    (fill r : Z) (row : list Z) (rows : list (list Z)) (h : heap) :
  LifeLike.init rule edges fill r (Some (AList2 (row :: rows))) h =
    (let* kernel :=
       parse_kernel_part r (Some (AList2 (row :: rows))) false in
     let* '(update_array, kernel) := parse_rest rule r kernel in
     ConvCA.init KLifeLike (PyArr update_array) kernel edges fill) h.
Proof.
  unfold LifeLike.init. rewrite parse_split.
  rewrite bind_assoc. unfold LifeLike.py_not. cbn [length Nat.eqb].
  by rewrite bind_ret, bind_assoc.
Qed.

Lemma init_nested_list_run (rule : LifeLike.rule_spec) (edges : string)
    (bd : boundary) (fill r : Z) (row : list Z) (rows : list (list Z))
    (h : heap) (live survive : list Z) (i j : Z) :
  rectangular (row :: rows) = true ->
  LifeLike.counts rule = inr (live, survive) ->
  edge_boundary edges = Some bd ->
  norm_index (zlen (row :: rows)) r = Some i ->
  norm_index (zlen row) r = Some j ->
  let d := concat (row :: rows) in
  let pos := buf_pos true d (i * zlen row + j) in
  let ws := zsum (rev (<[pos := 0]> d)) in
  let table := life_table ws live survive in
  LifeLike.init rule edges fill r (Some (AList2 (row :: rows))) h =
    (inr (Automaton KLifeLike (PyArr (Arr (length h + 1) [zlen table] false))
            (Arr (length h) [zlen (row :: rows); zlen row] true)
            edges bd fill None),
     h ++ [<[pos := ws + 1]> d; table]).
Proof.
  intros Hrect Hc He Hi Hj d pos ws table.
  rewrite init_nested_list.
  rewrite (bind_ok _ _ _ _ _
             (kernel_part_nested_list r h row rows i j Hrect Hi Hj)).
  cbn zeta. fold d pos.
  assert ((h ++ [<[pos := 0]> d]) !! length h = Some (<[pos := 0]> d))
    as Hb by (by rewrite lookup_ext0).
  rewrite (bind_ok _ _ _ _ _
             (parse_rest_run rule r _ (length h) _ _ true _ i j
                live survive Hb Hi Hj Hc)).
  cbn beta iota zeta. cbn [view]. fold ws table.
  rewrite (convca_init_run _ _ _ _ _ _ _ He).
  assert (buf_pos true (<[pos := 0]> d) (i * zlen row + j) = pos) as ->
    by (unfold pos, buf_pos; by rewrite length_insert).
  rewrite list_insert_insert_eq. by store_norm.
Qed.

(** C7, as the code has it: [LifeLike] does not check the shape of custom
    weights.  For weights given as a rectangular nested list of any
    height and width, a rule that parses and an edge mode the base class
    accepts, construction succeeds when [r, r] indexes the matrix, and
    raises [IndexError] when it does not. *)
Theorem lifelike_weights_shape_unchecked
    (rule : LifeLike.rule_spec) (edges : string) (bd : boundary)
    (fill r : Z) (row : list Z) (rows : list (list Z)) (h : heap)
    (live survive : list Z) :
  rectangular (row :: rows) = true ->
  LifeLike.counts rule = inr (live, survive) ->
  edge_boundary edges = Some bd ->
  let weights := Some (AList2 (row :: rows)) in
  let height := zlen (row :: rows) in
  let width := zlen row in
  (is_Some (norm_index height r) /\ is_Some (norm_index width r) ->
   exists ua h',
     LifeLike.init rule edges fill r weights h =
       (inr (Automaton KLifeLike (PyArr ua)
               (Arr (length h) [height; width] true) edges bd fill None),
        h')) /\
  (norm_index height r = None \/ norm_index width r = None ->
   exists h',
     LifeLike.init rule edges fill r weights h =
       (inl (IndexError "index is out of bounds"), h')).
Proof.
  intros Hrect Hc He weights height width. subst weights. split.
  - intros ([i Hi] & [j Hj]). eexists _, _.
    by apply (init_nested_list_run rule edges bd fill r row rows h
                live survive i j).
  - intros Hnone. eexists. rewrite init_nested_list.
    unfold parse_kernel_part, np_flip, as_value. rewrite Hrect.
    rewrite !bind_assoc, bind_ret. cbn [shape data shape2].
    rewrite bind_assoc. unfold alloc at 1, bind at 1. rewrite bind_ret.
    rewrite bind_assoc.
    by rewrite (bind_err _ _ _ _ _
                  (setitem2_err _ _ _ _ true r 0 Hnone)).
Qed.

Lemma lifelike_weights_shape_unchecked_witness :
  exists ua h',
    LifeLike.init (LifeLike.RuleStr "B3/S23") "wrap" 0 1
      (Some (AList2 [[1; 1; 1]; [1; 1; 1]])) [] =
      (inr (Automaton KLifeLike (PyArr ua) (Arr 0 [2; 3] true)
              "wrap" BWrap 0 None), h').
Proof.
  apply (proj1 (lifelike_weights_shape_unchecked
                  (LifeLike.RuleStr "B3/S23") "wrap" BWrap 0 1
                  [1; 1; 1] [[1; 1; 1]] [] [3] [2; 3]
                  eq_refl eq_refl eq_refl)).
  split; by eexists.
Defined.

(** C7 as stated fails: a 2 x 3 weight matrix is accepted. *)
Lemma lifelike_accepts_2_by_3_weights :
  LifeLike.init (LifeLike.RuleStr "B3/S23") "wrap" 0 1
    (Some (AList2 [[1; 1; 1]; [1; 1; 1]])) [] =
    (inr (Automaton KLifeLike (PyArr (Arr 1 [12] false)) (Arr 0 [2; 3] true)
            "wrap" BWrap 0 None),
     [[1; 6; 1; 1; 1; 1]; [0; 0; 0; 1; 0; 0; 0; 0; 1; 1; 0; 0]]).
Proof. vm_compute. reflexivity. Qed.

Lemma py_not_many (h : heap) (b : loc) (s : list Z) (rv : bool) (d : list Z) :
  h !! b = Some d ->
  (2 <= length d)%nat ->
  LifeLike.py_not (Some (AArr (Arr b s rv))) h = (inl ambiguous_truth, h).
Proof.
  intros Hb Hd. unfold LifeLike.py_not, load, read_buf, bind, ret.
  rewrite Hb. cbn [data].
  assert (length (view rv d) = length d) as Hlen
    by (destruct rv; [apply length_rev|done]).
  destruct (view rv d) as [|x [|y l]]; cbn in Hlen; [lia|lia|done].
Qed.

Lemma py_not_one (h : heap) (b : loc) (s : list Z) (rv : bool) (x : Z) :
  h !! b = Some [x] ->
  LifeLike.py_not (Some (AArr (Arr b s rv))) h = (inr (x =? 0), h).
Proof.
  intros Hb. unfold LifeLike.py_not, load, read_buf, bind, ret.
  rewrite Hb. by destruct rv.
Qed.

(** When construction gets past [not weights] with the weights taken,
    the writes to the centre go where [np.flip] points: for an array of
    one element, not zero, to the caller's buffer, which with [r = 0] ends
    holding [weight_sum + 1 = 1]; for a nested list to a new array, every
    buffer that was in the store being as it was. *)
Lemma weights_written_through_flip
    (rule : LifeLike.rule_spec) (edges : string) (bd : boundary) (fill : Z)
    (h : heap) (live survive : list Z) :
  LifeLike.counts rule = inr (live, survive) ->
  edge_boundary edges = Some bd ->
  (forall (b : loc) (rv : bool) (x : Z),
     h !! b = Some [x] ->
     x <> 0 ->
     exists ua h',
       LifeLike.init rule edges fill 0 (Some (AArr (Arr b [1; 1] rv))) h =
         (inr (Automaton KLifeLike (PyArr ua) (Arr b [1; 1] (negb rv))
                 edges bd fill None), h') /\
       h' !! b = Some [1])
  /\
  (forall (r : Z) (row : list Z) (rows : list (list Z)),
     rectangular (row :: rows) = true ->
     is_Some (norm_index (zlen (row :: rows)) r) ->
     is_Some (norm_index (zlen row) r) ->
     exists ca h',
       LifeLike.init rule edges fill r (Some (AList2 (row :: rows))) h =
         (inr ca, h') /\
       forall b d, h !! b = Some d -> h' !! b = Some d).
Proof.
  intros Hc He. split.
  - intros b rv x Hb Hx.
    pose proof (lookup_lt_Some _ _ _ Hb) as Hlt.
    unfold LifeLike.init. rewrite parse_split, !bind_assoc.
    rewrite (bind_ok _ _ _ _ _ (py_not_one h b [1; 1] rv x Hb)).
    replace (x =? 0) with false by lia.
    unfold parse_kernel_part, np_flip.
    rewrite !bind_assoc, bind_ret, bind_assoc.
    rewrite (bind_ok _ _ _ _ _
               (setitem2_run h b 1 1 (negb rv) 0 0 0 0 [x] Hb
                  eq_refl eq_refl)).
    rewrite bind_ret.
    assert (buf_pos (negb rv) [x] (0 * 1 + 0) = 0%nat) as ->
      by (by destruct rv).
    cbn [insert list_insert].
    set (h1 := <[b := [0]]> h).
    assert (h1 !! b = Some [0]) as Hb1
      by (by apply list_lookup_insert_eq).
    rewrite (bind_ok _ _ _ _ _
               (parse_rest_run rule 0 h1 b 1 1 (negb rv) [0] 0 0
                  live survive Hb1 eq_refl eq_refl Hc)).
    cbn beta iota zeta.
    assert (buf_pos (negb rv) [0] (0 * 1 + 0) = 0%nat) as ->
      by (by destruct rv).
    assert (zsum (view (negb rv) [0]) = 0) as -> by (by destruct rv).
    eexists _, _. split.
    + by apply convca_init_run.
    + cbn [insert list_insert]. apply lookup_app_l_Some.
      apply list_lookup_insert_eq. unfold h1. by rewrite length_insert.
  - intros r row rows Hrect [i Hi] [j Hj]. eexists _, _. split.
    + by apply (init_nested_list_run rule edges bd fill r row rows h
                  live survive i j).
    + intros b d Hb. by apply lookup_app_l_Some.
Qed.

(** C10: the code does not get as far as the claim says.  For an array of
    weights with more than one element, [not weights] raises [ValueError]
    (the truth value of such an array is ambiguous) before [np.flip] is
    reached: no automaton is built, nothing is written, and the store,
    the caller's array in it, is as it was. *)
Theorem lifelike_array_weights_refused
    (rule : LifeLike.rule_spec) (edges : string) (fill r : Z)
    (h : heap) (b : loc) (s : list Z) (rv : bool) (d : list Z) :
  h !! b = Some d ->
  (2 <= length d)%nat ->
  LifeLike.init rule edges fill r (Some (AArr (Arr b s rv))) h =
    (inl ambiguous_truth, h).
Proof.
  intros Hb Hd. unfold LifeLike.init. rewrite parse_split.
  rewrite !bind_assoc.
  by rewrite (bind_err _ _ _ _ _ (py_not_many h b s rv d Hb Hd)).
Qed.

Lemma lifelike_array_weights_refused_witness :
  LifeLike.init (LifeLike.RuleStr "B3/S23") "wrap" 0 1
    (Some (AArr (Arr 0 [3; 3] false))) [[1; 1; 1; 1; 1; 1; 1; 1; 1]] =
    (inl ambiguous_truth, [[1; 1; 1; 1; 1; 1; 1; 1; 1]]).
Proof.
  apply (lifelike_array_weights_refused (LifeLike.RuleStr "B3/S23") "wrap"
           0 1 [[1; 1; 1; 1; 1; 1; 1; 1; 1]] 0%nat [3; 3] false
           [1; 1; 1; 1; 1; 1; 1; 1; 1]).
  - reflexivity.
  - cbn. lia.
Defined.

(** ** Non-totalistic automata *)

Lemma supported_nb (nb : string) (pat : ndval) :
  utils.nb_patterns nb = Some pat ->
  nb = "moore"%string \/ nb = "von neumann"%string \/ nb = "extended"%string.
Proof.
  unfold utils.nb_patterns.
  destruct (String.eqb_spec nb "moore"); [by left|].
  destruct (String.eqb_spec nb "von neumann"); [by right; left|].
  destruct (String.eqb_spec nb "extended"); [by right; right|done].
Qed.

Lemma supported_exponents (nb : string) (pat : ndval) :
  utils.nb_patterns nb = Some pat ->
  exists ex, utils.nb_exponents nb = Some ex.
Proof. intros [-> | [-> | ->]]%supported_nb; by eexists. Qed.

Lemma parse_kernel_run (base : Z) (nb : string) (h : heap)
    (pat ex : ndval) :
  utils.nb_patterns (utils.lower nb) = Some pat ->
  utils.nb_exponents (utils.lower nb) = Some ex ->
  NonTotalistic.parse_kernel base nb h =
    (inr (Arr (length h) (shape pat) false), h ++ [nb_kernel base pat ex]).
Proof.
  intros Hp He. unfold NonTotalistic.parse_kernel. by rewrite Hp, He.
Qed.

(** C8, as the code has it: a rule that is not callable is taken for an
    update table without any check, so with a neighbourhood and an edge
    mode that are supported construction succeeds and the automaton holds
    the argument itself as its update table. *)
Theorem nontotalistic_rule_unchecked
    (v : pyval) (base : Z) (nb edges : string) (bd : boundary) (fill : Z)
    (h : heap) (pat : ndval) :
  utils.nb_patterns (utils.lower nb) = Some pat ->
  edge_boundary edges = Some bd ->
  exists k h',
    NonTotalistic.init (NonTotalistic.NotCallable v) base nb edges fill h =
      (inr (Automaton KNonTotalistic v k edges bd fill None), h').
Proof.
  intros Hp He. destruct (supported_exponents _ pat Hp) as [ex Hex].
  unfold NonTotalistic.init.
  rewrite (bind_ok _ _ _ _ _ (parse_kernel_run base nb h pat ex Hp Hex)).
  unfold NonTotalistic.parse_rule. rewrite bind_ret.
  eexists _, _. by apply convca_init_run.
Qed.

Lemma nontotalistic_rule_unchecked_witness :
  exists k h',
    NonTotalistic.init (NonTotalistic.NotCallable (PyStr "B3/S23")) 2
      "Moore" "wrap" 0 [] =
      (inr (Automaton KNonTotalistic (PyStr "B3/S23") k "wrap" BWrap 0 None),
       h').
Proof.
  apply (nontotalistic_rule_unchecked (PyStr "B3/S23") 2 "Moore" "wrap"
           BWrap 0 []
           (utils.array2 [[1; 1; 1]; [1; 1; 1]; [1; 1; 1]]));
    reflexivity.
Defined.

(** C8 as stated fails: [None] is neither callable nor a table, and
    construction succeeds with [None] for update table. *)
Lemma nontotalistic_accepts_none :
  NonTotalistic.init (NonTotalistic.NotCallable PyNone) 2 "moore" "wrap" 0 []
  = (inr (Automaton KNonTotalistic PyNone (Arr 0 [3; 3] false)
            "wrap" BWrap 0 None),
     [[256; 128; 64; 32; 16; 8; 4; 2; 1]]).
Proof. vm_compute. reflexivity. Qed.

(** *** The enumeration of patterns *)

Lemma numeral_snoc (b : Z) (t : list Z) (y : Z) :
  numeral b (t ++ [y]) = numeral b t * b + y.
Proof. unfold numeral. by rewrite fold_left_app. Qed.

Lemma numeral_rev (b : Z) (p : list Z) : numeral b (rev p) = horner b p.
Proof.
  induction p as [|d p IH]; [done|].
  cbn [rev]. rewrite numeral_snoc, IH. cbn [horner fold_right].
  fold (horner b p). lia.
Qed.

Lemma lookup_range (n y : Z) : 0 <= y < n -> range n !! Z.to_nat y = Some y.
Proof.
  intros Hy. unfold range. rewrite list_lookup_fmap, lookup_seq_lt by lia.
  cbn. by rewrite Z2Nat.id by lia.
Qed.

Lemma length_flat_map_const {A B} (f : A -> list B) (m : nat) (l : list A) :
  (forall a, length (f a) = m) -> length (flat_map f l) = (length l * m)%nat.
Proof.
  intros Hf. induction l as [|a l IH]; [done|].
  cbn [flat_map length]. rewrite length_app, Hf, IH. lia.
Qed.

Lemma lookup_flat_map_const {A B} (f : A -> list B) (m : nat) (l : list A)
    (i j : nat) (x : A) :
  (forall a, length (f a) = m) ->
  l !! i = Some x ->
  (j < m)%nat ->
  flat_map f l !! (i * m + j)%nat = f x !! j.
Proof.
  intros Hf. revert i. induction l as [|a l IH]; intros i Hi Hj; [done|].
  cbn [flat_map]. destruct i as [|i].
  - injection Hi as ->. rewrite lookup_app_l; [done|]. rewrite Hf. lia.
  - rewrite lookup_app_r by (rewrite Hf; lia). rewrite Hf.
    replace (S i * m + j - m)%nat with (i * m + j)%nat by lia.
    by apply IH.
Qed.

Lemma length_product (pool : list Z) (n : nat) :
  length (utils.product pool n) = (length pool ^ n)%nat.
Proof.
  induction n as [|n IH]; [done|].
  cbn [utils.product].
  rewrite (length_flat_map_const _ (length pool))
    by (intros a; apply length_map).
  rewrite IH. cbn [Nat.pow]. lia.
Qed.

Lemma snoc_of_length {A} (t : list A) (n : nat) :
  length t = S n -> exists t' y, t = t' ++ [y] /\ length t' = n.
Proof.
  destruct t as [|x t] using rev_ind; [done|].
  rewrite length_app. cbn. intros Hlen. exists t, x. split; [done|lia].
Qed.

Lemma product_lookup (b : Z) (n : nat) :
  forall t : list Z,
    length t = n ->
    Forall (fun d => 0 <= d < b) t ->
    utils.product (range b) n !! Z.to_nat (numeral b t) = Some t /\
    0 <= numeral b t < b ^ Z.of_nat n.
Proof.
  induction n as [|n IH]; intros t Hlen Ht.
  - destruct t; [|done]. split; [done|]. cbn. lia.
  - destruct (snoc_of_length t n Hlen) as (t' & y & -> & Hlen').
    apply Forall_app in Ht as [Ht' Hy].
    apply Forall_cons in Hy as [Hy _].
    destruct (IH t' Hlen' Ht') as (Hlook & Hbound).
    rewrite numeral_snoc, Nat2Z.inj_succ, Z.pow_succ_r by lia.
    split; [|nia].
    cbn [utils.product].
    replace (Z.to_nat (numeral b t' * b + y))
      with (Z.to_nat (numeral b t') * length (range b) + Z.to_nat y)%nat
      by (rewrite length_range; nia).
    rewrite (lookup_flat_map_const _ (length (range b)) _ _ _ t');
      [|intros a; apply length_map|done|rewrite length_range; lia].
    by rewrite list_lookup_fmap, lookup_range.
Qed.

Lemma func_table_lookup (func : ndval -> Z) (base : Z) (nb : string)
    (size : Z) (p : list Z) :
  0 <= size ->
  length p = Z.to_nat size ->
  Forall (fun d => 0 <= d < base) p ->
  0 <= horner base p < base ^ size /\
  nth (Z.to_nat (horner base p)) (func_table func base nb size) 0 =
    func (func_arg nb p).
Proof.
  intros Hsize Hlen Hp.
  destruct (product_lookup base (Z.to_nat size) (rev p)) as (Hlook & Hbound).
  { by rewrite length_rev. }
  { by apply Forall_rev. }
  rewrite numeral_rev in Hlook, Hbound.
  rewrite Z2Nat.id in Hbound by done. split; [done|].
  unfold func_table. apply nth_lookup_Some.
  rewrite list_lookup_fmap, Hlook. cbn [fmap option_fmap option_map].
  do 2 f_equal. unfold utils.flip, func_arg. cbn [shape data].
  rewrite rev_involutive. destruct (String.eqb nb "moore"); [done|].
  unfold zlen. by rewrite length_rev.
Qed.

Lemma func_to_update_array_run (func : ndval -> Z) (base : Z)
    (nb : string) (size : Z) (h : heap) :
  utils.nb_sizes (utils.lower nb) = Some size ->
  let table := func_table func base (utils.lower nb) size in
  utils.func_to_update_array func base nb h =
    (inr (Arr (length h) [zlen table] false), h ++ [table]).
Proof.
  intros Hs table. unfold utils.func_to_update_array. rewrite Hs.
  exact (np_copy_value h (AList1 table) (NdVal [zlen table] table) eq_refl).
Qed.

Lemma length_func_table (func : ndval -> Z) (base : Z) (nb : string)
    (size : Z) :
  0 <= base -> 0 <= size ->
  zlen (func_table func base nb size) = base ^ size.
Proof.
  intros Hb Hs. unfold zlen, func_table.
  rewrite length_map, length_product, length_range, Nat2Z.inj_pow.
  by rewrite !Z2Nat.id.
Qed.

(** *** The kernel reads a window as a numeral *)

Lemma conv_terms_3x3 (w0 w1 w2 w3 w4 w5 w6 w7 w8 : Z)
    (k0 k1 k2 k3 k4 k5 k6 k7 k8 : Z) :
  conv_terms BFill 0 [w0; w1; w2; w3; w4; w5; w6; w7; w8] 3 3
             [k0; k1; k2; k3; k4; k5; k6; k7; k8] 3 3 1 1 =
    [(k0, w8); (k1, w7); (k2, w6); (k3, w5); (k4, w4); (k5, w3); (k6, w2);
     (k7, w1); (k8, w0)].
Proof. reflexivity. Qed.

Lemma conv_terms_5x5
    (w0 w1 w2 w3 w4 w5 w6 w7 w8 w9 w10 w11 w12 w13 w14 w15 w16 w17 w18 w19
     w20 w21 w22 w23 w24 : Z)
    (k0 k1 k2 k3 k4 k5 k6 k7 k8 k9 k10 k11 k12 k13 k14 k15 k16 k17 k18 k19
     k20 k21 k22 k23 k24 : Z) :
  conv_terms BFill 0
    [w0; w1; w2; w3; w4; w5; w6; w7; w8; w9; w10; w11; w12; w13; w14; w15;
     w16; w17; w18; w19; w20; w21; w22; w23; w24] 5 5
    [k0; k1; k2; k3; k4; k5; k6; k7; k8; k9; k10; k11; k12; k13; k14; k15;
     k16; k17; k18; k19; k20; k21; k22; k23; k24] 5 5 2 2 =
    [(k0, w24); (k1, w23); (k2, w22); (k3, w21); (k4, w20); (k5, w19);
     (k6, w18); (k7, w17); (k8, w16); (k9, w15); (k10, w14); (k11, w13);
     (k12, w12); (k13, w11); (k14, w10); (k15, w9); (k16, w8); (k17, w7);
     (k18, w6); (k19, w5); (k20, w4); (k21, w3); (k22, w2); (k23, w1);
     (k24, w0)].
Proof. reflexivity. Qed.

(** Unfold the kernel of a catalogue entry to the list of its weights. *)
Ltac kernel_weights :=
  cbv [nb_kernel NonTotalistic.zip_with map data shape utils.flip
       utils.array2 shape2 concat app rev].

Lemma encode_moore (base : Z) (pat ex : ndval) (window : list Z) :
  utils.nb_patterns "moore" = Some pat ->
  utils.nb_exponents "moore" = Some ex ->
  length window = length (data pat) ->
  length (neighbours (data pat) window) = 9%nat /\
  encode (NdVal (shape pat) (nb_kernel base pat ex)) window =
    horner base (neighbours (data pat) window).
Proof.
  intros [= <-] [= <-] Hlen.
  destruct window as [|w0 window]; [done|].
  destruct window as [|w1 window]; [done|].
  destruct window as [|w2 window]; [done|].
  destruct window as [|w3 window]; [done|].
  destruct window as [|w4 window]; [done|].
  destruct window as [|w5 window]; [done|].
  destruct window as [|w6 window]; [done|].
  destruct window as [|w7 window]; [done|].
  destruct window as [|w8 window]; [done|].
  destruct window; [|done].
  split; [done|].
  unfold encode, conv_cell. kernel_weights.
  change ((zlen [[1; 1; 1]; [1; 1; 1]; [1; 1; 1]] - 1) / 2) with 1.
  change (zlen [[1; 1; 1]; [1; 1; 1]; [1; 1; 1]]) with 3.
  change ((zlen [1; 1; 1] - 1) / 2) with 1.
  change (zlen [1; 1; 1]) with 3.
  rewrite conv_terms_3x3.
  change (neighbours _ _) with [w0; w1; w2; w3; w4; w5; w6; w7; w8].
  cbn [map zsum fold_right fst snd horner]. ring.
Qed.

Lemma encode_von_neumann (base : Z) (pat ex : ndval) (window : list Z) :
  utils.nb_patterns "von neumann" = Some pat ->
  utils.nb_exponents "von neumann" = Some ex ->
  length window = length (data pat) ->
  length (neighbours (data pat) window) = 5%nat /\
  encode (NdVal (shape pat) (nb_kernel base pat ex)) window =
    horner base (neighbours (data pat) window).
Proof.
  intros [= <-] [= <-] Hlen.
  destruct window as [|w0 window]; [done|].
  destruct window as [|w1 window]; [done|].
  destruct window as [|w2 window]; [done|].
  destruct window as [|w3 window]; [done|].
  destruct window as [|w4 window]; [done|].
  destruct window as [|w5 window]; [done|].
  destruct window as [|w6 window]; [done|].
  destruct window as [|w7 window]; [done|].
  destruct window as [|w8 window]; [done|].
  destruct window; [|done].
  split; [done|].
  unfold encode, conv_cell. kernel_weights.
  change ((zlen [[0; 1; 0]; [1; 1; 1]; [0; 1; 0]] - 1) / 2) with 1.
  change (zlen [[0; 1; 0]; [1; 1; 1]; [0; 1; 0]]) with 3.
  change ((zlen [0; 1; 0] - 1) / 2) with 1.
  change (zlen [0; 1; 0]) with 3.
  rewrite conv_terms_3x3.
  change (neighbours _ _) with [w1; w3; w4; w5; w7].
  cbn [map zsum fold_right fst snd horner]. ring.
Qed.

Lemma encode_extended (base : Z) (pat ex : ndval) (window : list Z) :
  utils.nb_patterns "extended" = Some pat ->
  utils.nb_exponents "extended" = Some ex ->
  length window = length (data pat) ->
  length (neighbours (data pat) window) = 9%nat /\
  encode (NdVal (shape pat) (nb_kernel base pat ex)) window =
    horner base (neighbours (data pat) window).
Proof.
  intros [= <-] [= <-] Hlen.
  destruct window as [|w0 window]; [done|].
  destruct window as [|w1 window]; [done|].
  destruct window as [|w2 window]; [done|].
  destruct window as [|w3 window]; [done|].
  destruct window as [|w4 window]; [done|].
  destruct window as [|w5 window]; [done|].
  destruct window as [|w6 window]; [done|].
  destruct window as [|w7 window]; [done|].
  destruct window as [|w8 window]; [done|].
  destruct window as [|w9 window]; [done|].
  destruct window as [|w10 window]; [done|].
  destruct window as [|w11 window]; [done|].
  destruct window as [|w12 window]; [done|].
  destruct window as [|w13 window]; [done|].
  destruct window as [|w14 window]; [done|].
  destruct window as [|w15 window]; [done|].
  destruct window as [|w16 window]; [done|].
  destruct window as [|w17 window]; [done|].
  destruct window as [|w18 window]; [done|].
  destruct window as [|w19 window]; [done|].
  destruct window as [|w20 window]; [done|].
  destruct window as [|w21 window]; [done|].
  destruct window as [|w22 window]; [done|].
  destruct window as [|w23 window]; [done|].
  destruct window as [|w24 window]; [done|].
  destruct window; [|done].
  split; [done|].
  unfold encode, conv_cell. kernel_weights.
  set (m := [[0; 0; 1; 0; 0]; [0; 0; 1; 0; 0]; [1; 1; 1; 1; 1];
             [0; 0; 1; 0; 0]; [0; 0; 1; 0; 0]]).
  change ((zlen m - 1) / 2) with 2. change (zlen m) with 5.
  change ((zlen [0; 0; 1; 0; 0] - 1) / 2) with 2.
  change (zlen [0; 0; 1; 0; 0]) with 5.
  rewrite conv_terms_5x5.
  change (neighbours _ _) with [w2; w7; w10; w11; w12; w13; w14; w17; w22].
  cbn [map zsum fold_right fst snd horner]. ring.
Qed.

Lemma nontotalistic_init_run (func : ndval -> Z) (base : Z)
    (nb edges : string) (bd : boundary) (fill : Z) (h : heap)
    (pat ex : ndval) (size : Z) :
  utils.nb_patterns (utils.lower nb) = Some pat ->
  utils.nb_exponents (utils.lower nb) = Some ex ->
  utils.nb_sizes (utils.lower nb) = Some size ->
  edge_boundary edges = Some bd ->
  let table := func_table func base (utils.lower nb) size in
  NonTotalistic.init (NonTotalistic.Callable func) base nb edges fill h =
    (inr (Automaton KNonTotalistic
            (PyArr (Arr (length h + 1) [zlen table] false))
            (Arr (length h) (shape pat) false) edges bd fill None),
     h ++ [nb_kernel base pat ex; table]).
Proof.
  intros Hp Hex Hs He table. unfold NonTotalistic.init.
  rewrite (bind_ok _ _ _ _ _ (parse_kernel_run base nb h pat ex Hp Hex)).
  unfold NonTotalistic.parse_rule. rewrite bind_assoc.
  rewrite (bind_ok _ _ _ _ _
             (func_to_update_array_run func base nb size _ Hs)).
  rewrite bind_ret. fold table.
  rewrite (convca_init_run _ _ _ _ _ _ _ He). by store_norm.
Qed.

Lemma encode_supported (base : Z) (nb : string) (pat ex : ndval)
    (size : Z) (window : list Z) :
  utils.nb_patterns nb = Some pat ->
  utils.nb_exponents nb = Some ex ->
  utils.nb_sizes nb = Some size ->
  length window = length (data pat) ->
  0 <= size /\
  length (neighbours (data pat) window) = Z.to_nat size /\
  encode (NdVal (shape pat) (nb_kernel base pat ex)) window =
    horner base (neighbours (data pat) window).
Proof.
  intros Hp Hex Hs Hlen.
  destruct (supported_nb nb pat Hp) as [-> | [-> | ->]];
    injection Hs as <-; (split; [lia|]).
  - by apply encode_moore.
  - by apply encode_von_neumann.
  - by apply encode_extended.
Qed.

(** C3: for a rule function, a base [>= 1] and a supported neighbourhood
    of [size] cells, [NonTotalistic] builds an update table of length
    [base ^ size], and for every window whose neighbourhood cells are in
    [0, base) the entry at the value the kernel gives the window is the
    result of the rule function on the neighbourhood. *)
Theorem nontotalistic_table_agrees_with_rule
    (func : ndval -> Z) (base : Z) (nb edges : string) (bd : boundary)
    (fill : Z) (h : heap) (pat : ndval) (size : Z) :
  1 <= base ->
  utils.nb_patterns (utils.lower nb) = Some pat ->
  utils.nb_sizes (utils.lower nb) = Some size ->
  edge_boundary edges = Some bd ->
  exists ca h' t kern table,
    NonTotalistic.init (NonTotalistic.Callable func) base nb edges fill h =
      (inr ca, h') /\
    update_array ca = PyArr t /\
    contents h' t = Some (NdVal [base ^ size] table) /\
    length table = Z.to_nat (base ^ size) /\
    kernel_at h' ca = Some (NdVal (shape pat) kern) /\
    forall window,
      length window = length (data pat) ->
      Forall (fun x => 0 <= x < base) (neighbours (data pat) window) ->
      length (neighbours (data pat) window) = Z.to_nat size /\
      0 <= encode (NdVal (shape pat) kern) window < base ^ size /\
      nth (Z.to_nat (encode (NdVal (shape pat) kern) window)) table 0 =
        func (func_arg (utils.lower nb) (neighbours (data pat) window)).
Proof.
  intros Hbase Hp Hs He.
  destruct (supported_exponents _ pat Hp) as [ex Hex].
  pose proof (nontotalistic_init_run func base nb edges bd fill h pat ex
                size Hp Hex Hs He) as Hrun.
  cbn zeta in Hrun.
  set (table := func_table func base (utils.lower nb) size) in *.
  assert (0 <= size) as Hsize.
  { destruct (supported_nb _ pat Hp) as [E | [E | E]];
      rewrite E in Hs; injection Hs as <-; lia. }
  assert (zlen table = base ^ size) as Hlen
    by (apply length_func_table; lia).
  eexists _, _, _, (nb_kernel base pat ex), table.
  split; [exact Hrun|]. cbn [update_array kernel_at kernel].
  split; [done|]. split; [|split; [|split]].
  - unfold contents. rewrite lookup_ext. cbn. by rewrite Hlen.
  - unfold zlen in Hlen. lia.
  - apply contents_new.
  - intros window Hw Hcells.
    destruct (encode_supported base _ pat ex size window Hp Hex Hs Hw)
      as (_ & Hn & ->).
    split; [done|].
    by apply func_table_lookup.
Qed.

Lemma nontotalistic_table_agrees_with_rule_witness :
  exists ca h' t kern table,
    NonTotalistic.init (NonTotalistic.Callable parity_rule) 2 "Von Neumann"
      "fixed" 0 [] = (inr ca, h') /\
    update_array ca = PyArr t /\
    contents h' t = Some (NdVal [2 ^ 5] table) /\
    length table = Z.to_nat (2 ^ 5) /\
    kernel_at h' ca =
      Some (NdVal (shape (utils.array2 [[0; 1; 0]; [1; 1; 1]; [0; 1; 0]]))
              kern) /\
    forall window,
      length window =
        length (data (utils.array2 [[0; 1; 0]; [1; 1; 1]; [0; 1; 0]])) ->
      Forall (fun x => 0 <= x < 2)
        (neighbours (data (utils.array2 [[0; 1; 0]; [1; 1; 1]; [0; 1; 0]]))
           window) ->
      length
        (neighbours (data (utils.array2 [[0; 1; 0]; [1; 1; 1]; [0; 1; 0]]))
           window) = Z.to_nat 5 /\
      0 <= encode
             (NdVal (shape (utils.array2 [[0; 1; 0]; [1; 1; 1]; [0; 1; 0]]))
                kern) window < 2 ^ 5 /\
      nth (Z.to_nat
             (encode
                (NdVal
                   (shape (utils.array2 [[0; 1; 0]; [1; 1; 1]; [0; 1; 0]]))
                   kern) window)) table 0 =
        parity_rule
          (func_arg (utils.lower "Von Neumann")
             (neighbours
                (data (utils.array2 [[0; 1; 0]; [1; 1; 1]; [0; 1; 0]]))
                window)).
Proof.
  apply (nontotalistic_table_agrees_with_rule parity_rule 2 "Von Neumann"
           "fixed" BFill 0 []
           (utils.array2 [[0; 1; 0]; [1; 1; 1]; [0; 1; 0]]) 5);
    [lia|reflexivity|reflexivity|reflexivity].
Defined.

(** *** What [step()] looks up is the encoding of the window

    The value [convolve2d] computes at cell [(i, j)] of a grid is
    [encode] of the window around the cell, for either boundary mode. *)

Lemma conv_cell_window_3x3 (bd : boundary) (fill : Z) (d : list Z)
    (H W : Z) (k : list Z) (i j : Z) :
  length k = 9%nat ->
  conv_cell bd fill d H W k 3 3 i j =
    encode (NdVal [3; 3] k) (window_at bd fill d H W 1 i j).
Proof.
  intros Hk.
  destruct k as [|k0 k]; [done|].
  destruct k as [|k1 k]; [done|].
  destruct k as [|k2 k]; [done|].
  destruct k as [|k3 k]; [done|].
  destruct k as [|k4 k]; [done|].
  destruct k as [|k5 k]; [done|].
  destruct k as [|k6 k]; [done|].
  destruct k as [|k7 k]; [done|].
  destruct k as [|k8 k]; [done|].
  destruct k; [|done].
  unfold encode, conv_cell. cbn [shape data].
  change ((3 - 1) / 2) with 1.
  change (window_at bd fill d H W 1 i j) with
    [padded bd fill d H W (i - 1 + 0) (j - 1 + 0); padded bd fill d H W (i - 1 + 0) (j - 1 + 1); padded bd fill d H W (i - 1 + 0) (j - 1 + 2); padded bd fill d H W (i - 1 + 1) (j - 1 + 0); padded bd fill d H W (i - 1 + 1) (j - 1 + 1); padded bd fill d H W (i - 1 + 1) (j - 1 + 2); padded bd fill d H W (i - 1 + 2) (j - 1 + 0); padded bd fill d H W (i - 1 + 2) (j - 1 + 1); padded bd fill d H W (i - 1 + 2) (j - 1 + 2)].
  rewrite conv_terms_3x3.
  change (conv_terms bd fill d H W [k0; k1; k2; k3; k4; k5; k6; k7; k8] 3 3 i j) with
    [(k0, padded bd fill d H W (i + 1 - 0) (j + 1 - 0)); (k1, padded bd fill d H W (i + 1 - 0) (j + 1 - 1)); (k2, padded bd fill d H W (i + 1 - 0) (j + 1 - 2)); (k3, padded bd fill d H W (i + 1 - 1) (j + 1 - 0)); (k4, padded bd fill d H W (i + 1 - 1) (j + 1 - 1)); (k5, padded bd fill d H W (i + 1 - 1) (j + 1 - 2)); (k6, padded bd fill d H W (i + 1 - 2) (j + 1 - 0)); (k7, padded bd fill d H W (i + 1 - 2) (j + 1 - 1)); (k8, padded bd fill d H W (i + 1 - 2) (j + 1 - 2))].
  replace (i + 1 - 0) with (i - 1 + 2) by lia.
  replace (j + 1 - 0) with (j - 1 + 2) by lia.
  replace (i + 1 - 1) with (i - 1 + 1) by lia.
  replace (j + 1 - 1) with (j - 1 + 1) by lia.
  replace (i + 1 - 2) with (i - 1 + 0) by lia.
  replace (j + 1 - 2) with (j - 1 + 0) by lia.
  reflexivity.
Qed.

Lemma conv_cell_window_5x5 (bd : boundary) (fill : Z) (d : list Z)
    (H W : Z) (k : list Z) (i j : Z) :
  length k = 25%nat ->
  conv_cell bd fill d H W k 5 5 i j =
    encode (NdVal [5; 5] k) (window_at bd fill d H W 2 i j).
Proof.
  intros Hk.
  destruct k as [|k0 k]; [done|].
  destruct k as [|k1 k]; [done|].
  destruct k as [|k2 k]; [done|].
  destruct k as [|k3 k]; [done|].
  destruct k as [|k4 k]; [done|].
  destruct k as [|k5 k]; [done|].
  destruct k as [|k6 k]; [done|].
  destruct k as [|k7 k]; [done|].
  destruct k as [|k8 k]; [done|].
  destruct k as [|k9 k]; [done|].
  destruct k as [|k10 k]; [done|].
  destruct k as [|k11 k]; [done|].
  destruct k as [|k12 k]; [done|].
  destruct k as [|k13 k]; [done|].
  destruct k as [|k14 k]; [done|].
  destruct k as [|k15 k]; [done|].
  destruct k as [|k16 k]; [done|].
  destruct k as [|k17 k]; [done|].
  destruct k as [|k18 k]; [done|].
  destruct k as [|k19 k]; [done|].
  destruct k as [|k20 k]; [done|].
  destruct k as [|k21 k]; [done|].
  destruct k as [|k22 k]; [done|].
  destruct k as [|k23 k]; [done|].
  destruct k as [|k24 k]; [done|].
  destruct k; [|done].
  unfold encode, conv_cell. cbn [shape data].
  change ((5 - 1) / 2) with 2.
  change (window_at bd fill d H W 2 i j) with
    [padded bd fill d H W (i - 2 + 0) (j - 2 + 0); padded bd fill d H W (i - 2 + 0) (j - 2 + 1); padded bd fill d H W (i - 2 + 0) (j - 2 + 2); padded bd fill d H W (i - 2 + 0) (j - 2 + 3); padded bd fill d H W (i - 2 + 0) (j - 2 + 4); padded bd fill d H W (i - 2 + 1) (j - 2 + 0); padded bd fill d H W (i - 2 + 1) (j - 2 + 1); padded bd fill d H W (i - 2 + 1) (j - 2 + 2); padded bd fill d H W (i - 2 + 1) (j - 2 + 3); padded bd fill d H W (i - 2 + 1) (j - 2 + 4); padded bd fill d H W (i - 2 + 2) (j - 2 + 0); padded bd fill d H W (i - 2 + 2) (j - 2 + 1); padded bd fill d H W (i - 2 + 2) (j - 2 + 2); padded bd fill d H W (i - 2 + 2) (j - 2 + 3); padded bd fill d H W (i - 2 + 2) (j - 2 + 4); padded bd fill d H W (i - 2 + 3) (j - 2 + 0); padded bd fill d H W (i - 2 + 3) (j - 2 + 1); padded bd fill d H W (i - 2 + 3) (j - 2 + 2); padded bd fill d H W (i - 2 + 3) (j - 2 + 3); padded bd fill d H W (i - 2 + 3) (j - 2 + 4); padded bd fill d H W (i - 2 + 4) (j - 2 + 0); padded bd fill d H W (i - 2 + 4) (j - 2 + 1); padded bd fill d H W (i - 2 + 4) (j - 2 + 2); padded bd fill d H W (i - 2 + 4) (j - 2 + 3); padded bd fill d H W (i - 2 + 4) (j - 2 + 4)].
  rewrite conv_terms_5x5.
  change (conv_terms bd fill d H W [k0; k1; k2; k3; k4; k5; k6; k7; k8; k9; k10; k11; k12; k13; k14; k15; k16; k17; k18; k19; k20; k21; k22; k23; k24] 5 5 i j) with
    [(k0, padded bd fill d H W (i + 2 - 0) (j + 2 - 0)); (k1, padded bd fill d H W (i + 2 - 0) (j + 2 - 1)); (k2, padded bd fill d H W (i + 2 - 0) (j + 2 - 2)); (k3, padded bd fill d H W (i + 2 - 0) (j + 2 - 3)); (k4, padded bd fill d H W (i + 2 - 0) (j + 2 - 4)); (k5, padded bd fill d H W (i + 2 - 1) (j + 2 - 0)); (k6, padded bd fill d H W (i + 2 - 1) (j + 2 - 1)); (k7, padded bd fill d H W (i + 2 - 1) (j + 2 - 2)); (k8, padded bd fill d H W (i + 2 - 1) (j + 2 - 3)); (k9, padded bd fill d H W (i + 2 - 1) (j + 2 - 4)); (k10, padded bd fill d H W (i + 2 - 2) (j + 2 - 0)); (k11, padded bd fill d H W (i + 2 - 2) (j + 2 - 1)); (k12, padded bd fill d H W (i + 2 - 2) (j + 2 - 2)); (k13, padded bd fill d H W (i + 2 - 2) (j + 2 - 3)); (k14, padded bd fill d H W (i + 2 - 2) (j + 2 - 4)); (k15, padded bd fill d H W (i + 2 - 3) (j + 2 - 0)); (k16, padded bd fill d H W (i + 2 - 3) (j + 2 - 1)); (k17, padded bd fill d H W (i + 2 - 3) (j + 2 - 2)); (k18, padded bd fill d H W (i + 2 - 3) (j + 2 - 3)); (k19, padded bd fill d H W (i + 2 - 3) (j + 2 - 4)); (k20, padded bd fill d H W (i + 2 - 4) (j + 2 - 0)); (k21, padded bd fill d H W (i + 2 - 4) (j + 2 - 1)); (k22, padded bd fill d H W (i + 2 - 4) (j + 2 - 2)); (k23, padded bd fill d H W (i + 2 - 4) (j + 2 - 3)); (k24, padded bd fill d H W (i + 2 - 4) (j + 2 - 4))].
  replace (i + 2 - 0) with (i - 2 + 4) by lia.
  replace (j + 2 - 0) with (j - 2 + 4) by lia.
  replace (i + 2 - 1) with (i - 2 + 3) by lia.
  replace (j + 2 - 1) with (j - 2 + 3) by lia.
  replace (i + 2 - 2) with (i - 2 + 2) by lia.
  replace (j + 2 - 2) with (j - 2 + 2) by lia.
  replace (i + 2 - 3) with (i - 2 + 1) by lia.
  replace (j + 2 - 3) with (j - 2 + 1) by lia.
  replace (i + 2 - 4) with (i - 2 + 0) by lia.
  replace (j + 2 - 4) with (j - 2 + 0) by lia.
  reflexivity.
Qed.

(** *** Machine integers

    numpy computes the kernel in [int64].  Every weight is at most
    [base ^ (size - 1)] and every encoding is below [base ^ size], the
    length of the table; so on every table that can be held in memory
    ([base ^ size < 2 ^ 63]) the unbounded integers of this model are the
    integers numpy computes with. *)

Ltac weight_bound :=
  match goal with
  | |- 0 <= 1 * (?b * 1) ^ ?e <= ?b ^ ?n =>
      rewrite Z.mul_1_l, Z.mul_1_r;
      split; [apply Z.pow_nonneg; lia | apply Z.pow_le_mono_r; lia]
  | |- 0 <= 0 * _ <= ?b ^ ?n =>
      rewrite Z.mul_0_l; split; [lia | apply Z.pow_nonneg; lia]
  end.

Lemma nb_kernel_bounded (base : Z) (nb : string) (pat ex : ndval)
    (size : Z) :
  1 <= base ->
  utils.nb_patterns nb = Some pat ->
  utils.nb_exponents nb = Some ex ->
  utils.nb_sizes nb = Some size ->
  Forall (fun k => 0 <= k <= base ^ (size - 1)) (nb_kernel base pat ex).
Proof.
  intros Hbase Hp Hex Hs.
  destruct (supported_nb nb pat Hp) as [-> | [-> | ->]];
    injection Hp as <-; injection Hex as <-; injection Hs as <-;
    kernel_weights; repeat (constructor; [weight_bound|]); constructor.
Qed.

(** ** The model at work

    With fixed edges the L in the corner closes to a block: cells beyond
    the edge count as dead.  On the torus every cell is a neighbour of
    every other, so all nine cells are alive after the step. *)

Example corner_fixed :
  exists snap h',
    corner_scenario "fixed" [] = (inr snap, h') /\
    contents h' snap = Some (NdVal [3; 3] [1; 1; 0; 1; 1; 0; 0; 0; 0]).
Proof. eexists _, _. split; vm_compute; reflexivity. Qed.

Example corner_wrap :
  exists snap h',
    corner_scenario "wrap" [] = (inr snap, h') /\
    contents h' snap = Some (NdVal [3; 3] [1; 1; 1; 1; 1; 1; 1; 1; 1]).
Proof. eexists _, _. split; vm_compute; reflexivity. Qed.

(** Rule 110 grows to the left; with a negative [n] the generator shows
    the same state again and again. *)
Example rule110_three_generations :
  exists snaps self' h',
    drain 4 rule110_self (n_generations 3) rule110_store =
      (inr (Some snaps, self'), h') /\
    map (contents h') snaps =
      [Some (NdVal [3] [0; 0; 1]); Some (NdVal [3] [0; 1; 1]);
       Some (NdVal [3] [1; 1; 1])].
Proof. eexists _, _, _. split; vm_compute; reflexivity. Qed.

Example rule110_negative_n :
  exists snaps g self' h',
    take_gen 3 rule110_self (n_generations (-1)) rule110_store =
      (inr (snaps, g, self'), h') /\
    map (contents h') snaps =
      [Some (NdVal [3] [0; 0; 1]); Some (NdVal [3] [0; 0; 1]);
       Some (NdVal [3] [0; 0; 1])].
Proof. eexists _, _, _, _. split; vm_compute; reflexivity. Qed.


(** * More of the code *)

(** ** Integer codes of update arrays *)

Lemma zlen_nil {A} : zlen (@nil A) = 0.
Proof. reflexivity. Qed.

Lemma zlen_cons {A} (x : A) (l : list A) : zlen (x :: l) = Z.succ (zlen l).
Proof. unfold zlen. cbn [length]. apply Nat2Z.inj_succ. Qed.

Lemma zlen_nonneg {A} (l : list A) : 0 <= zlen l.
Proof. unfold zlen. apply Nat2Z.is_nonneg. Qed.

Lemma update_array_to_int_fold (base : Z) (arr : list Z) (t c : Z) :
  fold_left
    (fun '(total, coefficient) x =>
       (total + coefficient * x, coefficient * base))
    arr (t, c) =
  (t + c * horner base arr, c * base ^ zlen arr).
Proof.
  revert t c. induction arr as [|x arr IH]; intros t c.
  - rewrite (@zlen_nil Z), Z.pow_0_r. cbn. f_equal; lia.
  - cbn [fold_left]. rewrite IH. cbn [horner fold_right].
    fold (horner base arr).
    rewrite zlen_cons, Z.pow_succ_r by apply zlen_nonneg. f_equal; lia.
Qed.

Lemma update_array_to_int_horner (arr : list Z) (base : Z) :
  update_array_to_int arr base = horner base arr.
Proof.
  unfold update_array_to_int. rewrite update_array_to_int_fold. cbn. lia.
Qed.

Lemma horner_app (b : Z) (p q : list Z) :
  horner b (p ++ q) = horner b p + b ^ zlen p * horner b q.
Proof.
  induction p as [|d p IH].
  - rewrite (@zlen_nil Z), Z.pow_0_r. cbn [app].
    change (horner b []) with 0. lia.
  - cbn [app]. change (horner b (d :: p ++ q)) with (d + b * horner b (p ++ q)).
    change (horner b (d :: p)) with (d + b * horner b p).
    rewrite IH, zlen_cons, Z.pow_succ_r by apply zlen_nonneg. lia.
Qed.

Lemma horner_zeros (b : Z) (n : nat) : horner b (repeat 0 n) = 0.
Proof.
  induction n as [|n IH]; [done|].
  cbn [repeat horner fold_right]. fold (horner b (repeat 0 n)). lia.
Qed.

Lemma horner_bound (b : Z) (p : list Z) :
  Forall (digit b) p -> 0 <= horner b p < b ^ zlen p.
Proof.
  induction 1 as [|d p Hd _ IH].
  - rewrite (@zlen_nil Z), Z.pow_0_r. cbn. lia.
  - cbn [horner fold_right]. fold (horner b p).
    rewrite zlen_cons, Z.pow_succ_r by apply zlen_nonneg.
    unfold digit in Hd. nia.
Qed.

Lemma horner_injective (b : Z) (p : list Z) :
  forall q, Forall (digit b) p -> Forall (digit b) q ->
    length p = length q -> horner b p = horner b q -> p = q.
Proof.
  induction p as [|d p IH]; intros [|e q] Hp Hq Hlen Hh; try done.
  apply Forall_cons in Hp as [Hd Hp]. apply Forall_cons in Hq as [He Hq].
  cbn [horner fold_right] in Hh. fold (horner b p) (horner b q) in Hh.
  unfold digit in Hd, He.
  assert (horner b p = horner b q) as Hpq by nia.
  assert (d = e) as -> by nia.
  f_equal. apply IH; try done. cbn in Hlen. lia.
Qed.

(** The loop writes [x] in base [b], least significant digit first, with
    no digit more than [x] needs. *)
Lemma base_b_loop_digits (b : Z) (fuel : nat) :
  forall x acc,
    2 <= b -> 0 <= x -> x < b ^ (Z.of_nat fuel - 1) ->
    exists ds,
      base_b_loop fuel x b acc = Some (inr (acc ++ ds)) /\
      horner b ds = x /\
      Forall (digit b) ds /\
      forall k, 0 <= k -> (zlen ds <= k <-> x < b ^ k).
Proof.
  induction fuel as [|fuel IH]; intros x acc Hb Hx Hfuel.
  { rewrite Z.pow_neg_r in Hfuel by (rewrite Nat2Z.inj_0; lia). lia. }
  rewrite Nat2Z.inj_succ in Hfuel.
  replace (Z.succ (Z.of_nat fuel) - 1) with (Z.of_nat fuel) in Hfuel by lia.
  pose proof (Nat2Z.is_nonneg fuel) as Hf0. set (m := Z.of_nat fuel) in *.
  cbn [base_b_loop]. destruct (Z.eqb_spec x 0) as [->|Hx0].
  - exists []. rewrite app_nil_r.
    split; [done|]. split; [done|]. split; [done|].
    intros k Hk. rewrite (@zlen_nil Z).
    pose proof (Z.pow_pos_nonneg b k ltac:(lia) Hk). lia.
  - replace (b =? 0) with false by lia.
    assert (0 <= x / b < x) as Hdiv.
    { split; [apply Z.div_pos; lia|apply Z.div_lt; lia]. }
    assert (x / b < b ^ (m - 1)) as Hfuel'.
    { destruct (Z.eq_dec m 0) as [E|E].
      - rewrite E, Z.pow_0_r in Hfuel. lia.
      - apply Z.div_lt_upper_bound; [lia|].
        rewrite <- Z.pow_succ_r by lia.
        by replace (Z.succ (m - 1)) with m by lia. }
    destruct (IH (x / b) (acc ++ [x mod b]) Hb ltac:(lia) Hfuel')
      as (ds & Hrun & Hval & Hds & Hlen).
    exists (x mod b :: ds). rewrite Hrun, <- app_assoc.
    pose proof (Z.mod_pos_bound x b ltac:(lia)) as Hmod.
    pose proof (Z.div_mod x b ltac:(lia)) as Hdm.
    pose proof (zlen_nonneg ds) as Hnn.
    split; [done|]. split; [|split].
    + change (horner b (x mod b :: ds)) with (x mod b + b * horner b ds).
      lia.
    + by constructor.
    + intros k Hk. rewrite zlen_cons.
      destruct (Z.eq_dec k 0) as [->|Hk0].
      { rewrite Z.pow_0_r. lia. }
      replace k with (Z.succ (k - 1)) at 2 by lia.
      rewrite Z.pow_succ_r by lia.
      specialize (Hlen (k - 1) ltac:(lia)). split.
      * intros Hle. assert (x / b < b ^ (k - 1)) by (apply Hlen; lia). nia.
      * intros Hlt.
        assert (zlen ds <= k - 1) as Hle; [|lia].
        apply Hlen. apply Z.div_lt_upper_bound; lia.
Qed.

Lemma zlen_app {A} (p q : list A) : zlen (p ++ q) = zlen p + zlen q.
Proof. unfold zlen. rewrite length_app. lia. Qed.

Lemma zlen_repeat (c : Z) (n : Z) :
  zlen (repeat c (Z.to_nat n)) = Z.max 0 n.
Proof. unfold zlen. rewrite repeat_length. lia. Qed.

Lemma Forall_repeat_digit (b : Z) (n : nat) :
  0 < b -> Forall (digit b) (repeat 0 n).
Proof.
  intros Hb. induction n as [|n IH]; cbn [repeat]; constructor;
    [unfold digit; lia|done].
Qed.

Lemma padded_base_b_spec (fuel : nat) (x b len : Z) :
  2 <= b -> 0 <= x -> x < b ^ (Z.of_nat fuel - 1) ->
  exists ds,
    padded_base_b fuel x b len = Some (inr ds) /\
    horner b ds = x /\
    Forall (digit b) ds /\
    len <= zlen ds /\
    (zlen ds = len <-> 0 <= len /\ x < b ^ len).
Proof.
  intros Hb Hx Hfuel. unfold padded_base_b.
  destruct (Z.eqb_spec x 0) as [->|Hx0].
  - exists (repeat 0 (Z.to_nat len)). rewrite zlen_repeat.
    split; [done|]. split; [apply horner_zeros|].
    split; [apply Forall_repeat_digit; lia|]. split; [lia|].
    split; [|lia]. intros Hlen. split; [lia|].
    apply Z.pow_pos_nonneg; lia.
  - replace (x <? 0) with false by lia.
    destruct (base_b_loop_digits b fuel x [] Hb Hx Hfuel)
      as (ds & -> & Hval & Hds & Hlen).
    cbn [app]. pose proof (zlen_nonneg ds) as Hnn.
    destruct (Z.ltb_spec (zlen ds) len) as [Hlt|Hge].
    + exists (ds ++ repeat 0 (Z.to_nat (len - zlen ds))).
      rewrite zlen_app, zlen_repeat, horner_app, horner_zeros.
      split; [done|]. split; [lia|].
      split; [apply Forall_app; split;
              [done|apply Forall_repeat_digit; lia]|].
      split; [lia|]. split; [|lia]. intros _. split; [lia|].
      apply Hlen; lia.
    + exists ds. split; [done|]. split; [done|]. split; [done|].
      split; [done|]. split.
      * intros E. split; [lia|]. apply Hlen; lia.
      * intros [Hlen0 Hxlt]. apply Hlen in Hxlt; lia.
Qed.

(** X1: for a base of at least 2 and [x >= 0], [padded_base_b] returns
    (with fuel for one more round than [x] has digits) digits of base [b]
    that [update_array_to_int] reads back as [x]; the list is never cut
    to [length]: it has [length] entries exactly when [x < b ** length],
    and more otherwise. *)
Theorem padded_base_b_decodes (fuel : nat) (x b len : Z) :
  2 <= b -> 0 <= x -> x < b ^ (Z.of_nat fuel - 1) ->
  exists ds,
    padded_base_b fuel x b len = Some (inr ds) /\
    update_array_to_int ds b = x /\
    Forall (digit b) ds /\
    len <= zlen ds /\
    (zlen ds = len <-> 0 <= len /\ x < b ^ len).
Proof.
  intros Hb Hx Hfuel.
  destruct (padded_base_b_spec fuel x b len Hb Hx Hfuel)
    as (ds & Hrun & Hval & Hrest).
  exists ds. by rewrite update_array_to_int_horner.
Qed.

Lemma padded_base_b_decodes_witness :
  exists ds,
    padded_base_b 7 6 2 8 = Some (inr ds) /\
    update_array_to_int ds 2 = 6 /\
    Forall (digit 2) ds /\
    8 <= zlen ds /\
    (zlen ds = 8 <-> 0 <= 8 /\ 6 < 2 ^ 8).
Proof.
  apply (padded_base_b_decodes 7 6 2 8); [lia|lia|].
  vm_compute. reflexivity.
Defined.

Lemma padded_base_b_of_digits (fuel : nat) (arr : list Z) (b : Z) :
  2 <= b ->
  Forall (digit b) arr ->
  (length arr < fuel)%nat ->
  padded_base_b fuel (horner b arr) b (zlen arr) = Some (inr arr).
Proof.
  intros Hb Harr Hfuel.
  pose proof (horner_bound b arr Harr) as Hbound.
  assert (horner b arr < b ^ (Z.of_nat fuel - 1)) as Hfuel'.
  { eapply Z.lt_le_trans; [apply Hbound|].
    apply Z.pow_le_mono_r; unfold zlen; lia. }
  destruct (padded_base_b_spec fuel (horner b arr) b (zlen arr) Hb
              ltac:(lia) Hfuel') as (ds & -> & Hval & Hds & _ & Hlen).
  do 2 f_equal. apply (horner_injective b); try done.
  assert (zlen ds = zlen arr) as E
    by (apply Hlen; split; [apply zlen_nonneg|lia]).
  unfold zlen in E. lia.
Qed.

(** X2: for a base of at least 2, a list of digits of that base is what
    [padded_base_b] returns for its code and its length (with fuel for
    one more round than the list is long): the code of
    [update_array_to_int] loses nothing. *)
Theorem padded_base_b_encodes (fuel : nat) (arr : list Z) (b : Z) :
  2 <= b ->
  Forall (digit b) arr ->
  (length arr < fuel)%nat ->
  padded_base_b fuel (update_array_to_int arr b) b (zlen arr) =
    Some (inr arr).
Proof.
  intros Hb Harr Hfuel. rewrite update_array_to_int_horner.
  by apply padded_base_b_of_digits.
Qed.

Lemma padded_base_b_encodes_witness :
  padded_base_b 5 (update_array_to_int [0; 1; 1; 0] 2) 2 (zlen [0; 1; 1; 0])
  = Some (inr [0; 1; 1; 0]).
Proof.
  apply (padded_base_b_encodes 5 [0; 1; 1; 0] 2).
  - lia.
  - repeat constructor; unfold digit; lia.
  - cbn. lia.
Defined.

(** X3: the edges of [padded_base_b].  A negative [x] raises
    [RuntimeError]; [x = 0] gives zeros without any division, whatever
    the base; base 0 with [x > 0] raises [ZeroDivisionError]; and with
    base 1 and [x > 0] the loop never ends. *)
Theorem padded_base_b_edges (fuel : nat) (x b len : Z) :
  (x < 0 ->
   padded_base_b fuel x b len =
     Some (inl (RuntimeError "x should not be negative"))) /\
  (x = 0 -> padded_base_b fuel x b len = Some (inr (repeat 0 (Z.to_nat len))))
  /\
  (0 < x -> b = 0 -> (0 < fuel)%nat ->
   padded_base_b fuel x b len =
     Some (inl (ZeroDivisionError "integer division or modulo by zero")))
  /\
  (0 < x -> b = 1 -> padded_base_b fuel x b len = None).
Proof.
  unfold padded_base_b. split; [|split; [|split]].
  - intros Hx. replace (x =? 0) with false by lia.
    by replace (x <? 0) with true by lia.
  - by intros ->.
  - intros Hx -> Hfuel. replace (x =? 0) with false by lia.
    replace (x <? 0) with false by lia.
    destruct fuel as [|fuel]; [lia|]. cbn [base_b_loop].
    by replace (x =? 0) with false by lia.
  - intros Hx ->. replace (x =? 0) with false by lia.
    replace (x <? 0) with false by lia.
    assert (forall acc, base_b_loop fuel x 1 acc = None) as ->; [|done].
    induction fuel as [|fuel IH]; intros acc; [done|].
    cbn [base_b_loop]. replace (x =? 0) with false by lia.
    change (1 =? 0) with false. cbn iota. rewrite Z.div_1_r. apply IH.
Qed.

Lemma padded_base_b_edges_witness :
  padded_base_b 100 5 1 3 = None.
Proof.
  apply (proj2 (proj2 (proj2 (padded_base_b_edges 100 5 1 3)))); lia.
Defined.

Lemma sized_nb (nb : string) (size : Z) :
  utils.nb_sizes nb = Some size ->
  (nb = "moore"%string /\ size = 9) \/
  (nb = "von neumann"%string /\ size = 5) \/
  (nb = "extended"%string /\ size = 9).
Proof.
  unfold utils.nb_sizes.
  destruct (String.eqb_spec nb "moore"); [intros [= <-]; by left|].
  destruct (String.eqb_spec nb "von neumann");
    [intros [= <-]; by right; left|].
  destruct (String.eqb_spec nb "extended");
    [intros [= <-]; by right; right|done].
Qed.

Lemma sized_nb_lower (nb : string) (size : Z) :
  utils.nb_sizes nb = Some size -> utils.lower nb = nb /\ 0 <= size.
Proof.
  intros [[-> ->] | [[-> ->] | [-> ->]]]%sized_nb; split; (done || lia).
Qed.

(** X4: for a neighbourhood in the catalogue, a base of at least 2 and a
    code [0 <= i < base ** (base ** size)], [int_to_update_array] returns
    a table of exactly [base ** size] digits of that base, which
    [update_array_to_int] reads back as [i]. *)
Theorem int_to_update_array_table
    (fuel : nat) (i base : Z) (nb : string) (size : Z) :
  utils.nb_sizes nb = Some size ->
  2 <= base ->
  0 <= i < base ^ (base ^ size) ->
  base ^ size < Z.of_nat fuel ->
  exists table,
    int_to_update_array fuel i base nb = Some (inr table) /\
    zlen table = base ^ size /\
    Forall (digit base) table /\
    update_array_to_int table base = i.
Proof.
  intros Hs Hbase Hi Hfuel. unfold int_to_update_array. rewrite Hs.
  destruct (sized_nb_lower nb size Hs) as [_ Hsize].
  assert (i < base ^ (Z.of_nat fuel - 1)) as Hfuel'.
  { eapply Z.lt_le_trans; [apply Hi|]. apply Z.pow_le_mono_r; lia. }
  destruct (padded_base_b_spec fuel i base (base ^ size) Hbase
              ltac:(lia) Hfuel') as (ds & -> & Hval & Hds & _ & Hlen).
  exists ds. split; [done|]. split; [|split; [done|]].
  - apply Hlen. split; [|lia]. apply Z.pow_nonneg. lia.
  - by rewrite update_array_to_int_horner.
Qed.

Lemma int_to_update_array_table_witness :
  exists table,
    int_to_update_array 33 30 2 "von neumann" = Some (inr table) /\
    zlen table = 2 ^ 5 /\
    Forall (digit 2) table /\
    update_array_to_int table 2 = 30.
Proof.
  apply (int_to_update_array_table 33 30 2 "von neumann" 5);
    [reflexivity|lia| |vm_compute; reflexivity].
  split; [lia|]. vm_compute. reflexivity.
Defined.

(** X5: [int_to_update_array] looks the neighbourhood up as it is spelt,
    while [func_to_update_array] puts it in lower case first: for a name
    such as "Moore" the former raises [KeyError] and the latter builds
    its table. *)
Theorem int_to_update_array_case_sensitive
    (fuel : nat) (i base : Z) (nb : string) (size : Z)
    (func : ndval -> Z) (h : heap) :
  utils.nb_sizes nb = None ->
  utils.nb_sizes (utils.lower nb) = Some size ->
  int_to_update_array fuel i base nb = Some (inl (Exn (KeyError "nb"))) /\
  exists t h',
    utils.func_to_update_array func base nb h = (inr t, h') /\
    contents h' t =
      Some (NdVal [zlen (func_table func base (utils.lower nb) size)]
              (func_table func base (utils.lower nb) size)).
Proof.
  intros Hnone Hs. split.
  - unfold int_to_update_array. by rewrite Hnone.
  - eexists _, _. split.
    + by apply func_to_update_array_run.
    + apply contents_new.
Qed.

Lemma int_to_update_array_case_sensitive_witness :
  int_to_update_array 10 5 2 "Moore" = Some (inl (Exn (KeyError "nb"))) /\
  exists t h',
    utils.func_to_update_array parity_rule 2 "Moore" [] = (inr t, h') /\
    contents h' t =
      Some (NdVal [zlen (func_table parity_rule 2 (utils.lower "Moore") 9)]
              (func_table parity_rule 2 (utils.lower "Moore") 9)).
Proof.
  apply (int_to_update_array_case_sensitive 10 5 2 "Moore" 9 parity_rule []);
    reflexivity.
Defined.

(** X6: a rule function with values in [0, base) has an integer code, as
    long as the codes of its tables stay below [2 ^ 63] (base 2 with the
    von Neumann neighbourhood): the table [func_to_update_array] builds
    for it is what [int_to_update_array] returns for the table's
    [update_array_to_int]. *)
Theorem rule_table_code_roundtrip
    (func : ndval -> Z) (base : Z) (nb : string) (size : Z)
    (fuel : nat) (h : heap) :
  utils.nb_sizes nb = Some size ->
  2 <= base ->
  base ^ (base ^ size) < 2 ^ 63 ->
  (forall a, digit base (func a)) ->
  base ^ size < Z.of_nat fuel ->
  exists t h' table,
    utils.func_to_update_array func base nb h = (inr t, h') /\
    contents h' t = Some (NdVal [base ^ size] table) /\
    int_to_update_array fuel (update_array_to_int table base) base nb =
      Some (inr table).
Proof.
  intros Hs Hbase _ Hfunc Hfuel.
  destruct (sized_nb_lower nb size Hs) as [Hlow Hsize].
  pose proof (func_to_update_array_run func base nb size h) as Hrun.
  rewrite Hlow in Hrun. specialize (Hrun Hs). cbn zeta in Hrun.
  set (table := func_table func base nb size) in *.
  assert (zlen table = base ^ size) as Hlen
    by (apply length_func_table; lia).
  exists (Arr (length h) [zlen table] false), (h ++ [table]), table.
  split; [done|]. split; [rewrite contents_new; by rewrite Hlen|].
  unfold int_to_update_array.
  rewrite Hs, <- Hlen, update_array_to_int_horner.
  apply padded_base_b_of_digits; try done.
  - unfold table, func_table. apply Forall_map, Forall_forall.
    intros poss _. apply Hfunc.
  - unfold zlen in Hlen. lia.
Qed.

Lemma rule_table_code_roundtrip_witness :
  exists t h' table,
    utils.func_to_update_array parity_rule 2 "von neumann" [] =
      (inr t, h') /\
    contents h' t = Some (NdVal [2 ^ 5] table) /\
    int_to_update_array 33 (update_array_to_int table 2) 2 "von neumann" =
      Some (inr table).
Proof.
  apply (rule_table_code_roundtrip parity_rule 2 "von neumann" 5 33 []);
    [reflexivity|lia|reflexivity| |vm_compute; reflexivity].
  intros a. unfold digit, parity_rule. apply Z.mod_pos_bound. lia.
Defined.

(** ** What a step computes *)

Lemma convolve2d_2d (bd : boundary) (fill : Z) (d : list Z) (H W : Z)
    (k : list Z) (kh kw : Z) :
  convolve2d (Some (NdVal [H; W] d)) (Some (NdVal [kh; kw] k)) bd fill =
    inr (NdVal [H; W] (conv_data bd fill d H W k kh kw)).
Proof. reflexivity. Qed.

Lemma conv_data_tabulate (bd : boundary) (fill : Z) (d : list Z) (H W : Z)
    (k : list Z) (kh kw : Z) :
  conv_data bd fill d H W k kh kw =
    tabulate H W (conv_cell bd fill d H W k kh kw).
Proof. reflexivity. Qed.

Lemma map_tabulate (g : Z -> Z) (H W : Z) (f : Z -> Z -> Z) :
  map g (tabulate H W f) = tabulate H W (fun i j => g (f i j)).
Proof.
  unfold tabulate. induction (range H) as [|i l IH]; [done|].
  cbn [flat_map]. by rewrite map_app, map_map, IH.
Qed.

Lemma tabulate_ext (H W : Z) (f g : Z -> Z -> Z) :
  (forall i j, 0 <= i < H -> 0 <= j < W -> f i j = g i j) ->
  tabulate H W f = tabulate H W g.
Proof.
  intros Hfg. unfold tabulate.
  assert (forall l, (forall i, In i l -> 0 <= i < H) ->
            flat_map (fun i => map (fun j => f i j) (range W)) l =
            flat_map (fun i => map (fun j => g i j) (range W)) l) as Hl.
  { induction l as [|i l IH]; intros Hin; [done|].
    cbn [flat_map]. rewrite IH by (intros i' Hi'; apply Hin; by right).
    f_equal. apply map_ext_in. intros j Hj%in_range.
    apply Hfg; [|done]. apply Hin. by left. }
  apply Hl. intros i Hi. by apply in_range.
Qed.

Lemma Forall_tabulate (P : Z -> Prop) (H W : Z) (f : Z -> Z -> Z) :
  (forall i j, 0 <= i < H -> 0 <= j < W -> P (f i j)) ->
  Forall P (tabulate H W f).
Proof.
  intros Hf. unfold tabulate. apply Forall_forall.
  intros v Hv%list_elem_of_In%in_flat_map.
  destruct Hv as (i & Hi%in_range & Hv%in_map_iff).
  destruct Hv as (j & <- & Hj%in_range). by apply Hf.
Qed.

Lemma length_tabulate (H W : Z) (f : Z -> Z -> Z) :
  length (tabulate H W f) = (Z.to_nat H * Z.to_nat W)%nat.
Proof.
  unfold tabulate.
  rewrite (length_flat_map_const _ (Z.to_nat W))
    by (intros i; by rewrite length_map, length_range).
  by rewrite length_range.
Qed.

(** *** The table lookup *)

Lemma norm_index_neg (n v : Z) : - n <= v < 0 -> norm_index n v = Some (v + n).
Proof.
  intros Hv. unfold norm_index.
  replace ((0 <=? v) && (v <? n)) with false by lia.
  by replace ((- n <=? v) && (v <? 0)) with true by lia.
Qed.

Lemma norm_index_out (n v : Z) : v < - n \/ n <= v -> norm_index n v = None.
Proof.
  intros Hv. unfold norm_index.
  replace ((0 <=? v) && (v <? n)) with false by lia.
  by replace ((- n <=? v) && (v <? 0)) with false by lia.
Qed.

Lemma norm_index_mod (n v : Z) :
  - n <= v < n -> norm_index n v = Some (v mod n).
Proof.
  intros Hv. destruct (Z.lt_ge_cases v 0) as [Hneg|Hpos].
  - rewrite norm_index_neg by lia. f_equal.
    apply (Z.mod_unique v n (-1)); lia.
  - rewrite norm_index_in by lia. by rewrite Z.mod_small by lia.
Qed.

Lemma mapM_opt_none {A B} (f : A -> option B) (l : list A) :
  Exists (fun x => f x = None) l -> mapM_opt f l = None.
Proof.
  induction 1 as [x l Hx|x l _ IH]; cbn [mapM_opt].
  - by rewrite Hx.
  - rewrite IH. by destruct (f x).
Qed.

Lemma take_rows_1d_wrap (n : Z) (t : list Z) (idx : ndval) :
  length t = Z.to_nat n ->
  Forall (fun v => - n <= v < n) (data idx) ->
  take_rows (NdVal [n] t) idx =
    inr (NdVal (shape idx)
           (map (fun v => nth (Z.to_nat (v mod n)) t 0) (data idx))).
Proof.
  intros Ht Hidx. unfold take_rows. cbn [shape data].
  change (Z.to_nat (zprod [])) with 1%nat.
  rewrite (mapM_opt_map _ (fun v => [nth (Z.to_nat (v mod n)) t 0])).
  - by rewrite concat_singletons, app_nil_r.
  - eapply Forall_impl; [exact Hidx|]. intros v Hv. cbn beta in Hv |- *.
    rewrite (norm_index_mod n v Hv). cbn [mbind option_bind].
    pose proof (Z.mod_pos_bound v n ltac:(lia)).
    rewrite Nat.mul_1_r, firstn_1_skipn; [done|lia].
Qed.

Lemma take_rows_1d_out (n : Z) (t : list Z) (idx : ndval) :
  Exists (fun v => v < - n \/ n <= v) (data idx) ->
  take_rows (NdVal [n] t) idx = inl (IndexError "index is out of bounds").
Proof.
  intros Hidx. unfold take_rows. cbn [shape data].
  rewrite mapM_opt_none; [done|].
  eapply Exists_impl; [exact Hidx|]. intros v Hv. cbn beta in Hv |- *.
  by rewrite (norm_index_out n v Hv).
Qed.

Lemma step_raise (h : heap) (self : automaton) (g tv kv : ndval) (e : exn) :
  grid_at h self = Some g ->
  table_at h self = Some tv ->
  kernel_at h self = Some kv ->
  next_cells tv kv (convolve_boundary self) (edge_fill self) g = inl e ->
  step self h = (inl e, h).
Proof.
  unfold grid_at, table_at, kernel_at, next_cells, step, ConvCA.step.
  destruct (cell_array self) as [c|]; [|done].
  destruct (update_array self) as [| | | | |t]; try done.
  cbn [mbind option_bind ConvCA.load_opt]. intros Hc Ht Hk Hn.
  rewrite (bind_ok _ _ _ _ _ (as_value_run h c g Hc)).
  rewrite (bind_ok _ _ _ _ _ (as_value_run h _ kv Hk)).
  destruct (convolve2d _ _ _ _) as [e'|conv].
  { injection Hn as ->. reflexivity. }
  unfold lift at 1, bind at 1.
  destruct (contents_buf h t tv Ht) as (b & r & d & -> & Hb & Hd).
  unfold getitem, load, read_buf, bind, ret, lift. rewrite Hb.
  destruct tv as [s dv]. cbn [shape data] in *. subst dv. by rewrite Hn.
Qed.

Lemma padded_seen (bd : boundary) (fill : Z) (d : list Z) (H W i j : Z) :
  padded bd fill d H W i j = seen bd fill d H W i j.
Proof.
  unfold padded, seen, at2.
  destruct ((0 <=? i) && (i <? H) && (0 <=? j) && (j <? W)) eqn:Hin;
    destruct bd; try reflexivity.
  by rewrite !Z.mod_small by lia.
Qed.

Lemma conv_cell_weighted_sum (bd : boundary) (fill : Z) (d : list Z)
    (H W : Z) (k : list Z) (kh kw i j : Z) :
  conv_cell bd fill d H W k kh kw i j =
    weighted_sum bd fill d H W k kh kw i j.
Proof.
  unfold conv_cell, conv_terms, weighted_sum, tabulate. f_equal.
  induction (range kh) as [|p l IH]; [done|].
  cbn [flat_map]. rewrite map_app, map_map, IH. f_equal.
  apply map_ext. intros q. cbn [fst snd]. unfold at2.
  by rewrite padded_seen.
Qed.

Lemma conv_data_weighted_sums (bd : boundary) (fill : Z) (d : list Z)
    (H W : Z) (k : list Z) (kh kw : Z) :
  conv_data bd fill d H W k kh kw =
    tabulate H W (weighted_sum bd fill d H W k kh kw).
Proof.
  rewrite conv_data_tabulate. apply tabulate_ext.
  intros i j _ _. apply conv_cell_weighted_sum.
Qed.

(** X7: with a grid and a kernel of two axes and a table of one axis and
    [n] entries, [step()] looks every weighted sum [v] up in the table:
    if all sums lie in [-n, n) the new grid has the shape of the old one
    and holds [table[v mod n]] (a negative sum reads from the end of the
    table); if some sum lies outside, [step()] raises [IndexError] and the
    store is as it was.  The cells, the fill value and the weights are
    bounded so that no sum leaves [int64], and with wrapped edges the
    kernel reaches no further than one grid beyond an edge. *)
Theorem step_table_lookup
    (h : heap) (self : automaton) (H W kh kw n M K : Z) (d k t : list Z) :
  grid_at h self = Some (NdVal [H; W] d) ->
  kernel_at h self = Some (NdVal [kh; kw] k) ->
  table_at h self = Some (NdVal [n] t) ->
  length t = Z.to_nat n ->
  Forall (fun x => Z.abs x <= M) d ->
  Z.abs (edge_fill self) <= M ->
  Forall (fun w => Z.abs w <= K) k ->
  kh * kw * (K * M) < 2 ^ 63 ->
  (convolve_boundary self = BWrap -> kh <= 2 * H + 1 /\ kw <= 2 * W + 1) ->
  let sums :=
    tabulate H W
      (weighted_sum (convolve_boundary self) (edge_fill self) d H W k kh kw) in
  (Forall (fun v => - n <= v < n) sums ->
   exists self' h',
     step self h = (inr self', h') /\
     grid_at h' self' =
       Some (NdVal [H; W] (map (fun v => nth (Z.to_nat (v mod n)) t 0) sums)))
  /\
  (Exists (fun v => v < - n \/ n <= v) sums ->
   step self h = (inl (IndexError "index is out of bounds"), h)).
Proof.
  intros Hg Hk Ht Hlen _ _ _ _ _ sums. subst sums.
  rewrite <- conv_data_weighted_sums. split.
  - intros Hin. eexists _, _. split.
    + eapply (step_run h self _ _ _ _ Hg Ht Hk).
      unfold next_cells. rewrite convolve2d_2d.
      by apply take_rows_1d_wrap.
    + unfold grid_at. cbn [cell_array with_cells mbind option_bind shape data].
      apply contents_new.
  - intros Hout. apply (step_raise h self _ _ _ _ Hg Ht Hk).
    unfold next_cells. rewrite convolve2d_2d.
    by apply take_rows_1d_out.
Qed.

Lemma step_table_lookup_witness :
  exists self' h',
    step rule110_self rule110_store = (inr self', h') /\
    grid_at h' self' = Some (NdVal [1; 3] [0; 1; 1]).
Proof.
  assert (tabulate 1 3
            (weighted_sum BWrap 0 [0; 0; 1] 1 3 [1; 2; 4] 1 3) = [4; 1; 2])
    as E by (vm_compute; reflexivity).
  refine (proj1 (step_table_lookup rule110_store rule110_self
                   1 3 1 3 8 1 4 [0; 0; 1] [1; 2; 4] (wolfram 110)
                   eq_refl eq_refl eq_refl eq_refl _ _ _ _ _) _).
  - repeat constructor; lia.
  - unfold rule110_self. cbn [edge_fill]. lia.
  - repeat constructor; lia.
  - reflexivity.
  - intros _. lia.
  - cbn [convolve_boundary edge_fill rule110_self].
    rewrite E. repeat constructor; lia.
Defined.

(** *** Elementary automata *)

Lemma padded_row (bd : boundary) (fill : Z) (l : list Z) (j : Z) :
  padded bd fill l 1 (zlen l) 0 j = row_cell bd fill l j.
Proof. by destruct bd. Qed.

Lemma row_cell_bit (bd : boundary) (fill : Z) (l : list Z) (j : Z) :
  Forall bit l -> (bd = BFill -> bit fill) -> bit (row_cell bd fill l j).
Proof.
  intros Hl Hfill. destruct bd; cbn [row_cell].
  - by apply nth_bit.
  - destruct (_ && _); [by apply nth_bit|by apply Hfill].
Qed.

Lemma eca_conv_cell_row (bd : boundary) (fill : Z) (l : list Z) (j : Z) :
  conv_cell bd fill l 1 (zlen l) [1; 2; 4] 1 3 0 j =
    4 * row_cell bd fill l (j - 1) + 2 * row_cell bd fill l j +
    row_cell bd fill l (j + 1).
Proof.
  unfold conv_cell.
  change (conv_terms bd fill l 1 (zlen l) [1; 2; 4] 1 3 0 j)
    with [(1, padded bd fill l 1 (zlen l) 0 (j + 1 - 0));
          (2, padded bd fill l 1 (zlen l) 0 (j + 1 - 1));
          (4, padded bd fill l 1 (zlen l) 0 (j + 1 - 2))].
  replace (j + 1 - 0) with (j + 1) by lia.
  replace (j + 1 - 1) with j by lia.
  replace (j + 1 - 2) with (j - 1) by lia.
  rewrite !padded_row. cbn [map zsum fold_right fst snd]. lia.
Qed.

Lemma eca_next_cells (n : Z) (bd : boundary) (fill : Z) (l : list Z) :
  Forall bit l ->
  (bd = BFill -> bit fill) ->
  next_cells (NdVal [8] (wolfram n)) (NdVal [1; 3] [1; 2; 4]) bd fill
             (NdVal [1; zlen l] l) =
    inr (NdVal [1; zlen l]
           (map (fun j => eca_rule n (row_cell bd fill l (j - 1))
                            (row_cell bd fill l j) (row_cell bd fill l (j + 1)))
                (range (zlen l)))).
Proof.
  intros Hl Hfill.
  assert (forall j, 0 <= conv_cell bd fill l 1 (zlen l) [1; 2; 4] 1 3 0 j < 8)
    as Hb.
  { intros j. rewrite eca_conv_cell_row.
    destruct (row_cell_bit bd fill l (j - 1) Hl Hfill) as [-> | ->];
    destruct (row_cell_bit bd fill l j Hl Hfill) as [-> | ->];
    destruct (row_cell_bit bd fill l (j + 1) Hl Hfill) as [-> | ->]; lia. }
  unfold next_cells, convolve2d.
  change (range 1) with [0]. cbn [flat_map]. rewrite app_nil_r.
  rewrite take_rows_1d; cbn [shape data].
  - do 2 f_equal. rewrite map_map. apply map_ext. intros j.
    unfold wolfram. rewrite nth_map_range by apply Hb.
    unfold eca_rule. by rewrite eca_conv_cell_row.
  - unfold wolfram. by rewrite length_map, length_range.
  - rewrite Forall_forall. intros v Hv%list_elem_of_In%in_map_iff.
    destruct Hv as (j & <- & _). apply Hb.
Qed.

Lemma eca_run_next (n : Z) (edges : string) (bd : boundary) (fill : Z)
    (h : heap) (x : arraylike) (state out : list Z) :
  0 <= n <= 255 ->
  edge_boundary edges = Some bd ->
  value_in h x = Some (NdVal [zlen state] state) ->
  next_cells (NdVal [8] (wolfram n)) (NdVal [1; 3] [1; 2; 4]) bd fill
             (NdVal [1; zlen state] state) =
    inr (NdVal [1; zlen state] out) ->
  length out = length state ->
  exists snap h',
    eca_run n edges fill x h = (inr snap, h') /\
    contents h' snap = Some (NdVal [zlen state] out).
Proof.
  intros Hn Hbd Hx Hnext Hlen. unfold eca_run.
  rewrite (bind_ok _ _ _ _ _ (eca_init_run n edges bd fill h Hn Hbd)).
  cbn beta. set (h0 := h ++ _).
  unfold set_state, ECA.set_state. cbn [cls]. rewrite bind_assoc.
  rewrite (bind_ok _ _ _ _ _
             (np_copy_wrapped_value h0 x _ (value_in_ext h _ x _ Hx))).
  rewrite bind_ret. cbn [shape data].
  set (self := with_cells _ _). set (h1 := h0 ++ _).
  assert (grid_at h1 self = Some (NdVal [1; zlen state] state)) as Hgrid.
  { subst self h1. unfold grid_at.
    cbn [cell_array with_cells mbind option_bind]. apply contents_new. }
  assert (table_at h1 self = Some (NdVal [8] (wolfram n))) as Htable.
  { subst self h1 h0. unfold table_at, contents.
    cbn [update_array with_cells]. by store_norm. }
  assert (kernel_at h1 self = Some (NdVal [1; 3] [1; 2; 4])) as Hkernel.
  { subst self h1 h0. unfold kernel_at, contents.
    cbn [kernel with_cells]. by store_norm. }
  rewrite (bind_ok _ _ _ _ _
             (step_run h1 self _ _ _ _ Hgrid Htable Hkernel Hnext)).
  cbn beta. cbn [shape data].
  set (self' := with_cells _ _). set (h2 := h1 ++ _).
  assert (grid_at h2 self' = Some (NdVal [1; zlen state] out)) as Hgrid'.
  { subst self' h2. unfold grid_at.
    cbn [cell_array with_cells mbind option_bind]. apply contents_new. }
  eexists _, _. split.
  - apply (copy_state_run h2 self' _ (NdVal [zlen state] out) Hgrid').
    unfold snapshot_of. subst self' self. cbn [cls with_cells shape data].
    change (0 <? 1) with true. do 2 f_equal.
    apply firstn_all2. rewrite Hlen. unfold zprod, zlen.
    cbn [fold_right]. lia.
  - cbn [shape data]. apply contents_new.
Qed.

(** X8: one [step()] of [ECA(n)], [n] in 0..255, on a row of 0/1 cells,
    one cell at least, is Wolfram's rule [n]: the new cell [j] is bit [4*left + 2*self +
    right] of [n], the neighbours beyond the ends being the cells of the
    other end with [edges="wrap"] and [edge_fill] (0 or 1) with
    [edges="fixed"]. *)
Theorem eca_step_is_wolfram_rule
    (n fill : Z) (edges : string) (bd : boundary) (h : heap) (x : arraylike)
    (state : list Z) :
  0 <= n <= 255 ->
  edge_boundary edges = Some bd ->
  (bd = BFill -> bit fill) ->
  value_in h x = Some (NdVal [zlen state] state) ->
  state <> [] ->
  Forall bit state ->
  exists snap h',
    eca_run n edges fill x h = (inr snap, h') /\
    contents h' snap =
      Some (NdVal [zlen state]
              (map (fun j => eca_rule n (row_cell bd fill state (j - 1))
                               (row_cell bd fill state j)
                               (row_cell bd fill state (j + 1)))
                   (range (zlen state)))).
Proof.
  intros Hn Hbd Hfill Hx _ Hstate.
  apply (eca_run_next n edges bd fill h x state _ Hn Hbd Hx).
  - by apply eca_next_cells.
  - rewrite length_map, length_range. unfold zlen. lia.
Qed.

Lemma eca_step_is_wolfram_rule_witness :
  exists snap h',
    eca_run 30 "fixed" 1 (AList1 [0; 0; 1; 0; 0]) [] = (inr snap, h') /\
    contents h' snap = Some (NdVal [5] [1; 1; 1; 1; 1]).
Proof.
  apply (eca_step_is_wolfram_rule 30 1 "fixed" BFill [] (AList1 [0; 0; 1; 0; 0])
           [0; 0; 1; 0; 0]).
  - lia.
  - reflexivity.
  - intros _. by right.
  - reflexivity.
  - discriminate.
  - repeat constructor; (by left) || (by right).
Defined.

(** *** Reading rule text *)

Lemma digit_char_ok (d : Z) :
  digit 10 d ->
  LifeLike.is_digit (digit_char d) = true /\
  ECA.int_of_char (digit_char d) = Some d /\
  digit_char d <> "/"%char /\
  forall a, LifeLike.is_digit a = false -> Ascii.eqb (digit_char d) a = false.
Proof.
  intros Hd. unfold digit in Hd.
  assert (exists k, d = Z.of_nat k /\ (k < 10)%nat) as (k & -> & Hk)
    by (exists (Z.to_nat d); lia).
  assert (forall a c, LifeLike.is_digit c = true ->
            LifeLike.is_digit a = false -> Ascii.eqb c a = false) as Hne.
  { intros a c Hc Ha. destruct (Ascii.eqb_spec c a) as [->|]; [|done].
    by rewrite Hc in Ha. }
  do 10 (destruct k as [|k];
         [split; [reflexivity|split; [reflexivity|split; [discriminate|]]];
          intros a; by apply Hne|]).
  lia.
Qed.

Lemma span_digits_text (ds : list Z) (rest : string) :
  Forall (digit 10) ds ->
  match rest with
  | String c _ => LifeLike.is_digit c = false
  | EmptyString => True
  end ->
  LifeLike.span_digits (String.append (digits_text ds) rest) =
    (digits_text ds, rest).
Proof.
  intros Hds Hrest. induction Hds as [|d ds Hd _ IH].
  - cbn [digits_text map string_of_list_ascii String.append].
    destruct rest as [|c rest]; [done|]. cbn [LifeLike.span_digits].
    by rewrite Hrest.
  - unfold digits_text in *. cbn [map string_of_list_ascii String.append].
    cbn [LifeLike.span_digits].
    destruct (digit_char_ok d Hd) as (-> & _). by rewrite IH.
Qed.

Lemma ints_of_digits_text (ds : list Z) :
  Forall (digit 10) ds ->
  ECA.ints_of_chars (list_ascii_of_string (digits_text ds)) = inr ds.
Proof.
  intros Hds. unfold digits_text, ECA.ints_of_chars.
  rewrite list_ascii_of_string_of_list_ascii.
  assert (mapM_opt ECA.int_of_char (map digit_char ds) = Some ds) as ->;
    [|done].
  induction Hds as [|d ds Hd _ IH]; [done|].
  cbn [map mapM_opt]. destruct (digit_char_ok d Hd) as (_ & -> & _).
  by rewrite IH.
Qed.

Lemma skip_opt_keeps (a b : ascii) (ds : list Z) (rest : string) :
  Forall (digit 10) ds ->
  LifeLike.is_digit a = false -> LifeLike.is_digit b = false ->
  a <> "/"%char -> b <> "/"%char ->
  LifeLike.skip_opt a b (String.append (digits_text ds) (String "/" rest)) =
    String.append (digits_text ds) (String "/" rest).
Proof.
  intros Hds Ha Hb Ha' Hb'. destruct Hds as [|d ds Hd _].
  - cbn [digits_text map string_of_list_ascii String.append LifeLike.skip_opt].
    destruct (Ascii.eqb_spec "/" a) as [E|_]; [by destruct Ha'|].
    destruct (Ascii.eqb_spec "/" b) as [E|_]; [by destruct Hb'|]. done.
  - unfold digits_text.
    cbn [map string_of_list_ascii String.append LifeLike.skip_opt].
    destruct (digit_char_ok d Hd) as (_ & _ & _ & Hne).
    by rewrite (Hne a Ha), (Hne b Hb).
Qed.

Lemma re_search_rule_text (p q : string) (B S : list Z) (nl : bool) :
  Forall (digit 10) B -> Forall (digit 10) S ->
  In p [""; "b"; "B"]%string -> In q [""; "s"; "S"]%string ->
  LifeLike.re_search (rule_text p B q S nl) =
    Some (digits_text B, digits_text S).
Proof.
  intros HB HS Hp Hq. unfold LifeLike.re_search, rule_text. cbn zeta.
  set (tail := String.append (digits_text S) _).
  assert (LifeLike.skip_opt "s" "S" (String.append q tail) = tail) as Hq'.
  { destruct Hq as [<-|[<-|[<-|[]]]]; [|done|done].
    cbn [String.append]. unfold tail.
    destruct HS as [|d ds Hd _].
    - by destruct nl.
    - unfold digits_text.
      cbn [map string_of_list_ascii String.append LifeLike.skip_opt].
      destruct (digit_char_ok d Hd) as (_ & _ & _ & Hne).
      by rewrite (Hne "s"%char eq_refl), (Hne "S"%char eq_refl). }
  set (rest := String.append q tail) in *.
  assert (LifeLike.skip_opt "b" "B"
            (String.append p (String.append (digits_text B) (String "/" rest)))
          = String.append (digits_text B) (String "/" rest)) as ->.
  { destruct Hp as [<-|[<-|[<-|[]]]]; [|done|done].
    cbn [String.append]. by apply skip_opt_keeps. }
  rewrite (span_digits_text B _ HB) by done.
  rewrite Hq'. unfold tail.
  rewrite (span_digits_text S _ HS) by (by destruct nl).
  by destruct nl.
Qed.

Lemma counts_rule_of (live survive : list Z) (rule : LifeLike.rule_spec) :
  rule_of live survive rule -> LifeLike.counts rule = inr (live, survive).
Proof.
  intros [->|(p & q & nl & Hp & Hq & HB & HS & ->)]; [done|].
  cbn [LifeLike.counts].
  rewrite (re_search_rule_text p q live survive nl HB HS Hp Hq).
  by rewrite (ints_of_digits_text live HB), (ints_of_digits_text survive HS).
Qed.

Lemma span_digits_rest (s : string) (c : ascii) :
  In c (list_ascii_of_string (snd (LifeLike.span_digits s))) ->
  In c (list_ascii_of_string s).
Proof.
  induction s as [|c0 s IH]; [done|]. cbn [LifeLike.span_digits].
  destruct (LifeLike.is_digit c0); [|done].
  destruct (LifeLike.span_digits s) as [g rest]. cbn [snd] in *.
  intros Hin. right. by apply IH.
Qed.

Lemma skip_opt_rest (a b : ascii) (s : string) (c : ascii) :
  In c (list_ascii_of_string (LifeLike.skip_opt a b s)) ->
  In c (list_ascii_of_string s).
Proof.
  destruct s as [|c0 s]; [done|]. cbn [LifeLike.skip_opt].
  destruct (_ || _); [|done]. intros Hin. by right.
Qed.

Lemma re_search_no_slash (s : string) :
  ~ In "/"%char (list_ascii_of_string s) -> LifeLike.re_search s = None.
Proof.
  intros Hs. unfold LifeLike.re_search. cbn zeta.
  destruct (LifeLike.span_digits (LifeLike.skip_opt "b" "B" s))
    as [g1 s2] eqn:Hspan.
  assert (~ In "/"%char (list_ascii_of_string s2)) as Hs2.
  { intros Hin. apply Hs, (skip_opt_rest "b" "B"), span_digits_rest.
    by rewrite Hspan. }
  destruct s2 as [|c s3]; [done|].
  destruct c as [[] [] [] [] [] [] [] []]; try reflexivity.
  exfalso. apply Hs2. by left.
Qed.

Lemma parse_rest_err (rule : LifeLike.rule_spec) (r : Z) (h : heap)
    (b : loc) (H W : Z) (rv : bool) (d : list Z) (i j : Z) (e : exn) :
  h !! b = Some d ->
  norm_index H r = Some i ->
  norm_index W r = Some j ->
  LifeLike.counts rule = inl e ->
  exists h', parse_rest rule r (Arr b [H; W] rv) h = (inl e, h').
Proof.
  intros Hb Hi Hj Hc. unfold parse_rest.
  rewrite (bind_ok _ _ _ _ _ (np_sum_run h b _ rv d Hb)).
  rewrite (bind_ok _ _ _ _ _ (setitem2_run h b H W rv r i j _ d Hb Hi Hj)).
  rewrite Hc. by eexists.
Qed.

(** *** Sums over ranges *)

Lemma range_succ (m : nat) :
  range (Z.of_nat (S m)) = range (Z.of_nat m) ++ [Z.of_nat m].
Proof. unfold range. rewrite !Nat2Z.id, seq_S. by rewrite map_app. Qed.

Lemma range_succ_l (m : nat) :
  range (Z.of_nat (S m)) = 0 :: map Z.succ (range (Z.of_nat m)).
Proof.
  unfold range. rewrite !Nat2Z.id. cbn [seq map]. f_equal.
  rewrite <- seq_shift, !map_map. apply map_ext. intros a.
  apply Nat2Z.inj_succ.
Qed.

Lemma range_neg (n : Z) : n <= 0 -> range n = [].
Proof. intros Hn. unfold range. by replace (Z.to_nat n) with 0%nat by lia. Qed.

Lemma zsum_app (l1 l2 : list Z) : zsum (l1 ++ l2) = zsum l1 + zsum l2.
Proof.
  induction l1 as [|x l1 IH]; [done|].
  cbn [app zsum fold_right]. fold (zsum (l1 ++ l2)) (zsum l1). lia.
Qed.

Lemma zsum_cons (x : Z) (l : list Z) : zsum (x :: l) = x + zsum l.
Proof. reflexivity. Qed.

Lemma zsum_map_add {A} (f g : A -> Z) (l : list A) :
  zsum (map (fun x => f x + g x) l) = zsum (map f l) + zsum (map g l).
Proof.
  induction l as [|x l IH]; [done|].
  cbn [map]. rewrite !zsum_cons, IH. lia.
Qed.

Lemma zsum_flat_map {A} (F : A -> list Z) (l : list A) :
  zsum (flat_map F l) = zsum (map (fun x => zsum (F x)) l).
Proof.
  induction l as [|x l IH]; [done|].
  cbn [flat_map map]. by rewrite zsum_app, zsum_cons, IH.
Qed.

Lemma zsum_zeros {A} (l : list A) : zsum (map (fun _ => 0) l) = 0.
Proof. induction l as [|x l IH]; [done|]. cbn [map]. by rewrite zsum_cons, IH. Qed.

Lemma zsum_rev_range (f : Z -> Z) (n : Z) :
  zsum (map f (range n)) = zsum (map (fun a => f (n - 1 - a)) (range n)).
Proof.
  destruct (Z.le_gt_cases n 0) as [Hn|Hn]; [by rewrite range_neg|].
  rewrite <- (Z2Nat.id n) by lia. generalize (Z.to_nat n) as m. clear Hn.
  intros m. revert f. induction m as [|m IH]; intros f; [done|].
  transitivity (zsum (map f (range (Z.of_nat m))) + f (Z.of_nat m)).
  { rewrite range_succ, map_app, zsum_app. cbn [map].
    rewrite zsum_cons. change (zsum []) with 0. lia. }
  rewrite range_succ_l. cbn [map]. rewrite zsum_cons, map_map.
  rewrite (IH f).
  replace (Z.of_nat (S m) - 1 - 0) with (Z.of_nat m) by lia.
  assert (map (fun a => f (Z.of_nat (S m) - 1 - Z.succ a)) (range (Z.of_nat m))
          = map (fun a => f (Z.of_nat m - 1 - a)) (range (Z.of_nat m))) as ->.
  { apply map_ext. intros a. f_equal. lia. }
  lia.
Qed.

Lemma zsum_indicator (r c n : Z) :
  0 <= r < n ->
  zsum (map (fun p => if p =? r then c else 0) (range n)) = c.
Proof.
  intros Hr.
  assert (forall m : nat,
            zsum (map (fun p => if p =? r then c else 0) (range (Z.of_nat m))) =
            if r <? Z.of_nat m then c else 0) as Hm.
  { induction m as [|m IH].
    - change (Z.of_nat 0) with 0. by replace (r <? 0) with false by lia.
    - rewrite range_succ, map_app, zsum_app, IH. cbn [map].
      rewrite zsum_cons. change (zsum []) with 0.
      rewrite Nat2Z.inj_succ.
      pose proof (Nat2Z.is_nonneg m). set (k := Z.of_nat m) in *.
      destruct (Z.ltb_spec r k), (Z.eqb_spec k r), (Z.ltb_spec r (Z.succ k));
        lia. }
  rewrite <- (Z2Nat.id n) by lia. rewrite Hm.
  rewrite Z2Nat.id by lia. by replace (r <? n) with true by lia.
Qed.

Lemma zsum_tabulate (H W : Z) (f : Z -> Z -> Z) :
  zsum (tabulate H W f) =
    zsum (map (fun i => zsum (map (f i) (range W))) (range H)).
Proof. unfold tabulate. apply zsum_flat_map. Qed.

Lemma zsum_tabulate_add (H W : Z) (f g : Z -> Z -> Z) :
  zsum (tabulate H W (fun i j => f i j + g i j)) =
    zsum (tabulate H W f) + zsum (tabulate H W g).
Proof.
  rewrite !zsum_tabulate, <- zsum_map_add. f_equal.
  apply map_ext. intros i. apply zsum_map_add.
Qed.

Lemma zsum_tabulate_rev (H W : Z) (f : Z -> Z -> Z) :
  zsum (tabulate H W f) =
    zsum (tabulate H W (fun a b => f (H - 1 - a) (W - 1 - b))).
Proof.
  rewrite !zsum_tabulate.
  rewrite (zsum_rev_range (fun i => zsum (map (f i) (range W)))).
  f_equal. apply map_ext. intros a. apply zsum_rev_range.
Qed.

Lemma zsum_tabulate_indicator (n r c : Z) :
  0 <= r < n ->
  zsum (tabulate n n
          (fun p q => if p =? r then (if q =? r then c else 0) else 0)) = c.
Proof.
  intros Hr. rewrite zsum_tabulate.
  transitivity (zsum (map (fun p => if p =? r then c else 0) (range n)));
    [|by apply zsum_indicator].
  f_equal.
  apply map_ext. intros p. destruct (p =? r).
  - by apply zsum_indicator.
  - apply zsum_zeros.
Qed.

Lemma nth_tabulate (H W : Z) (f : Z -> Z -> Z) (i j : Z) :
  0 <= i < H -> 0 <= j < W ->
  nth (Z.to_nat (i * W + j)) (tabulate H W f) 0 = f i j.
Proof.
  intros Hi Hj. apply nth_lookup_Some. unfold tabulate.
  replace (Z.to_nat (i * W + j))
    with (Z.to_nat i * Z.to_nat W + Z.to_nat j)%nat by nia.
  rewrite (lookup_flat_map_const _ (Z.to_nat W) _ _ _ i).
  - by rewrite list_lookup_fmap, lookup_range.
  - intros a. by rewrite length_map, length_range.
  - by apply lookup_range.
  - lia.
Qed.

(** *** Cells beyond the edges *)

Lemma padded_in (P : Z -> Prop) (bd : boundary) (fill : Z) (d : list Z)
    (H W i j : Z) :
  P 0 -> Forall P d -> (bd = BFill -> P fill) ->
  P (padded bd fill d H W i j).
Proof.
  intros H0 Hd Hfill.
  assert (forall k, P (nth k d 0)) as Hnth.
  { intros k. destruct (nth_in_or_default k d 0) as [Hin| ->]; [|done].
    rewrite Forall_forall in Hd. apply Hd. by apply list_elem_of_In. }
  destruct bd; cbn [padded]; unfold at2.
  - apply Hnth.
  - destruct (_ && _); [apply Hnth|by apply Hfill].
Qed.

Lemma window_at_tabulate (bd : boundary) (fill : Z) (d : list Z)
    (H W r i j : Z) :
  window_at bd fill d H W r i j =
    tabulate (2 * r + 1) (2 * r + 1)
      (fun a b => padded bd fill d H W (i - r + a) (j - r + b)).
Proof. reflexivity. Qed.

Lemma window_at_in (P : Z -> Prop) (bd : boundary) (fill : Z) (d : list Z)
    (H W r i j : Z) :
  P 0 -> Forall P d -> (bd = BFill -> P fill) ->
  Forall P (window_at bd fill d H W r i j).
Proof.
  intros H0 Hd Hfill. rewrite window_at_tabulate.
  apply Forall_tabulate. intros a b _ _. by apply padded_in.
Qed.

Lemma length_window_at (bd : boundary) (fill : Z) (d : list Z)
    (H W r i j : Z) :
  0 <= r ->
  zlen (window_at bd fill d H W r i j) = (2 * r + 1) * (2 * r + 1).
Proof.
  intros Hr. unfold zlen. rewrite window_at_tabulate, length_tabulate. nia.
Qed.

(** *** Building an automaton, setting its state, one step *)

Lemma stepped_run (make : M automaton) (x : arraylike) (h l : heap)
    (ca : automaton) (g tv kv g' : ndval) :
  make h = (inr ca, h ++ l) ->
  cls ca <> KECA ->
  table_at (h ++ l) ca = Some tv ->
  kernel_at (h ++ l) ca = Some kv ->
  value_in h x = Some g ->
  next_cells tv kv (convolve_boundary ca) (edge_fill ca) g = inr g' ->
  exists ca' h',
    stepped make x h = (inr ca', h') /\
    grid_at h' ca' = Some g' /\
    table_at h' ca' = Some tv /\
    kernel_at h' ca' = Some kv.
Proof.
  intros Hmake Hcls Ht Hk Hx Hnext. unfold stepped.
  rewrite (bind_ok _ _ _ _ _ Hmake).
  assert (set_state ca x = ConvCA.set_state ca x) as ->
    by (unfold set_state; by destruct (cls ca)).
  unfold ConvCA.set_state. rewrite bind_assoc.
  rewrite (bind_ok _ _ _ _ _
             (np_copy_value (h ++ l) x g (value_in_ext h l x g Hx))).
  rewrite bind_ret.
  set (self := with_cells _ _). set (h1 := (h ++ l) ++ _).
  assert (grid_at h1 self = Some g) as Hgrid.
  { subst self h1. unfold grid_at.
    cbn [cell_array with_cells mbind option_bind].
    rewrite contents_new. by destruct g. }
  assert (table_at h1 self = Some tv) as Htable
    by (by apply (table_at_ext (h ++ l) _ ca)).
  assert (kernel_at h1 self = Some kv) as Hkernel
    by (by apply (contents_ext (h ++ l))).
  eexists _, _. split; [|split; [|split]].
  - by apply (step_run h1 self g tv kv g').
  - unfold grid_at. cbn [cell_array with_cells mbind option_bind].
    rewrite contents_new. by destruct g'.
  - by apply (table_at_ext h1 _ self).
  - by apply (contents_ext h1).
Qed.

(** *** Life-like automata *)

Lemma conv_cell_tabulate (bd : boundary) (fill : Z) (d : list Z) (H W : Z)
    (k : list Z) (kh kw i j : Z) :
  conv_cell bd fill d H W k kh kw i j =
    zsum (tabulate kh kw
            (fun p q => at2 k kw p q *
                        padded bd fill d H W
                          (i + (kh - 1) / 2 - p) (j + (kw - 1) / 2 - q))).
Proof.
  unfold conv_cell, conv_terms, tabulate. f_equal.
  induction (range kh) as [|p l IH]; [done|].
  cbn [flat_map]. by rewrite map_app, map_map, IH.
Qed.

Lemma life_kernel_at (r p q : Z) :
  0 <= r -> 0 <= p < 2 * r + 1 -> 0 <= q < 2 * r + 1 ->
  at2 (life_kernel r) (2 * r + 1) p q =
    if p =? r then (if q =? r then (2 * r + 1) * (2 * r + 1) else 1) else 1.
Proof.
  intros Hr Hp Hq. unfold at2, life_kernel. cbn zeta.
  set (n := 2 * r + 1) in *.
  assert (p = r /\ q = r \/ Z.to_nat (r * n + r) <> Z.to_nat (p * n + q))
    as [[-> ->]|Hne].
  { destruct (Z.eq_dec p r) as [->|Hpr].
    - destruct (Z.eq_dec q r) as [->|Hqr]; [by left|right]. lia.
    - right. intros E. apply Z2Nat.inj in E; [|nia|nia]. nia. }
  - rewrite !Z.eqb_refl. apply nth_insert_eq. rewrite repeat_length. nia.
  - rewrite nth_insert_ne by done. rewrite nth_repeat_in by nia.
    destruct (Z.eqb_spec p r) as [->|_]; [|done].
    destruct (Z.eqb_spec q r) as [->|_]; [|done].
    by destruct Hne.
Qed.

Lemma life_conv_cell (bd : boundary) (fill : Z) (d : list Z) (H W r i j : Z) :
  0 <= r ->
  conv_cell bd fill d H W (life_kernel r) (2 * r + 1) (2 * r + 1) i j =
    live_neighbours r (window_at bd fill d H W r i j) +
    (2 * r + 1) * (2 * r + 1) * centre r (window_at bd fill d H W r i j).
Proof.
  intros Hr. rewrite conv_cell_tabulate.
  replace ((2 * r + 1 - 1) / 2) with r
    by (apply (Z.div_unique _ 2 r 0); lia).
  set (n := 2 * r + 1).
  set (X := fun p q => padded bd fill d H W (i + r - p) (j + r - q)).
  rewrite (tabulate_ext n n _
             (fun p q => X p q +
                (if p =? r then (if q =? r then (n * n - 1) * X r r else 0)
                 else 0))); cycle 1.
  { intros p q Hp Hq. unfold n. rewrite life_kernel_at by (unfold n in *; lia).
    fold n. fold (X p q).
    destruct (Z.eqb_spec p r) as [->|_]; [|lia].
    destruct (Z.eqb_spec q r) as [->|_]; lia. }
  rewrite zsum_tabulate_add, zsum_tabulate_indicator by (unfold n; lia).
  rewrite zsum_tabulate_rev.
  rewrite (tabulate_ext n n _
             (fun a b => padded bd fill d H W (i - r + a) (j - r + b)));
    cycle 1.
  { intros a b _ _. unfold X, n. f_equal; lia. }
  unfold live_neighbours, centre. rewrite window_at_tabulate. fold n.
  rewrite nth_tabulate by (unfold n; lia).
  unfold X.
  replace (i + r - r) with (i - r + r) by lia.
  replace (j + r - r) with (j - r + r) by lia.
  lia.
Qed.

Lemma count_bound (w : list Z) (k : nat) :
  Forall bit w -> (k < length w)%nat ->
  0 <= zsum w - nth k w 0 <= zlen w - 1.
Proof.
  intros Hw. revert k. induction Hw as [|x w Hx Hw IH]; intros k Hk.
  { cbn in Hk. lia. }
  assert (0 <= zsum w <= zlen w) as Hsum.
  { clear -Hw. induction Hw as [|y w [-> | ->] _ IH].
    - done.
    - rewrite zsum_cons, zlen_cons. lia.
    - rewrite zsum_cons, zlen_cons. lia. }
  rewrite zsum_cons, zlen_cons. destruct k as [|k]; cbn [nth].
  - lia.
  - cbn [length] in Hk. specialize (IH k ltac:(lia)).
    destruct Hx as [-> | ->]; lia.
Qed.

Lemma life_lookup (B S : list Z) (n2 cnt c : Z) :
  Forall (fun b => b < n2) B ->
  Forall (fun s => 0 <= s) S ->
  0 <= cnt <= n2 - 1 ->
  bit c ->
  nth (Z.to_nat (cnt + n2 * c)) (life_table (n2 - 1) B S) 0 =
    if c =? 0
    then (if existsb (Z.eqb cnt) B then 1 else 0)
    else (if existsb (Z.eqb cnt) S then 1 else 0).
Proof.
  intros HB HS Hcnt Hc. unfold life_table. cbn zeta.
  rewrite Forall_forall in HB. rewrite Forall_forall in HS.
  rewrite nth_map_range by (destruct Hc as [-> | ->]; lia).
  destruct Hc as [-> | ->].
  - change (0 =? 0) with true. cbn match.
    replace (cnt + n2 * 0) with cnt by lia.
    assert (existsb (Z.eqb cnt) (B ++ map (fun i => n2 - 1 + 1 + i) S) =
            existsb (Z.eqb cnt) B) as ->; [|done].
    apply eq_true_iff_eq. rewrite !existsb_eqb_In, in_app_iff.
    split; [|by left]. intros [Hin|Hin]; [done|].
    apply in_map_iff in Hin as (s & Es & Hs%list_elem_of_In%HS). lia.
  - change (1 =? 0) with false. cbn match.
    assert (existsb (Z.eqb (cnt + n2 * 1))
              (B ++ map (fun i => n2 - 1 + 1 + i) S) =
            existsb (Z.eqb cnt) S) as ->; [|done].
    apply eq_true_iff_eq. rewrite !existsb_eqb_In, in_app_iff.
    split.
    + intros [Hin%list_elem_of_In%HB|Hin]; [lia|].
      apply in_map_iff in Hin as (s & Es & Hs).
      by replace cnt with s by lia.
    + intros Hin. right. apply in_map_iff. exists cnt. split; [lia|done].
Qed.

Lemma life_next_cells (bd : boundary) (fill r : Z) (B S : list Z) (H W : Z)
    (d : list Z) :
  0 <= r ->
  Forall (fun b => b < (2 * r + 1) * (2 * r + 1)) B ->
  Forall (fun s => 0 <= s) S ->
  Forall bit d ->
  (bd = BFill -> bit fill) ->
  let table := life_table ((2 * r + 1) * (2 * r + 1) - 1) B S in
  next_cells (NdVal [zlen table] table)
             (NdVal [2 * r + 1; 2 * r + 1] (life_kernel r)) bd fill
             (NdVal [H; W] d) =
    inr (NdVal [H; W]
           (tabulate H W
              (fun i j => life_rule B S r (window_at bd fill d H W r i j)))).
Proof.
  intros Hr HB HS Hd Hfill table.
  set (n2 := (2 * r + 1) * (2 * r + 1)) in *.
  assert (zlen table = 2 * n2) as Hlen.
  { unfold zlen, table, life_table. cbn zeta.
    rewrite length_map, length_range. nia. }
  assert (forall i j,
            0 <= live_neighbours r (window_at bd fill d H W r i j) <= n2 - 1 /\
            bit (centre r (window_at bd fill d H W r i j))) as Hw.
  { intros i j.
    pose proof (window_at_in bit bd fill d H W r i j (or_introl eq_refl)
                  Hd Hfill) as Hbits.
    pose proof (length_window_at bd fill d H W r i j Hr) as Hl. fold n2 in Hl.
    split.
    - rewrite <- Hl. unfold live_neighbours, centre. apply count_bound; [done|].
      unfold zlen in Hl. nia.
    - unfold centre. by apply nth_bit. }
  unfold next_cells. rewrite convolve2d_2d, conv_data_tabulate.
  rewrite take_rows_1d; cbn [shape data].
  - do 2 f_equal. rewrite map_tabulate. apply tabulate_ext.
    intros i j _ _. rewrite life_conv_cell by done. fold n2.
    destruct (Hw i j) as (Hcnt & Hc).
    by apply life_lookup.
  - unfold zlen. lia.
  - apply Forall_tabulate. intros i j _ _.
    rewrite life_conv_cell by done. fold n2.
    destruct (Hw i j) as (Hcnt & [-> | ->]); lia.
Qed.

Lemma lifelike_init_run (rule : LifeLike.rule_spec) (edges : string)
    (bd : boundary) (fill r : Z) (h : heap) (B S : list Z) :
  0 <= r ->
  LifeLike.counts rule = inr (B, S) ->
  edge_boundary edges = Some bd ->
  let size := 2 * r + 1 in
  let table := life_table (size * size - 1) B S in
  LifeLike.init rule edges fill r None h =
    (inr (Automaton KLifeLike (PyArr (Arr (length h + 1) [zlen table] false))
            (Arr (length h) [size; size] false) edges bd fill None),
     h ++ [life_kernel r; table]).
Proof.
  intros Hr Hc Hbd size table. unfold LifeLike.init.
  rewrite (bind_ok _ _ _ _ _ (parse_no_weights_run rule r h B S Hr Hc)).
  by apply convca_init_run.
Qed.

Lemma window_at_neighbourhood (bd : boundary) (fill : Z) (d : list Z)
    (H W r i j : Z) :
  window_at bd fill d H W r i j = neighbourhood bd fill d H W r i j.
Proof.
  rewrite window_at_tabulate. unfold neighbourhood. apply tabulate_ext.
  intros a b _ _. apply padded_seen.
Qed.

(** X9: a life-like automaton of radius [r] built without weights from
    born counts (each below [(2r+1)^2]) and survive counts applies the
    rule to the number of live cells among the [(2r+1)^2 - 1] cells
    around each cell: after [set_state] with a grid of 0/1 cells, one
    cell at least, and one [step()], a dead cell is alive exactly when
    that number is a born count, a live cell exactly when it is a survive
    count.  Cells beyond the edges are those of the opposite side
    ("wrap", the radius being at most the height and the width) or
    [edge_fill] ("fixed"). *)
Theorem lifelike_step_counts_neighbours
    (rule : LifeLike.rule_spec) (edges : string) (bd : boundary) (fill r : Z)
    (B S : list Z) (h : heap) (x : arraylike) (H W : Z) (d : list Z) :
  0 <= r ->
  rule_of B S rule ->
  Forall (fun b => b < (2 * r + 1) * (2 * r + 1)) B ->
  Forall (fun s => 0 <= s) S ->
  edge_boundary edges = Some bd ->
  (bd = BFill -> bit fill) ->
  (bd = BWrap -> r <= H /\ r <= W) ->
  value_in h x = Some (NdVal [H; W] d) ->
  d <> [] ->
  Forall bit d ->
  exists ca h',
    stepped (LifeLike.init rule edges fill r None) x h = (inr ca, h') /\
    grid_at h' ca =
      Some (NdVal [H; W]
              (tabulate H W
                 (fun i j =>
                    life_rule B S r (neighbourhood bd fill d H W r i j)))).
Proof.
  intros Hr Hc%counts_rule_of HB HS Hbd Hfill _ Hx _ Hd.
  pose proof (lifelike_init_run rule edges bd fill r h B S Hr Hc Hbd) as Hinit.
  cbn zeta in Hinit.
  set (table := life_table _ _ _) in Hinit.
  destruct (stepped_run _ x h _ _ (NdVal [H; W] d)
              (NdVal [zlen table] table)
              (NdVal [2 * r + 1; 2 * r + 1] (life_kernel r))
              (NdVal [H; W]
                 (tabulate H W
                    (fun i j =>
                       life_rule B S r (window_at bd fill d H W r i j))))
              Hinit) as (ca & h' & Hrun & Hgrid & _).
  - done.
  - unfold table_at, contents. cbn [update_array]. by rewrite lookup_ext.
  - apply contents_new.
  - exact Hx.
  - cbn [convolve_boundary edge_fill]. by apply life_next_cells.
  - exists ca, h'. split; [done|]. rewrite Hgrid. do 2 f_equal.
    apply tabulate_ext. intros i j _ _.
    by rewrite window_at_neighbourhood.
Qed.

Lemma lifelike_step_counts_neighbours_witness :
  exists ca h',
    stepped (LifeLike.init (LifeLike.RuleStr "B3/S23") "fixed" 0 1 None)
      (AList2 [[0; 1; 0]; [0; 1; 0]; [0; 1; 0]]) [] = (inr ca, h') /\
    grid_at h' ca = Some (NdVal [3; 3] [0; 0; 0; 1; 1; 1; 0; 0; 0]).
Proof.
  apply (lifelike_step_counts_neighbours (LifeLike.RuleStr "B3/S23") "fixed"
           BFill 0 1 [3] [2; 3] [] (AList2 [[0; 1; 0]; [0; 1; 0]; [0; 1; 0]])
           3 3 [0; 1; 0; 0; 1; 0; 0; 1; 0]).
  - lia.
  - right. exists "B"%string, "S"%string, false.
    split; [right; right; by left|]. split; [right; right; by left|].
    split; [repeat constructor; unfold digit; lia|].
    split; [repeat constructor; unfold digit; lia|]. reflexivity.
  - repeat constructor; lia.
  - repeat constructor; lia.
  - reflexivity.
  - intros _. by left.
  - discriminate.
  - reflexivity.
  - discriminate.
  - repeat constructor; (by left) || (by right).
Defined.

(** *** Non-totalistic automata *)

Lemma neighbours_in (P : Z -> Prop) (mask window : list Z) :
  Forall P window -> Forall P (neighbours mask window).
Proof.
  intros Hw. revert mask. induction Hw as [|x w Hx Hw IH]; intros mask.
  - by destruct mask.
  - destruct mask as [|m mask]; [done|]. cbn [neighbours].
    destruct (m =? 1); [constructor; [done|]|]; apply IH.
Qed.

Lemma nb_conv_cell (base : Z) (nb : string) (pat ex : ndval) :
  utils.nb_patterns nb = Some pat ->
  utils.nb_exponents nb = Some ex ->
  exists kh,
    shape pat = [kh; kh] /\
    forall bd fill d H W i j,
      length (window_at bd fill d H W (nb_radius pat) i j) =
        length (data pat) /\
      conv_cell bd fill d H W (nb_kernel base pat ex) kh kh i j =
        encode (NdVal (shape pat) (nb_kernel base pat ex))
               (window_at bd fill d H W (nb_radius pat) i j).
Proof.
  intros Hp Hex.
  destruct (supported_nb nb pat Hp) as [-> | [-> | ->]];
    injection Hp as <-; injection Hex as <-.
  - exists 3. split; [done|]. intros bd fill d H W i j. split; [done|].
    by apply conv_cell_window_3x3.
  - exists 3. split; [done|]. intros bd fill d H W i j. split; [done|].
    by apply conv_cell_window_3x3.
  - exists 5. split; [done|]. intros bd fill d H W i j. split; [done|].
    by apply conv_cell_window_5x5.
Qed.

Lemma nontotalistic_next_cells (func : ndval -> Z) (base : Z) (nb : string)
    (pat ex : ndval) (size : Z) (bd : boundary) (fill H W : Z) (d : list Z) :
  1 <= base ->
  utils.nb_patterns nb = Some pat ->
  utils.nb_exponents nb = Some ex ->
  utils.nb_sizes nb = Some size ->
  Forall (digit base) d ->
  (bd = BFill -> digit base fill) ->
  let table := func_table func base nb size in
  next_cells (NdVal [zlen table] table)
             (NdVal (shape pat) (nb_kernel base pat ex)) bd fill
             (NdVal [H; W] d) =
    inr (NdVal [H; W]
           (tabulate H W
              (fun i j =>
                 func (func_arg nb
                         (neighbours (data pat)
                            (window_at bd fill d H W (nb_radius pat) i j)))))).
Proof.
  intros Hbase Hp Hex Hs Hd Hfill table.
  destruct (nb_conv_cell base nb pat ex Hp Hex) as (kh & Hshape & Hconv).
  assert (forall i j,
            let w := window_at bd fill d H W (nb_radius pat) i j in
            0 <= conv_cell bd fill d H W (nb_kernel base pat ex) kh kh i j
              < base ^ size /\
            nth (Z.to_nat
                   (conv_cell bd fill d H W (nb_kernel base pat ex) kh kh i j))
                table 0 =
              func (func_arg nb (neighbours (data pat) w))) as Hcell.
  { intros i j w. destruct (Hconv bd fill d H W i j) as (Hlen & ->). fold w.
    fold w in Hlen.
    destruct (encode_supported base nb pat ex size w Hp Hex Hs Hlen)
      as (Hsize & Hn & ->).
    apply func_table_lookup; [done|done|].
    apply neighbours_in. apply window_at_in; [unfold digit; lia|done|done]. }
  assert (0 <= size) as Hsize.
  { destruct (supported_nb _ pat Hp) as [E | [E | E]];
      rewrite E in Hs; injection Hs as <-; lia. }
  assert (zlen table = base ^ size) as Hlen
    by (apply length_func_table; lia).
  rewrite Hshape. unfold next_cells.
  rewrite convolve2d_2d, conv_data_tabulate.
  rewrite take_rows_1d; cbn [shape data].
  - do 2 f_equal. rewrite map_tabulate. apply tabulate_ext.
    intros i j _ _. apply Hcell.
  - unfold zlen. lia.
  - apply Forall_tabulate. intros i j _ _. rewrite Hlen. apply Hcell.
Qed.

(** X10: a non-totalistic automaton built from a rule function applies
    that function to the neighbourhood of every cell: after [set_state]
    with a grid of cells in [0, base), one cell at least, and one
    [step()], cell [(i, j)] is the value of the function on the cells the
    neighbourhood pattern keeps of the cells around [(i, j)], row by row
    (as a 3 x 3 array for "moore"); cells beyond the edges are those of
    the opposite side ("wrap", the radius being at most the height and
    the width) or [edge_fill] ("fixed").  The table is one that can be
    built: [base ^ size] is below [2 ^ 63]. *)
Theorem nontotalistic_step_applies_rule
    (func : ndval -> Z) (base : Z) (nb edges : string) (bd : boundary)
    (fill : Z) (pat : ndval) (size : Z) (h : heap) (x : arraylike) (H W : Z)
    (d : list Z) :
  1 <= base ->
  utils.nb_patterns (utils.lower nb) = Some pat ->
  utils.nb_sizes (utils.lower nb) = Some size ->
  base ^ size < 2 ^ 63 ->
  edge_boundary edges = Some bd ->
  (bd = BFill -> digit base fill) ->
  (bd = BWrap -> nb_radius pat <= H /\ nb_radius pat <= W) ->
  value_in h x = Some (NdVal [H; W] d) ->
  d <> [] ->
  Forall (digit base) d ->
  exists ca h',
    stepped (NonTotalistic.init (NonTotalistic.Callable func) base nb edges
               fill) x h = (inr ca, h') /\
    grid_at h' ca =
      Some (NdVal [H; W]
              (tabulate H W
                 (fun i j =>
                    func (func_arg (utils.lower nb)
                            (neighbours (data pat)
                               (neighbourhood bd fill d H W (nb_radius pat)
                                  i j)))))).
Proof.
  intros Hbase Hp Hs _ Hbd Hfill _ Hx _ Hd.
  destruct (supported_exponents _ pat Hp) as [ex Hex].
  pose proof (nontotalistic_init_run func base nb edges bd fill h pat ex
                size Hp Hex Hs Hbd) as Hinit.
  cbn zeta in Hinit.
  set (table := func_table _ _ _ _) in Hinit.
  destruct (stepped_run _ x h _ _ (NdVal [H; W] d)
              (NdVal [zlen table] table)
              (NdVal (shape pat) (nb_kernel base pat ex))
              (NdVal [H; W]
                 (tabulate H W
                    (fun i j =>
                       func (func_arg (utils.lower nb)
                               (neighbours (data pat)
                                  (window_at bd fill d H W (nb_radius pat)
                                     i j))))))
              Hinit) as (ca & h' & Hrun & Hgrid & _).
  - done.
  - unfold table_at, contents. cbn [update_array]. by rewrite lookup_ext.
  - apply contents_new.
  - exact Hx.
  - cbn [convolve_boundary edge_fill]. by apply nontotalistic_next_cells.
  - exists ca, h'. split; [done|]. rewrite Hgrid. do 2 f_equal.
    apply tabulate_ext. intros i j _ _.
    by rewrite window_at_neighbourhood.
Qed.

Lemma nontotalistic_step_applies_rule_witness :
  exists ca h',
    stepped (NonTotalistic.init (NonTotalistic.Callable parity_rule) 2
               "Von Neumann" "wrap" 0)
      (AList2 [[0; 0; 0]; [0; 1; 0]; [0; 0; 0]]) [] = (inr ca, h') /\
    grid_at h' ca = Some (NdVal [3; 3] [0; 1; 0; 1; 1; 1; 0; 1; 0]).
Proof.
  apply (nontotalistic_step_applies_rule parity_rule 2 "Von Neumann" "wrap"
           BWrap 0 (utils.array2 [[0; 1; 0]; [1; 1; 1]; [0; 1; 0]]) 5 []
           (AList2 [[0; 0; 0]; [0; 1; 0]; [0; 0; 0]]) 3 3
           [0; 0; 0; 0; 1; 0; 0; 0; 0]).
  - lia.
  - reflexivity.
  - reflexivity.
  - reflexivity.
  - reflexivity.
  - discriminate.
  - intros _.
    change (nb_radius (utils.array2 [[0; 1; 0]; [1; 1; 1]; [0; 1; 0]]))
      with 1. lia.
  - reflexivity.
  - discriminate.
  - repeat constructor; unfold digit; lia.
Defined.

(** ** More on the generator *)

(** X11: with a negative [n] the generator never calls [step()]: however
    many snapshots are taken, each shows the grid as it was when the
    generator was started, and the automaton and its grid are unchanged. *)
Theorem n_generations_negative_never_steps
    (n : Z) (k : nat) (h : heap) (self : automaton) (g s : ndval) :
  n < 0 ->
  grid_at h self = Some g ->
  snapshot_of (cls self) g = Some s ->
  exists snaps h',
    take_gen k self (n_generations n) h =
      (inr (snaps, n_generations n, self), h') /\
    length snaps = k /\
    Forall (fun a => contents h' a = Some s) snaps /\
    grid_at h' self = Some g.
Proof.
  intros Hn Hg Hs.
  destruct (take_gen_negative (cls self) n k h self g s Hn eq_refl Hg Hs)
    as (snaps & l & Htake & Hlen & Hall).
  exists snaps, (h ++ l). split; [done|]. split; [done|]. split; [done|].
  by apply grid_at_ext.
Qed.

Lemma n_generations_negative_never_steps_witness :
  exists snaps h',
    take_gen 5 rule110_self (n_generations (-1)) rule110_store =
      (inr (snaps, n_generations (-1), rule110_self), h') /\
    length snaps = 5%nat /\
    Forall (fun a => contents h' a = Some (NdVal [3] [0; 0; 1])) snaps /\
    grid_at h' rule110_self = Some (NdVal [1; 3] [0; 0; 1]).
Proof.
  apply (n_generations_negative_never_steps (-1) 5 rule110_store rule110_self
           (NdVal [1; 3] [0; 0; 1]) (NdVal [3] [0; 0; 1]));
    [lia|reflexivity|reflexivity].
Defined.

Lemma drain_later_final (tv kv : ndval) (c : klass) (bd : boundary)
    (fill : Z) (k : nat) :
  forall (h : heap) (self : automaton) (g : ndval) (count : Z)
         (vals : list ndval),
    ready tv kv c bd fill h self ->
    grid_at h self = Some g ->
    1 <= count ->
    later (next_cells tv kv bd fill) c k g = Some vals ->
    exists snaps self' l gk,
      drain (S k) self (Generator (count + Z.of_nat k) count) h =
        (inr (Some snaps, self'), h ++ l) /\
      after_steps (next_cells tv kv bd fill) k g = Some gk /\
      grid_at (h ++ l) self' = Some gk /\
      ready tv kv c bd fill (h ++ l) self'.
Proof.
  induction k as [|k IH]; intros h self g count vals Hr Hg Hcount Hvals.
  - exists [], self, [], g. rewrite app_nil_r. split; [|done].
    cbn [drain]. unfold next. cbn [gen_n gen_count].
    rewrite Nat2Z.inj_0.
    replace ((count <? count + 0) || (count + 0 <? 0)) with false by lia.
    reflexivity.
  - cbn [later] in Hvals. cbn [after_steps].
    destruct (next_cells tv kv bd fill g) as [e|g'] eqn:Hnext; [done|].
    destruct (snapshot_of c g') as [s|] eqn:Hs; [|done].
    destruct (later _ c k g') as [rest|] eqn:Hrest; [|done].
    destruct Hr as (Ht & Hk & Hc & Hbd & Hfill).
    pose proof (step_run h self g tv kv g' Hg Ht Hk) as Hstep.
    rewrite Hbd, Hfill in Hstep. specialize (Hstep Hnext).
    set (self1 := with_cells self (Arr (length h) (shape g') false)) in *.
    set (h1 := h ++ [data g']) in *.
    assert (grid_at h1 self1 = Some g') as Hg1.
    { unfold grid_at, self1, h1.
      cbn [cell_array with_cells mbind option_bind].
      rewrite contents_new. by destruct g'. }
    assert (cls self1 = c) as Hc1 by done.
    pose proof (copy_state_run h1 self1 g' s Hg1) as Hcopy.
    rewrite Hc1 in Hcopy. specialize (Hcopy Hs).
    set (h2 := h1 ++ [data s]) in *.
    assert (ready tv kv c bd fill h2 self1) as Hr2.
    { unfold h2, h1. rewrite <- app_assoc.
      by apply ready_ext, ready_with_cells. }
    assert (grid_at h2 self1 = Some g') as Hg2
      by (by apply grid_at_ext).
    destruct (IH h2 self1 g' (count + 1) rest Hr2 Hg2 ltac:(lia) Hrest)
      as (snaps & self' & l & gk & Hdrain & Hafter & Hgk & Hrk).
    replace (count + 1 + Z.of_nat k) with (count + Z.of_nat (S k))
      in Hdrain by (rewrite Nat2Z.inj_succ; lia).
    exists (Arr (length h1) (shape s) false :: snaps), self',
      ([data g'; data s] ++ l), gk.
    replace (h ++ [data g'; data s] ++ l) with (h2 ++ l)
      by (unfold h2, h1; by rewrite <- !app_assoc).
    split; [|done].
    change (drain (S (S k))) with
      (fun self0 g0 =>
         let* '(y, g1, self2) := next self0 g0 in
         match y with
         | None => ret (Some [], self2)
         | Some snap =>
             let* '(rest, self3) := drain (S k) self2 g1 in
             ret (option_map (cons snap) rest, self3)
         end).
    cbn beta. unfold next at 1. cbn [gen_n gen_count].
    pose proof (Nat2Z.is_nonneg (S k)) as Hk0.
    pose proof (Nat2Z.inj_succ k) as Hk1.
    set (m := Z.of_nat (S k)) in *.
    replace ((count <? count + m) || (count + m <? 0)) with true by lia.
    replace (count >? 0) with true by lia.
    replace (count + m >=? 0) with true by lia.
    rewrite bind_assoc, (bind_ok _ _ _ _ _ Hstep).
    rewrite bind_assoc, (bind_ok _ _ _ _ _ Hcopy).
    rewrite bind_ret. cbn beta iota.
    by rewrite (bind_ok _ _ _ _ _ Hdrain).
Qed.

(** X12: the generator works on the automaton itself: once
    [n_generations(n)], [n >= 1], has been run to its end with no step
    raising, the automaton's own grid is the grid after [n - 1] steps (the
    state of the last snapshot), and its table and kernel are as before. *)
Theorem n_generations_advances_automaton
    (h : heap) (self : automaton) (tv kv g : ndval) (n : nat)
    (vals : list ndval) :
  table_at h self = Some tv ->
  kernel_at h self = Some kv ->
  grid_at h self = Some g ->
  generations (next_cells tv kv (convolve_boundary self) (edge_fill self))
              (cls self) (S n) g = Some vals ->
  exists snaps self' h' gn,
    drain (S (S n)) self (n_generations (Z.of_nat (S n))) h =
      (inr (Some snaps, self'), h') /\
    length snaps = S n /\
    after_steps (next_cells tv kv (convolve_boundary self) (edge_fill self))
                n g = Some gn /\
    grid_at h' self' = Some gn /\
    table_at h' self' = Some tv /\
    kernel_at h' self' = Some kv.
Proof.
  intros Ht Hk Hg Hvals.
  set (bd := convolve_boundary self) in *. set (fill := edge_fill self) in *.
  set (c := cls self) in *.
  assert (ready tv kv c bd fill h self) as Hr by done.
  cbn [generations] in Hvals.
  destruct (snapshot_of c g) as [s|] eqn:Hs; [|done].
  destruct (later _ c n g) as [rest|] eqn:Hrest; [|done].
  pose proof (copy_state_run h self g s Hg) as Hcopy.
  fold c in Hcopy. specialize (Hcopy Hs).
  set (h1 := h ++ [data s]) in *.
  assert (ready tv kv c bd fill h1 self) as Hr1
    by (by apply ready_ext).
  assert (grid_at h1 self = Some g) as Hg1 by (by apply grid_at_ext).
  destruct (drain_later_final tv kv c bd fill n h1 self g 1 rest Hr1 Hg1
              ltac:(lia) Hrest)
    as (snaps & self' & l & gn & Hdrain & Hafter & Hgn & Htn & Hkn & _).
  destruct (drain_later tv kv c bd fill n h1 self g 1 rest Hr1 Hg1
              ltac:(lia) Hrest)
    as (snaps' & self'' & l' & Hdrain' & Hmap & _).
  rewrite Hdrain in Hdrain'. injection Hdrain' as <- _ _.
  assert (length snaps = n) as Hlen.
  { apply (f_equal (@length _)) in Hmap. rewrite !length_map in Hmap.
    rewrite Hmap. by apply (later_after_steps tv kv c bd fill n g rest). }
  exists (Arr (length h) (shape s) false :: snaps), self', (h1 ++ l), gn.
  split; [|split; [cbn [length]; by rewrite Hlen|done]].
  change (drain (S (S n))) with
    (fun self0 g0 =>
       let* '(y, g1, self2) := next self0 g0 in
       match y with
       | None => ret (Some [], self2)
       | Some snap =>
           let* '(rest, self3) := drain (S n) self2 g1 in
           ret (option_map (cons snap) rest, self3)
       end).
  cbn beta. unfold n_generations, next at 1. cbn [gen_n gen_count].
  pose proof (Nat2Z.is_nonneg (S n)) as Hk0.
  pose proof (Nat2Z.inj_succ n) as Hk1.
  set (m := Z.of_nat (S n)) in *.
  replace ((0 <? m) || (m <? 0)) with true by lia.
  change (0 >? 0) with false.
  replace (m >=? 0) with true by lia.
  rewrite bind_assoc, bind_ret.
  rewrite bind_assoc, (bind_ok _ _ _ _ _ Hcopy).
  rewrite bind_ret. cbn beta iota.
  replace m with (1 + Z.of_nat n) by lia.
  by rewrite (bind_ok _ _ _ _ _ Hdrain).
Qed.

Lemma n_generations_advances_automaton_witness :
  exists snaps self' h' gn,
    drain 4 rule110_self (n_generations 3) rule110_store =
      (inr (Some snaps, self'), h') /\
    length snaps = 3%nat /\
    after_steps (next_cells (NdVal [8] (wolfram 110))
                   (NdVal [1; 3] [1; 2; 4]) BWrap 0)
                2 (NdVal [1; 3] [0; 0; 1]) = Some gn /\
    grid_at h' self' = Some gn /\
    table_at h' self' = Some (NdVal [8] (wolfram 110)) /\
    kernel_at h' self' = Some (NdVal [1; 3] [1; 2; 4]).
Proof.
  apply (n_generations_advances_automaton rule110_store rule110_self
           (NdVal [8] (wolfram 110)) (NdVal [1; 3] [1; 2; 4])
           (NdVal [1; 3] [0; 0; 1]) 2
           [NdVal [3] [0; 0; 1]; NdVal [3] [0; 1; 1]; NdVal [3] [1; 1; 1]]);
    reflexivity.
Defined.

(** ** States with the wrong number of axes *)

Lemma step_not_2d (h : heap) (self : automaton) (g kv : ndval) :
  grid_at h self = Some g ->
  kernel_at h self = Some kv ->
  length (shape g) <> 2%nat ->
  step self h =
    (inl (ValueError "convolve2d inputs must both be 2-D arrays"), h).
Proof.
  unfold grid_at, kernel_at, step, ConvCA.step.
  destruct (cell_array self) as [c|]; [|done].
  cbn [mbind option_bind ConvCA.load_opt]. intros Hc Hk Hs.
  rewrite (bind_ok _ _ _ _ _ (as_value_run h c g Hc)).
  rewrite (bind_ok _ _ _ _ _ (as_value_run h _ kv Hk)).
  destruct g as [[|a [|b [|c' s]]] d]; try done.
Qed.

(** X13: [step()] needs a grid of two axes.  On an automaton whose
    kernel is in place, [step()] raises [ValueError] and changes nothing
    when no state has been set, when a state of other than one axis has
    been set on an [ECA], and when a state of other than two axes has been
    set on an automaton of another class; before any state is set,
    [copy_state()] raises [TypeError] on an [ECA] and returns an array
    holding [None] otherwise. *)
Theorem step_needs_two_axes
    (h : heap) (self : automaton) (kv : ndval) :
  kernel_at h self = Some kv ->
  (cell_array self = None ->
   step self h =
     (inl (ValueError "convolve2d inputs must both be 2-D arrays"), h) /\
   copy_state self h =
     match cls self with
     | KECA => (inl (TypeError "'NoneType' object is not subscriptable"), h)
     | _ => (inr (ArrNone []), h)
     end) /\
  (forall x v,
     value_in h x = Some v ->
     length (shape v) <> (match cls self with KECA => 1 | _ => 2 end)%nat ->
     exists self' h',
       set_state self x h = (inr self', h') /\
       step self' h' =
         (inl (ValueError "convolve2d inputs must both be 2-D arrays"), h')).
Proof.
  intros Hk. split.
  - intros Hnone. split.
    + unfold step, ConvCA.step. rewrite Hnone. cbn [ConvCA.load_opt].
      rewrite bind_ret.
      by rewrite (bind_ok _ _ _ _ _ (as_value_run h _ kv Hk)).
    + unfold copy_state, ECA.copy_state, ConvCA.copy_state. rewrite Hnone.
      by destruct (cls self).
  - intros x v Hx Haxes.
    assert (exists a s,
              set_state self x h = (inr (with_cells self a), h ++ [data v]) /\
              contents (h ++ [data v]) a = Some (NdVal s (data v)) /\
              length s <> 2%nat) as (a & s & Hset & Ha & Hs).
    { unfold set_state, ECA.set_state, ConvCA.set_state.
      destruct (cls self).
      - rewrite (bind_ok _ _ _ _ _ (np_copy_value h x v Hx)).
        eexists _, _. split; [reflexivity|]. split; [apply contents_new|done].
      - rewrite (bind_ok _ _ _ _ _ (np_copy_value h x v Hx)).
        eexists _, _. split; [reflexivity|]. split; [apply contents_new|done].
      - rewrite (bind_ok _ _ _ _ _ (np_copy_wrapped_value h x v Hx)).
        eexists _, _. split; [reflexivity|]. split; [apply contents_new|].
        cbn [length]. lia.
      - rewrite (bind_ok _ _ _ _ _ (np_copy_value h x v Hx)).
        eexists _, _. split; [reflexivity|]. split; [apply contents_new|done]. }
    eexists _, _. split; [exact Hset|].
    apply (step_not_2d _ _ (NdVal s (data v)) kv).
    + unfold grid_at. by cbn [cell_array with_cells mbind option_bind].
    + by apply (contents_ext h).
    + done.
Qed.

Lemma step_needs_two_axes_witness :
  exists self' h',
    set_state rule110_self (AList2 [[0; 0; 1]]) rule110_store =
      (inr self', h') /\
    step self' h' =
      (inl (ValueError "convolve2d inputs must both be 2-D arrays"), h').
Proof.
  apply (proj2 (step_needs_two_axes rule110_store rule110_self
                  (NdVal [1; 3] [1; 2; 4]) eq_refl)
           (AList2 [[0; 0; 1]]) (NdVal [1; 3] [0; 0; 1]) eq_refl).
  cbn. lia.
Defined.

(** ** Rule text *)

(** X14: rule text.  The born counts, a slash and the survive counts,
    each count one decimal digit, with an optional [b] or [B] before the
    first part, an optional [s] or [S] before the second and an optional
    final newline, build the same automaton as the pair of the two count
    lists; a text without a slash is rejected with [ValueError]
    "Invalid rule". *)
Theorem lifelike_rule_text
    (edges : string) (fill r : Z) (h : heap) :
  (forall p q B S nl weights,
     Forall (digit 10) B -> Forall (digit 10) S ->
     In p [""; "b"; "B"]%string -> In q [""; "s"; "S"]%string ->
     LifeLike.init (LifeLike.RuleStr (rule_text p B q S nl)) edges fill r
                   weights h =
     LifeLike.init (LifeLike.RulePair B S) edges fill r weights h) /\
  (forall s,
     0 <= r ->
     ~ In "/"%char (list_ascii_of_string s) ->
     exists h',
       LifeLike.init (LifeLike.RuleStr s) edges fill r None h =
         (inl (ValueError "Invalid rule: %s"), h')).
Proof.
  split.
  - intros p q B S nl weights HB HS Hp Hq.
    assert (LifeLike.counts (LifeLike.RuleStr (rule_text p B q S nl)) =
            LifeLike.counts (LifeLike.RulePair B S)) as Hc.
    { cbn [LifeLike.counts].
      rewrite (re_search_rule_text p q B S nl HB HS Hp Hq).
      by rewrite (ints_of_digits_text B HB), (ints_of_digits_text S HS). }
    unfold LifeLike.init, LifeLike.parse. by rewrite Hc.
  - intros s Hr Hs.
    assert (LifeLike.counts (LifeLike.RuleStr s) =
            inl (ValueError "Invalid rule: %s")) as Hc.
    { cbn [LifeLike.counts]. by rewrite (re_search_no_slash s Hs). }
    unfold LifeLike.init. rewrite parse_split.
    unfold LifeLike.py_not at 1. rewrite bind_assoc, bind_ret.
    rewrite bind_assoc.
    rewrite (bind_ok _ _ _ _ _ (kernel_part_no_weights r true h Hr)).
    set (d := <[_ := 0]> _).
    assert ((h ++ [d]) !! length h = Some d) as Hb by (by rewrite lookup_ext0).
    destruct (parse_rest_err (LifeLike.RuleStr s) r (h ++ [d]) (length h)
                (2 * r + 1) (2 * r + 1) false d r r _ Hb
                (norm_index_in (2 * r + 1) r ltac:(lia))
                (norm_index_in (2 * r + 1) r ltac:(lia)) Hc)
      as (h' & Hrest).
    exists h'. by rewrite (bind_err _ _ _ _ _ Hrest).
Qed.

Lemma lifelike_rule_text_witness :
  LifeLike.init (LifeLike.RuleStr "b3/s23") "wrap" 0 1 None [] =
  LifeLike.init (LifeLike.RulePair [3] [2; 3]) "wrap" 0 1 None [].
Proof.
  apply (proj1 (lifelike_rule_text "wrap" 0 1 []) "b"%string "s"%string
           [3] [2; 3] false None).
  - repeat constructor; unfold digit; lia.
  - repeat constructor; unfold digit; lia.
  - right. by left.
  - right. by left.
Defined.

(** ** The kernel and the table of a life-like rule *)



(** ** Constructing a non-totalistic automaton *)

Lemma supported_size (nb : string) (pat : ndval) :
  utils.nb_patterns nb = Some pat -> exists size, utils.nb_sizes nb = Some size.
Proof. intros [-> | [-> | ->]]%supported_nb; by eexists. Qed.

Lemma parse_rule_run (rule : NonTotalistic.rule_arg) (base : Z) (nb : string)
    (size : Z) (h : heap) :
  utils.nb_sizes (utils.lower nb) = Some size ->
  exists ua l, NonTotalistic.parse_rule rule base nb h = (inr ua, h ++ l).
Proof.
  intros Hs. destruct rule as [func|v]; unfold NonTotalistic.parse_rule.
  - rewrite (bind_ok _ _ _ _ _
               (func_to_update_array_run func base nb size h Hs)).
    by eexists _, [_].
  - exists v, []. by rewrite app_nil_r.
Qed.

(** X15: what constructing a [NonTotalistic] automaton comes to.  A
    neighbourhood name that is not "moore", "von neumann" or "extended"
    after lower-casing raises [ValueError] "Invalid neighbourhood type"
    before anything is built, whatever the rule and the edge mode; with a
    supported name and a base that fits an [int64], an edge mode other
    than "wrap" and "fixed" raises [ValueError] "Invalid edge mode", and
    with one of these two construction succeeds, with no state set. *)
Theorem nontotalistic_init_outcome
    (rule : NonTotalistic.rule_arg) (base : Z) (nb edges : string) (fill : Z)
    (h : heap) :
  (utils.nb_patterns (utils.lower nb) = None ->
   NonTotalistic.init rule base nb edges fill h =
     (inl (ValueError "Invalid neighbourhood type: %s"), h)) /\
  (forall pat,
     utils.nb_patterns (utils.lower nb) = Some pat ->
     int64 base ->
     edge_boundary edges = None ->
     exists h',
       NonTotalistic.init rule base nb edges fill h =
         (inl (ValueError "Invalid edge mode: %s"), h')) /\
  (forall pat bd,
     utils.nb_patterns (utils.lower nb) = Some pat ->
     int64 base ->
     edge_boundary edges = Some bd ->
     exists ca h',
       NonTotalistic.init rule base nb edges fill h = (inr ca, h') /\
       cls ca = KNonTotalistic /\
       cell_array ca = None /\
       convolve_boundary ca = bd /\
       edge_fill ca = fill).
Proof.
  split; [|split].
  - intros Hp. unfold NonTotalistic.init, NonTotalistic.parse_kernel.
    cbn zeta. by rewrite Hp.
  - intros pat Hp _ He.
    destruct (supported_exponents _ pat Hp) as [ex Hex].
    destruct (supported_size _ pat Hp) as [size Hs].
    unfold NonTotalistic.init.
    rewrite (bind_ok _ _ _ _ _ (parse_kernel_run base nb h pat ex Hp Hex)).
    destruct (parse_rule_run rule base nb size (h ++ [nb_kernel base pat ex])
                Hs) as (ua & l & Hrule).
    rewrite (bind_ok _ _ _ _ _ Hrule).
    eexists. by apply convca_init_err.
  - intros pat bd Hp _ He.
    destruct (supported_exponents _ pat Hp) as [ex Hex].
    destruct (supported_size _ pat Hp) as [size Hs].
    unfold NonTotalistic.init.
    rewrite (bind_ok _ _ _ _ _ (parse_kernel_run base nb h pat ex Hp Hex)).
    destruct (parse_rule_run rule base nb size (h ++ [nb_kernel base pat ex])
                Hs) as (ua & l & Hrule).
    rewrite (bind_ok _ _ _ _ _ Hrule).
    eexists _, _. split; [by apply convca_init_run|]. done.
Qed.

Lemma nontotalistic_init_outcome_witness :
  exists h',
    NonTotalistic.init (NonTotalistic.Callable parity_rule) 2 "Moore"
      "torus" 0 [] =
      (inl (ValueError "Invalid edge mode: %s"), h').
Proof.
  apply (proj1 (proj2 (nontotalistic_init_outcome
                         (NonTotalistic.Callable parity_rule) 2 "Moore"
                         "torus" 0 []))
           (utils.array2 [[1; 1; 1]; [1; 1; 1]; [1; 1; 1]])).
  - reflexivity.
  - unfold int64. lia.
  - reflexivity.
Defined.

(** ** Palettes and scaling *)

(** X16: [get_palette(n)] for [n >= 0] is a list of exactly [n] colours:
    the first [n] of the default palette, then white from position 8 on.
    For a negative [n] it is not empty in general: it is the default
    palette without its last [-n] colours. *)
Theorem get_palette_colours (n : Z) :
  (0 <= n ->
   zlen (render.get_palette n) = n /\
   forall i, 0 <= i < n ->
     nth (Z.to_nat i) (render.get_palette n) [] =
       if i <? 8 then nth (Z.to_nat i) render.default_palette []
       else [255; 255; 255]) /\
  (n < 0 ->
   render.get_palette n = firstn (Z.to_nat (8 + n)) render.default_palette).
Proof.
  unfold render.get_palette.
  change (zlen render.default_palette) with 8. split.
  - intros Hn. destruct (Z.ltb_spec n 8) as [Hlt|Hge].
    + unfold render.slice_to. replace (n <? 0) with false by lia.
      split.
      * unfold zlen. rewrite length_firstn.
        change (length render.default_palette) with 8%nat. lia.
      * intros i Hi. replace (i <? 8) with true by lia.
        rewrite !nth_lookup. by rewrite lookup_take_lt by lia.
    + cbn zeta. split.
      * unfold zlen. rewrite length_app, repeat_length.
        change (length render.default_palette) with 8%nat. lia.
      * intros i Hi. destruct (Z.ltb_spec i 8) as [Hi8|Hi8].
        -- apply app_nth1.
           change (length render.default_palette) with 8%nat. lia.
        -- rewrite app_nth2
             by (change (length render.default_palette) with 8%nat; lia).
           rewrite nth_repeat_lt; [done|].
           change (length render.default_palette) with 8%nat. lia.
  - intros Hn. replace (n <? 8) with true by lia.
    unfold render.slice_to. replace (n <? 0) with true by lia.
    by change (zlen render.default_palette) with 8.
Qed.

Lemma get_palette_colours_witness :
  render.get_palette (-2) =
    [[0; 0; 0]; [0; 255; 0]; [0; 255; 255]; [0; 0; 255];
     [255; 0; 255]; [255; 0; 0]].
Proof.
  apply (proj2 (get_palette_colours (-2))). lia.
Defined.

(** *** Repeating blocks *)

Lemma length_flat_map_in {A B} (f : A -> list B) (m : nat) (l : list A) :
  (forall a, In a l -> length (f a) = m) ->
  length (flat_map f l) = (length l * m)%nat.
Proof.
  intros Hf. induction l as [|a l IH]; [done|].
  cbn [flat_map length]. rewrite length_app, Hf by (by left).
  rewrite IH by (intros b Hb; apply Hf; by right). lia.
Qed.

Lemma lookup_flat_map_in {A B} (f : A -> list B) (m : nat) (l : list A)
    (i j : nat) (x : A) :
  (forall a, In a l -> length (f a) = m) ->
  l !! i = Some x ->
  (j < m)%nat ->
  flat_map f l !! (i * m + j)%nat = f x !! j.
Proof.
  revert i. induction l as [|a l IH]; intros i Hf Hi Hj; [done|].
  cbn [flat_map]. destruct i as [|i].
  - injection Hi as ->. rewrite lookup_app_l; [done|].
    rewrite Hf by (by left). lia.
  - rewrite lookup_app_r by (rewrite Hf by (by left); lia).
    rewrite Hf by (by left).
    replace (S i * m + j - m)%nat with (i * m + j)%nat by lia.
    apply IH; [|done|done]. intros b Hb. apply Hf. by right.
Qed.

Lemma length_concat_repeat {A} (ch : list A) (n : nat) :
  length (concat (repeat ch n)) = (n * length ch)%nat.
Proof.
  induction n as [|n IH]; [done|].
  cbn [repeat concat]. rewrite length_app, IH. lia.
Qed.

Lemma lookup_concat_repeat {A} (ch : list A) (n t k : nat) :
  (t < n)%nat -> (k < length ch)%nat ->
  concat (repeat ch n) !! (t * length ch + k)%nat = ch !! k.
Proof.
  revert t. induction n as [|n IH]; intros t Ht Hk; [lia|].
  cbn [repeat concat]. destruct t as [|t].
  - by rewrite lookup_app_l.
  - rewrite lookup_app_r by lia.
    replace (S t * length ch + k - length ch)%nat
      with (t * length ch + k)%nat by lia.
    apply IH; lia.
Qed.

Lemma length_chunk (size k : nat) (d : list Z) :
  ((k + 1) * size <= length d)%nat ->
  length (render.chunk size k d) = size.
Proof.
  intros Hd. unfold render.chunk. rewrite length_take, length_drop. lia.
Qed.

Lemma lookup_chunk (size k j : nat) (d : list Z) :
  (j < size)%nat -> render.chunk size k d !! j = d !! (k * size + j)%nat.
Proof.
  intros Hj. unfold render.chunk.
  by rewrite lookup_take_lt, lookup_drop by done.
Qed.

Lemma chunk_in_range (count size k : nat) (d : list Z) :
  (count * size <= length d)%nat -> In k (seq 0 count) ->
  length (concat (repeat (render.chunk size k d) 0)) = 0%nat /\
  length (render.chunk size k d) = size.
Proof.
  intros Hd Hk%in_seq. split; [done|]. apply length_chunk. nia.
Qed.

Lemma length_repeat_chunks (n count size : nat) (d : list Z) :
  (count * size <= length d)%nat ->
  length (render.repeat_chunks n count size d) = (count * (n * size))%nat.
Proof.
  intros Hd. unfold render.repeat_chunks.
  rewrite (length_flat_map_in _ (n * size)), length_seq; [done|].
  intros k Hk. rewrite length_concat_repeat.
  by rewrite (proj2 (chunk_in_range count size k d Hd Hk)).
Qed.

Lemma lookup_repeat_chunks (n count size : nat) (d : list Z) (q t k : nat) :
  (count * size <= length d)%nat ->
  (q < count)%nat -> (t < n)%nat -> (k < size)%nat ->
  render.repeat_chunks n count size d !! ((q * n + t) * size + k)%nat =
    d !! (q * size + k)%nat.
Proof.
  intros Hd Hq Ht Hk. unfold render.repeat_chunks.
  replace ((q * n + t) * size + k)%nat
    with (q * (n * size) + (t * size + k))%nat by lia.
  rewrite (lookup_flat_map_in _ (n * size) _ _ _ q).
  - assert (length (render.chunk size q d) = size) as Hlen
      by (apply length_chunk; nia).
    rewrite <- Hlen at 1.
    rewrite lookup_concat_repeat by lia.
    by apply lookup_chunk.
  - intros a Ha. rewrite length_concat_repeat.
    by rewrite (proj2 (chunk_in_range count size a d Hd Ha)).
  - by apply lookup_seq_lt.
  - nia.
Qed.

Lemma to_nat_index (q n t c k : Z) :
  0 <= q -> 0 <= n -> 0 <= t -> 0 <= c -> 0 <= k ->
  Z.to_nat ((q * n + t) * c + k) =
    ((Z.to_nat q * Z.to_nat n + Z.to_nat t) * Z.to_nat c + Z.to_nat k)%nat.
Proof.
  intros Hq Hn Ht Hc Hk.
  rewrite Z2Nat.inj_add, Z2Nat.inj_mul, Z2Nat.inj_add, Z2Nat.inj_mul
    by nia.
  done.
Qed.

(** X17: [scale_image(ar, n)] for an array of at least two axes and
    [n >= 0] is an array [n] times as high and as wide in which every
    cell of [ar] has become a square of [n] by [n] equal cells: entry
    [(i, j)] of the result is entry [(i // n, j // n)] of [ar]. *)
Theorem scale_image_squares (H W n : Z) (rest d : list Z) :
  0 <= n -> 0 <= H -> 0 <= W -> 0 <= zprod rest ->
  zlen d = H * W * zprod rest ->
  exists d',
    render.scale_image (NdVal (H :: W :: rest) d) n =
      inr (NdVal (n * H :: n * W :: rest) d') /\
    zlen d' = (n * H) * (n * W) * zprod rest /\
    forall i j k,
      0 <= i < n * H -> 0 <= j < n * W -> 0 <= k < zprod rest ->
      at3 d' (n * W) (zprod rest) i j k =
        at3 d W (zprod rest) (i / n) (j / n) k.
Proof.
  intros Hn HH HW Hc Hd.
  set (c := zprod rest) in *.
  set (d1 := render.repeat_chunks (Z.to_nat n) (Z.to_nat H)
               (Z.to_nat (W * c)) d).
  set (d2 := render.repeat_chunks (Z.to_nat n) (Z.to_nat (n * H * W))
               (Z.to_nat c) d1).
  assert (Z.to_nat H * Z.to_nat (W * c) <= length d)%nat as Hd0
    by (unfold zlen in Hd; nia).
  assert (length d1 = (Z.to_nat H * (Z.to_nat n * Z.to_nat (W * c)))%nat)
    as Hlen1 by (by apply length_repeat_chunks).
  assert (Z.to_nat (n * H * W) * Z.to_nat c <= length d1)%nat as Hd1.
  { rewrite Hlen1. rewrite <- !Z2Nat.inj_mul by nia. nia. }
  assert (length d2 =
            (Z.to_nat (n * H * W) * (Z.to_nat n * Z.to_nat c))%nat)
    as Hlen2 by (by apply length_repeat_chunks).
  exists d2. split; [|split].
  - unfold render.scale_image, render.np_repeat. cbn [shape data].
    replace (n <? 0) with false by lia. cbn [shape data].
    replace (n <? 0) with false by lia. done.
  - unfold zlen. rewrite Hlen2. rewrite <- !Z2Nat.inj_mul by nia. nia.
  - intros i j k Hi Hj Hk. unfold at3. rewrite !nth_lookup. f_equal.
    assert (0 < n) as Hn0 by nia.
    pose proof (Z.div_mod i n ltac:(lia)) as Ei.
    pose proof (Z.div_mod j n ltac:(lia)) as Ej.
    pose proof (Z.mod_pos_bound i n Hn0) as Hit.
    pose proof (Z.mod_pos_bound j n Hn0) as Hjt.
    assert (0 <= i / n < H) as Hiq
      by (split; [apply Z.div_pos; lia|apply Z.div_lt_upper_bound; lia]).
    assert (0 <= j / n < W) as Hjq
      by (split; [apply Z.div_pos; lia|apply Z.div_lt_upper_bound; lia]).
    set (iq := i / n) in *. set (it := i mod n) in *.
    set (jq := j / n) in *. set (jt := j mod n) in *.
    replace ((i * (n * W) + j) * c + k)
      with (((i * W + jq) * n + jt) * c + k) by (rewrite Ej; ring).
    rewrite to_nat_index by nia.
    unfold d2. rewrite lookup_repeat_chunks; [|done|nia|lia|lia].
    replace (Z.to_nat (i * W + jq) * Z.to_nat c + Z.to_nat k)%nat
      with ((Z.to_nat iq * Z.to_nat n + Z.to_nat it) * Z.to_nat (W * c) +
            Z.to_nat (jq * c + k))%nat; cycle 1.
    { apply Nat2Z.inj.
      rewrite !Nat2Z.inj_add, !Nat2Z.inj_mul, !Nat2Z.inj_add, !Nat2Z.inj_mul.
      rewrite !Z2Nat.id by nia. rewrite Ei. ring. }
    unfold d1. rewrite lookup_repeat_chunks; [|done|lia|lia|nia].
    f_equal. apply Nat2Z.inj.
    rewrite !Nat2Z.inj_add, !Nat2Z.inj_mul.
    rewrite !Z2Nat.id by nia. ring.
Qed.

Lemma scale_image_squares_witness :
  exists d',
    render.scale_image (NdVal [1; 2] [7; 9]) 2 = inr (NdVal [2; 4] d') /\
    d' = [7; 7; 9; 9; 7; 7; 9; 9].
Proof.
  destruct (scale_image_squares 1 2 2 [] [7; 9]) as (d' & Hrun & _);
    [lia|lia|lia|done|done|].
  exists d'. split; [exact Hrun|].
  vm_compute in Hrun. by injection Hrun as <-.
Defined.

(** ** The state of an elementary automaton *)

(** X18: on an [ECA], [set_state(x)] keeps [x] as the single row of a
    grid with one more axis, in a buffer of its own, and [copy_state()]
    right after returns a new array with the shape and values of [x]:
    writing to [x] or to the returned array afterwards leaves the grid as
    it was. *)
Theorem eca_set_state_copy_state
    (h : heap) (self : automaton) (x : arraylike) (v : ndval) :
  cls self = KECA ->
  value_in h x = Some v ->
  length (data v) = Z.to_nat (zprod (shape v)) ->
  exists self1 h1 snap h2,
    set_state self x h = (inr self1, h1) /\
    grid_at h1 self1 = Some (NdVal (1 :: shape v) (data v)) /\
    copy_state self1 h1 = (inr snap, h2) /\
    contents h2 snap = Some v /\
    (forall b s r d, x = AArr (Arr b s r) ->
       grid_at (<[b := d]> h1) self1 = Some (NdVal (1 :: shape v) (data v))) /\
    (forall b s r d, snap = Arr b s r ->
       grid_at (<[b := d]> h2) self1 = Some (NdVal (1 :: shape v) (data v))).
Proof.
  intros Hcls Hx Hlen.
  pose (c := Arr (length h) (1 :: shape v) false).
  set (g := NdVal (1 :: shape v) (data v)).
  assert (grid_at (h ++ [data v]) (with_cells self c) = Some g) as Hgrid.
  { unfold grid_at. cbn [cell_array with_cells mbind option_bind].
    apply contents_new. }
  exists (with_cells self c), (h ++ [data v]),
    (Arr (length (h ++ [data v])) (shape v) false),
    ((h ++ [data v]) ++ [data v]).
  split; [|split; [done|split; [|split; [|split]]]].
  - unfold set_state, ECA.set_state. rewrite Hcls.
    by rewrite (bind_ok _ _ _ _ _ (np_copy_wrapped_value h x v Hx)).
  - apply (copy_state_run _ _ g v Hgrid).
    cbn [cls with_cells]. rewrite Hcls. unfold snapshot_of, g.
    cbn [shape data]. change (0 <? 1) with true.
    rewrite firstn_all2 by lia. by destruct v.
  - rewrite contents_new. by destruct v.
  - intros b s r d ->. cbn [value_in] in Hx.
    destruct (contents_buf h _ v Hx) as (b' & r' & d' & [= -> _ ->] & Hb & _).
    pose proof (lookup_lt_Some _ _ _ Hb) as Hlt.
    unfold grid_at, c, contents.
    cbn [cell_array with_cells mbind option_bind].
    rewrite list_lookup_insert_ne by lia.
    by rewrite lookup_ext0.
  - intros b s r d [= <- _ _].
    unfold grid_at, c, contents.
    cbn [cell_array with_cells mbind option_bind].
    rewrite list_lookup_insert_ne by (rewrite length_app; cbn; lia).
    by rewrite <- app_assoc, lookup_ext0.
Qed.

Lemma eca_set_state_copy_state_witness :
  exists self1 h1 snap h2,
    set_state rule110_self (AArr (Arr 3 [3] true)) rule110_store =
      (inr self1, h1) /\
    grid_at h1 self1 = Some (NdVal [1; 3] [1; 0; 0]) /\
    copy_state self1 h1 = (inr snap, h2) /\
    contents h2 snap = Some (NdVal [3] [1; 0; 0]) /\
    (forall b s r d, AArr (Arr 3 [3] true) = AArr (Arr b s r) ->
       grid_at (<[b := d]> h1) self1 = Some (NdVal [1; 3] [1; 0; 0])) /\
    (forall b s r d, snap = Arr b s r ->
       grid_at (<[b := d]> h2) self1 = Some (NdVal [1; 3] [1; 0; 0])).
Proof.
  apply (eca_set_state_copy_state rule110_store rule110_self
           (AArr (Arr 3 [3] true)) (NdVal [3] [1; 0; 0]));
    reflexivity.
Defined.
